(** * K-Studio: the generation-orchestration layer

    A shallow embedding of [services/geminiService.ts] (the model gateway:
    [handleApiError], [editImage], [generateLookbook],
    [generateImageEditsBatch], [generateVideo]) and of the orchestration code
    of [App.tsx] ([formatBankText], the [transformations] initializer,
    [applyWatermarks], [handleGenerateImage], [handleGenerateVideo],
    [handleResetApp]), followed by the properties established about them.

    JavaScript strings are sequences of UTF-16 code units; [null] and
    [undefined] are [None]; a promise is represented by the way it settles.
    The remote service and the browser are given by their answers; what is
    written to the console is left out. *)

From Stdlib Require Import ZArith NArith List Ascii Bool Lia.
From stdpp Require Import gmap strings pretty.

Local Open Scope list_scope.

(* ===================================================================== *)
(** ** JavaScript strings *)
(* ===================================================================== *)

Module JS.

(** A string is the list of its UTF-16 code units. *)
Definition CodeUnit := N.
Definition JSString := list N.

(** An ASCII literal as a JavaScript string. *)
Definition str (s : string) : JSString :=
  map N_of_ascii (String.list_ascii_of_string s).

(** The double quote, which a literal of this file cannot contain. *)
Definition dquote : JSString := [34%N].

(** ToBoolean on a string: only the empty string is falsy. *)
Definition truthy (s : JSString) : bool :=
  match s with [] => false | _ :: _ => true end.

(** ToBoolean on [string | null | undefined]. *)
Definition truthy_opt (o : option JSString) : bool :=
  match o with Some s => truthy s | None => false end.

(** ToBoolean on [number | undefined], for a natural number. *)
Definition truthy_number (o : option N) : bool :=
  match o with Some n => negb (N.eqb n 0) | None => false end.

Definition eqb (a b : JSString) : bool := bool_decide (a = b).

(** [is_prefix p s]: [s] starts with [p]. *)
Fixpoint is_prefix (p s : JSString) : bool :=
  match p, s with
  | [], _ => true
  | _ :: _, [] => false
  | a :: p', b :: s' => N.eqb a b && is_prefix p' s'
  end.

(** [String.prototype.indexOf(pat)]: position of the first occurrence,
    [None] for -1. *)
Fixpoint indexOf (s pat : JSString) : option nat :=
  if is_prefix pat s then Some 0
  else match s with
       | [] => None
       | _ :: s' => option_map S (indexOf s' pat)
       end.

(** [s.substring(s.indexOf(pat))]: a start of -1 is clamped to 0. *)
Definition substring_from_indexOf (s pat : JSString) : JSString :=
  match indexOf s pat with
  | Some i => skipn i s
  | None => s
  end.

(** [String.prototype.split(sep)] for a separator of one code unit. *)
Fixpoint split (sep : CodeUnit) (s : JSString) : list JSString :=
  match s with
  | [] => [[]]
  | c :: s' =>
      if N.eqb c sep then [] :: split sep s'
      else match split sep s' with
           | [] => [[c]]
           | w :: ws => (c :: w) :: ws
           end
  end.

(** GetSubstitution for a string pattern (no capture groups): in the
    replacement text [$$] is a dollar sign, [$&] the matched text, [$`] the
    text before the match and [$'] the text after it; every other code unit,
    a dollar sign before anything else included, stands for itself. *)
Fixpoint getSubstitution (matched before after repl : JSString) : JSString :=
  match repl with
  | [] => []
  | 36%N :: 36%N :: r => 36%N :: getSubstitution matched before after r
  | 36%N :: 38%N :: r => matched ++ getSubstitution matched before after r
  | 36%N :: 96%N :: r => before ++ getSubstitution matched before after r
  | 36%N :: 39%N :: r => after ++ getSubstitution matched before after r
  | c :: r => c :: getSubstitution matched before after r
  end.

(** [String.prototype.replace(pat, repl)] with a string pattern: only the
    first occurrence is replaced; the string is unchanged without one. *)
Definition replace (s pat repl : JSString) : JSString :=
  match indexOf s pat with
  | None => s
  | Some i =>
      let before := firstn i s in
      let after := skipn (i + length pat) s in
      before ++ getSubstitution pat before after repl ++ after
  end.

(** WhiteSpace and LineTerminator code units, as stripped by [trim]. *)
Definition is_space (c : CodeUnit) : bool :=
  (N.leb 9 c && N.leb c 13)
  || N.eqb c 32 || N.eqb c 160 || N.eqb c 5760
  || (N.leb 8192 c && N.leb c 8202)
  || N.eqb c 8232 || N.eqb c 8233 || N.eqb c 8239 || N.eqb c 8287
  || N.eqb c 12288 || N.eqb c 65279.

Fixpoint trimStart (s : JSString) : JSString :=
  match s with
  | c :: s' => if is_space c then trimStart s' else s
  | [] => []
  end.

(** [String.prototype.trim]. *)
Definition trim (s : JSString) : JSString :=
  rev (trimStart (rev (trimStart s))).

(** [Array.prototype.join(sep)] on strings. *)
Fixpoint join (sep : JSString) (l : list JSString) : JSString :=
  match l with
  | [] => []
  | [x] => x
  | x :: l' => x ++ sep ++ join sep l'
  end.

(** What [throw] can carry: an [Error] with its message, or any other
    value. *)
Inductive Thrown :=
| ErrorObj (message : JSString)
| NonError.

(** How a promise (or a call) settles. *)
Inductive Settled (A : Type) :=
| Resolved (a : A)
| Rejected (e : Thrown).
Arguments Resolved {A} a.
Arguments Rejected {A} e.

(** What the host provides and this development leaves open: the Unicode
    tables behind [toUpperCase] and [normalize("NFD")], the rendering of a
    Number as a string, and the API key of the process environment (the
    service module refuses to load without one). *)
Class Runtime := {
  toUpperCase : JSString -> JSString;
  normalizeNFD : JSString -> JSString;
  Number_toString : Z -> Z -> JSString;
  API_KEY : JSString
}.

End JS.

(* ===================================================================== *)
(** ** JSON.parse *)
(* ===================================================================== *)

Module Json.
Import JS.

(** A number literal [mant * 10^exp10], kept exact; the Number it denotes
    is the nearest binary64 value. *)
Record number := Num { mant : Z; exp10 : Z }.

#[warnings="-register-all"]
Inductive value :=
| JNull
| JBool (b : bool)
| JNum (n : number)
| JStr (s : JSString)
| JArr (elems : list value)
| JObj (members : list (JSString * value)).

(** The Number denoted by [n] is 500: the literal lies within half an ulp
    (2^-45) of 500, the tie going to 500, whose significand is even. *)
Definition num_is_500 (n : number) : bool :=
  if (0 <=? exp10 n)%Z then (mant n * 10 ^ exp10 n =? 500)%Z
  else
    let d := (10 ^ (- exp10 n))%Z in
    (Z.abs (mant n - 500 * d) * 2 ^ 45 <=? d)%Z.

(** The Number denoted by [n] is +0 or -0: the literal is zero or lies
    within half of the least subnormal (2^-1075) of zero. *)
Definition num_is_zero (n : number) : bool :=
  (mant n =? 0)%Z
  || ((exp10 n <? 0)%Z
      && (Z.abs (mant n) * 2 ^ 1075 <=? 10 ^ (- exp10 n))%Z).

(** ToBoolean on a parsed value. *)
Definition truthy (v : value) : bool :=
  match v with
  | JNull => false
  | JBool b => b
  | JNum n => negb (num_is_zero n)
  | JStr s => JS.truthy s
  | JArr _ | JObj _ => true
  end.

(** Property lookup on an object made by JSON.parse: the last member with
    that name wins. *)
Fixpoint lookup_member (k : JSString) (ms : list (JSString * value))
  : option value :=
  match ms with
  | [] => None
  | (k', v) :: ms' =>
      match lookup_member k ms' with
      | Some v' => Some v'
      | None => if JS.eqb k k' then Some v else None
      end
  end.

(** [v.k] for a name [k] that no prototype defines. Reading a property of
    [null] throws a TypeError ([None]); on every other value it yields the
    property or [undefined] ([Some None]). *)
Definition get (v : value) (k : JSString) : option (option value) :=
  match v with
  | JNull => None
  | JObj ms => Some (lookup_member k ms)
  | _ => Some None
  end.

(** ToString on a parsed value, as [new Error(v)] applies it: an array
    joins its elements with commas, [null] elements rendered empty. *)
Fixpoint toString `{Runtime} (v : value) : JSString :=
  match v with
  | JNull => str "null"
  | JBool true => str "true"
  | JBool false => str "false"
  | JNum n => Number_toString (mant n) (exp10 n)
  | JStr s => s
  | JArr l =>
      join (str ",")
           (map (fun e => match e with JNull => [] | _ => toString e end) l)
  | JObj _ => str "[object Object]"
  end.

Definition is_ws (c : CodeUnit) : bool :=
  N.eqb c 32 || N.eqb c 9 || N.eqb c 10 || N.eqb c 13.

Fixpoint skip_ws (s : JSString) : JSString :=
  match s with
  | c :: s' => if is_ws c then skip_ws s' else s
  | [] => []
  end.

Definition digit (c : CodeUnit) : option Z :=
  if N.leb 48 c && N.leb c 57 then Some (Z.of_N c - 48)%Z else None.

Definition hex (c : CodeUnit) : option N :=
  if N.leb 48 c && N.leb c 57 then Some (c - 48)%N
  else if N.leb 65 c && N.leb c 70 then Some (c - 55)%N
  else if N.leb 97 c && N.leb c 102 then Some (c - 87)%N
  else None.

(** The characters of a string literal after its opening quote. *)
Fixpoint parse_chars (s : JSString) : option (JSString * JSString) :=
  match s with
  | [] => None
  | 34%N :: r => Some ([], r)
  | 92%N :: e :: r =>
      let continue (c : CodeUnit) (r' : JSString) :=
        match parse_chars r' with
        | Some (cs, rest) => Some (c :: cs, rest)
        | None => None
        end in
      match e with
      | 34%N => continue 34%N r
      | 92%N => continue 92%N r
      | 47%N => continue 47%N r
      | 98%N => continue 8%N r
      | 102%N => continue 12%N r
      | 110%N => continue 10%N r
      | 114%N => continue 13%N r
      | 116%N => continue 9%N r
      | 117%N =>
          match r with
          | a :: b :: c :: d :: r' =>
              match hex a, hex b, hex c, hex d with
              | Some a, Some b, Some c, Some d =>
                  match parse_chars r' with
                  | Some (cs, rest) =>
                      Some ((a * 4096 + b * 256 + c * 16 + d)%N :: cs, rest)
                  | None => None
                  end
              | _, _, _, _ => None
              end
          | _ => None
          end
      | _ => None
      end
  | c :: r =>
      if N.ltb c 32 then None
      else match parse_chars r with
           | Some (cs, rest) => Some (c :: cs, rest)
           | None => None
           end
  end.

(** A run of decimal digits: the number read so far, how many digits were
    read, and the rest. *)
Fixpoint parse_digits (acc : Z) (n : Z) (s : JSString) : Z * Z * JSString :=
  match s with
  | c :: s' =>
      match digit c with
      | Some d => parse_digits (acc * 10 + d) (n + 1) s'
      | None => (acc, n, s)
      end
  | [] => (acc, n, s)
  end.

(** A number literal: an optional minus sign, an integer part without
    leading zero, an optional fraction (a dot and digits) and an optional
    exponent ([e] or [E], an optional sign, digits). *)
Definition parse_number (s : JSString) : option (number * JSString) :=
  let '(neg, s1) :=
    match s with 45%N :: r => (true, r) | _ => (false, s) end in
  let int_part :=
    match s1 with
    | 48%N :: r => Some (0%Z, r)
    | c :: _ =>
        match digit c with
        | Some _ => let '(i, _, r) := parse_digits 0 0 s1 in Some (i, r)
        | None => None
        end
    | [] => None
    end in
  match int_part with
  | None => None
  | Some (i, s2) =>
      let frac :=
        match s2 with
        | 46%N :: r =>
            let '(m, n, r') := parse_digits i 0 r in
            if (n =? 0)%Z then None else Some (m, n, r')
        | _ => Some (i, 0%Z, s2)
        end in
      match frac with
      | None => None
      | Some (m, fl, s3) =>
          let expo :=
            match s3 with
            | c :: r =>
                if N.eqb c 101 || N.eqb c 69 then
                  let '(eneg, r1) :=
                    match r with
                    | 45%N :: r' => (true, r')
                    | 43%N :: r' => (false, r')
                    | _ => (false, r)
                    end in
                  let '(e, n, r2) := parse_digits 0 0 r1 in
                  if (n =? 0)%Z then None
                  else Some ((if eneg then - e else e)%Z, r2)
                else Some (0%Z, s3)
            | [] => Some (0%Z, s3)
            end in
          match expo with
          | None => None
          | Some (e, s4) =>
              Some (Num (if neg then - m else m)%Z (e - fl)%Z, s4)
          end
      end
  end.

(** One JSON value at the head of [s]; [fuel] bounds the nesting. *)
Fixpoint parse_value (fuel : nat) (s : JSString) {struct fuel}
  : option (value * JSString) :=
  match fuel with
  | O => None
  | S fuel' =>
      match skip_ws s with
      | 123%N :: r =>
          match skip_ws r with
          | 125%N :: r' => Some (JObj [], r')
          | _ => option_map (fun '(ms, r') => (JObj ms, r'))
                            (parse_members fuel' r)
          end
      | 91%N :: r =>
          match skip_ws r with
          | 93%N :: r' => Some (JArr [], r')
          | _ => option_map (fun '(vs, r') => (JArr vs, r'))
                            (parse_elements fuel' r)
          end
      | 34%N :: r =>
          option_map (fun '(cs, r') => (JStr cs, r')) (parse_chars r)
      | 116%N :: 114%N :: 117%N :: 101%N :: r => Some (JBool true, r)
      | 102%N :: 97%N :: 108%N :: 115%N :: 101%N :: r => Some (JBool false, r)
      | 110%N :: 117%N :: 108%N :: 108%N :: r => Some (JNull, r)
      | s' => option_map (fun '(n, r') => (JNum n, r')) (parse_number s')
      end
  end
with parse_elements (fuel : nat) (s : JSString) {struct fuel}
  : option (list value * JSString) :=
  match fuel with
  | O => None
  | S fuel' =>
      match parse_value fuel' s with
      | None => None
      | Some (v, r) =>
          match skip_ws r with
          | 93%N :: r' => Some ([v], r')
          | 44%N :: r' =>
              option_map (fun '(vs, r'') => (v :: vs, r''))
                         (parse_elements fuel' r')
          | _ => None
          end
      end
  end
with parse_members (fuel : nat) (s : JSString) {struct fuel}
  : option (list (JSString * value) * JSString) :=
  match fuel with
  | O => None
  | S fuel' =>
      match skip_ws s with
      | 34%N :: r =>
          match parse_chars r with
          | None => None
          | Some (k, r1) =>
              match skip_ws r1 with
              | 58%N :: r2 =>
                  match parse_value fuel' r2 with
                  | None => None
                  | Some (v, r3) =>
                      match skip_ws r3 with
                      | 125%N :: r4 => Some ([(k, v)], r4)
                      | 44%N :: r4 =>
                          option_map (fun '(ms, r5) => ((k, v) :: ms, r5))
                                     (parse_members fuel' r4)
                      | _ => None
                      end
                  end
              | _ => None
              end
          end
      | _ => None
      end
  end.

(** [JSON.parse(s)]: the whole text must be one value; [None] stands for
    the SyntaxError it throws otherwise. Every recursive call of the parser
    follows at most two steps after a consumed code unit, so twice the
    length of the text is fuel enough. *)
Definition parse (s : JSString) : option value :=
  match parse_value (2 * length s + 2) s with
  | Some (v, r) => match skip_ws r with [] => Some v | _ => None end
  | None => None
  end.

End Json.

(* ===================================================================== *)
(** ** services/geminiService.ts *)
(* ===================================================================== *)

Module Gemini.
Import JS.

(** [{ base64, mimeType }]; [base64] is [undefined] when the caller split
    a data URL that has no comma. *)
Record ImagePart := {
  base64 : option JSString;
  mimeType : JSString
}.

(** [GeneratedContent] of [types.ts], with the fields the code reads and
    writes. *)
Record GeneratedContent := {
  imageUrl : option JSString;
  text : option JSString;
  videoUrl : option JSString;
  originalImageUrl : option JSString;
  secondaryImageUrl : option JSString
}.

(** One part of a [generateContent] request. *)
Inductive Part :=
| InlineData (data : option JSString) (mime : JSString)
| Text (t : JSString).

Record ContentRequest := {
  model : JSString;
  parts : list Part;
  responseModalities : list JSString
}.

(** The fields of a [generateContent] response that [editImage] reads; each
    may be absent. *)
Record Blob := {
  blob_mimeType : option JSString;
  blob_data : option JSString
}.

Record ResponsePart := {
  part_text : option JSString;
  part_inlineData : option Blob
}.

Record SafetyRating := {
  blocked : bool;
  category : option JSString
}.

Record Candidate := {
  content_parts : option (list ResponsePart);
  finishReason : option JSString;
  safetyRatings : option (list SafetyRating)
}.

Record ContentResponse := {
  candidates : option (list Candidate)
}.

(** The fields of a [generateImages] response that are read: the image
    bytes of each generated image. *)
Record ImagesResponse := {
  generatedImages : option (list (option JSString))
}.

Inductive ImageAspectRatio := I1_1 | I16_9 | I9_16 | I4_3 | I3_4.
Inductive VideoAspectRatio := V16_9 | V9_16.

Record ImagesRequest := {
  img_model : JSString;
  img_prompt : JSString;
  img_numberOfImages : N;
  img_outputMimeType : JSString;
  img_aspectRatio : ImageAspectRatio
}.

(** A call made to the remote service, as the log of a run records it. *)
Inductive GatewayCall :=
| GenerateContent (r : ContentRequest)
| GenerateImages (r : ImagesRequest).

(** The remote service: how it settles the n-th [generateContent] call
    (and after how many ticks) and the n-th [generateImages] call. *)
Record Gateway := {
  generateContent : nat -> nat * Settled ContentResponse;
  generateImages : nat -> Settled ImagesResponse
}.

Definition is_content (c : GatewayCall) : bool :=
  match c with GenerateContent _ => true | _ => false end.

Definition count_content (log : list GatewayCall) : nat :=
  length (filter (fun c => is_content c = true) log).

Definition count_images (log : list GatewayCall) : nat :=
  length (filter (fun c => is_content c = false) log).

(** A video request, as [generateVideo] assembles it. *)
Record VideoRequest := {
  vid_model : JSString;
  vid_prompt : JSString;
  vid_numberOfVideos : N;
  vid_resolution : JSString;
  vid_aspectRatio : VideoAspectRatio;
  vid_image : option ImagePart
}.

(** The fields of a video operation that are read: [done], [error] with
    its [message] ([None] when that is not a string) and the [uri] of the
    first generated video. *)
Record OperationError := {
  error_message : option JSString
}.

Record Operation := {
  done : bool;
  error : option OperationError;
  uri : option JSString
}.

(** One video job on the service: how [generateVideos] settles, and how
    the successive [getVideosOperation] calls settle. *)
Record VideoJob := {
  submitted : Settled Operation;
  polled : list (Settled Operation)
}.

(** What [generateVideo] does, step by step. *)
Inductive VideoEvent :=
| Progress (message : JSString)
| Submit (request : VideoRequest)
| Wait (ms : N)
| Poll (operation : Operation)
| ReadDownloadLink.

(** [Array.prototype.push]. *)
Definition push {A} (arr : list A) (x : A) : list A := arr ++ [x].

(** A template literal renders [undefined] as the word. *)
Definition interpolate (o : option JSString) : JSString :=
  match o with Some s => s | None => str "undefined" end.

Section Service.
Context `{Runtime}.

Definition msg_rate_limit : JSString :=
  str "You've likely exceeded the request limit. Please wait a moment before trying again.".
Definition msg_server_error : JSString :=
  str "An unexpected server error occurred. This might be a temporary issue. Please try again in a few moments.".
Definition msg_unknown_api : JSString :=
  str "An unknown error occurred while communicating with the API.".

(** [parsedError.error.status === s]. *)
Definition status_is (err : Json.value) (s : JSString) : bool :=
  match Json.get err (str "status") with
  | Some (Some (Json.JStr s')) => JS.eqb s' s
  | _ => false
  end.

(** [parsedError.error.code === 500]. *)
Definition code_is_500 (err : Json.value) : bool :=
  match Json.get err (str "code") with
  | Some (Some (Json.JNum n)) => Json.num_is_500 n
  | _ => false
  end.

(** A message carries a structured provider error when the text from its
    first brace on parses as JSON with a truthy [error] member that has a
    truthy [message]: the pair of that member and its message. *)
Definition structured_error (message : JSString)
  : option (Json.value * Json.value) :=
  match Json.parse (substring_from_indexOf message (str "{")) with
  | Some parsedError =>
      match Json.get parsedError (str "error") with
      | Some (Some err) =>
          match Json.get err (str "message") with
          | Some (Some m) =>
              if Json.truthy err && Json.truthy m then Some (err, m) else None
          | _ => None
          end
      | _ => None
      end
  | None => None
  end.

(** The message of the Error with which [handleApiError(error)] rejects. *)
Definition handleApiError (error : Thrown) : JSString :=
  match error with
  | ErrorObj message =>
      let potentialJson := substring_from_indexOf message (str "{") in
      match Json.parse potentialJson with
      | None => message
      | Some parsedError =>
          match Json.get parsedError (str "error") with
          | Some (Some err) =>
              if Json.truthy err then
                match Json.get err (str "message") with
                | Some (Some m) =>
                    if Json.truthy m then
                      if status_is err (str "RESOURCE_EXHAUSTED")
                      then msg_rate_limit
                      else if code_is_500 err || status_is err (str "UNKNOWN")
                      then msg_server_error
                      else Json.toString m
                    else message
                | _ => message
                end
              else message
          | _ => message
          end
      end
  | NonError => msg_unknown_api
  end.

Definition inline (img : ImagePart) : Part :=
  InlineData (base64 img) (mimeType img).

(** The prompt sent with a mask. *)
Definition masked_prompt (prompt : JSString) : JSString :=
  str "Apply the following instruction only to the masked area of the image: "
  ++ dquote ++ prompt ++ dquote ++ str ". Preserve the unmasked area.".

(** The [parts] array that [editImage] builds, push by push. *)
Definition editImage_parts (prompt : JSString) (imageParts : list ImagePart)
    (maskBase64 : option JSString) : list Part :=
  let fullPrompt :=
    if truthy_opt maskBase64 then masked_prompt prompt else prompt in
  let parts : list Part := [] in
  let parts :=
    match imageParts with
    | img0 :: _ => push parts (inline img0)
    | [] => parts
    end in
  let parts :=
    if truthy_opt maskBase64
    then push parts (InlineData maskBase64 (str "image/png"))
    else parts in
  let parts :=
    if 1 <? length imageParts
    then fold_left (fun parts img => push parts (inline img))
                   (skipn 1 imageParts) parts
    else parts in
  push parts (Text fullPrompt).

Definition editImage_request (prompt : JSString)
    (imageParts : list ImagePart) (maskBase64 : option JSString)
  : ContentRequest :=
  {| model := str "gemini-2.5-flash-image";
     parts := editImage_parts prompt imageParts maskBase64;
     responseModalities := [str "IMAGE"] |}.

Definition empty_content : GeneratedContent :=
  {| imageUrl := None; text := None; videoUrl := None;
     originalImageUrl := None; secondaryImageUrl := None |}.

(** The loop over the response parts: text parts accumulate, separated by
    newlines; the last inline part becomes the image. *)
Definition collect_part (result : GeneratedContent) (part : ResponsePart)
  : GeneratedContent :=
  if truthy_opt (part_text part) then
    {| imageUrl := imageUrl result;
       text := Some ((match text result with
                      | Some t => if truthy t then t ++ [10%N] else []
                      | None => []
                      end) ++ interpolate (part_text part));
       videoUrl := videoUrl result;
       originalImageUrl := originalImageUrl result;
       secondaryImageUrl := secondaryImageUrl result |}
  else
    match part_inlineData part with
    | Some b =>
        {| imageUrl := Some (str "data:" ++ interpolate (blob_mimeType b)
                             ++ str ";base64," ++ interpolate (blob_data b));
           text := text result;
           videoUrl := videoUrl result;
           originalImageUrl := originalImageUrl result;
           secondaryImageUrl := secondaryImageUrl result |}
    | None => result
    end.

Definition first_candidate (response : ContentResponse) : option Candidate :=
  match candidates response with
  | Some (c :: _) => Some c
  | _ => None
  end.

(** The message thrown when the response carries no image. *)
Definition no_image_message (response : ContentResponse) : JSString :=
  let c := first_candidate response in
  if bool_decide ((c ≫= finishReason) = Some (str "SAFETY")) then
    let blockedCategories :=
      option_map
        (fun rs => join (str ", ")
                     (map (fun r => match category r with
                                    | Some s => s
                                    | None => []
                                    end)
                          (filter (fun r => blocked r = true) rs)))
        (c ≫= safetyRatings) in
    str "The request was blocked for safety reasons. Categories: "
    ++ (if truthy_opt blockedCategories
        then interpolate blockedCategories else str "Unknown")
    ++ str ". Please modify your prompt or image."
  else
    str "The model did not return an image. It might have refused the request. Please try a different image or prompt.".

(** What [editImage] does with the answer of the service: everything after
    [await ai.models.generateContent(...)], the [catch] included. *)
Definition editImage_result (reply : Settled ContentResponse)
  : Settled GeneratedContent :=
  match reply with
  | Rejected e => Rejected (ErrorObj (handleApiError e))
  | Resolved response =>
      let responseParts := first_candidate response ≫= content_parts in
      let result :=
        match responseParts with
        | Some ps => fold_left collect_part ps empty_content
        | None => empty_content
        end in
      if negb (truthy_opt (imageUrl result)) then
        Rejected
          (ErrorObj (handleApiError (ErrorObj (no_image_message response))))
      else Resolved result
  end.

(** [editImage]: the request is issued (and logged) at the call; the
    promise settles [fst (generateContent gw n)] ticks later. *)
Definition editImage (gw : Gateway) (prompt : JSString)
    (imageParts : list ImagePart) (maskBase64 : option JSString)
    (log : list GatewayCall)
  : (nat * Settled GeneratedContent) * list GatewayCall :=
  let '(ticks, reply) := generateContent gw (count_content log) in
  ((ticks, editImage_result reply),
   push log (GenerateContent (editImage_request prompt imageParts maskBase64))).

(** The promise of the i-th of the calls that a loop issues from [log] on:
    its delay and the way it settles. *)
Definition child (gw : Gateway) (log : list GatewayCall) (i : nat)
  : nat * Settled GeneratedContent :=
  (fst (generateContent gw (count_content log + i)),
   editImage_result (snd (generateContent gw (count_content log + i)))).

(** The rejection that settles first; the earlier promise on a tie. *)
Fixpoint first_rejection {A} (ps : list (nat * Settled A))
  : option (nat * Thrown) :=
  match ps with
  | [] => None
  | (t, Resolved _) :: ps' => first_rejection ps'
  | (t, Rejected e) :: ps' =>
      match first_rejection ps' with
      | Some (t', e') => if t' <? t then Some (t', e') else Some (t, e)
      | None => Some (t, e)
      end
  end.

Fixpoint resolved_values {A} (ps : list (nat * Settled A)) : list A :=
  match ps with
  | [] => []
  | (_, Resolved a) :: ps' => a :: resolved_values ps'
  | (_, Rejected _) :: ps' => resolved_values ps'
  end.

(** [await Promise.all(promises)]: rejects with the first rejection to
    occur, otherwise yields all values in the order of the promises. *)
Definition promise_all {A} (ps : list (nat * Settled A)) : Settled (list A) :=
  match first_rejection ps with
  | Some (_, e) => Rejected e
  | None => Resolved (resolved_values ps)
  end.

(** [for (let i = 0; i < n; i++) promises.push(editImage(...))]. *)
Fixpoint push_editImage_calls (gw : Gateway) (n : nat) (prompt : JSString)
    (imageParts : list ImagePart)
    (promises : list (nat * Settled GeneratedContent))
    (log : list GatewayCall)
  : list (nat * Settled GeneratedContent) * list GatewayCall :=
  match n with
  | O => (promises, log)
  | S n' =>
      let '(p, log') := editImage gw prompt imageParts None log in
      push_editImage_calls gw n' prompt imageParts (push promises p) log'
  end.

(** An [editImage] promise yields an image. *)
Definition produces_image (p : Settled GeneratedContent) : bool :=
  match p with
  | Resolved r => truthy_opt (imageUrl r)
  | Rejected _ => false
  end.

(** [results.map(r => r.imageUrl).filter(url => !!url)]. *)
Definition image_urls (results : list GeneratedContent) : list JSString :=
  omap (fun r => match imageUrl r with
                 | Some u => if truthy u then Some u else None
                 | None => None
                 end) results.

Definition generateLookbook (gw : Gateway) (prompt : JSString)
    (imagePart : ImagePart) (numImages : nat) (log : list GatewayCall)
  : Settled (list JSString) * list GatewayCall :=
  let '(promises, log') :=
    push_editImage_calls gw numImages prompt [imagePart] [] log in
  let attempt :=
    match promise_all promises with
    | Rejected e => Rejected e
    | Resolved results =>
        let imageUrls := image_urls results in
        if length imageUrls =? 0 then
          Rejected (ErrorObj (str "Failed to generate any images for the lookbook. The model may have refused the request."))
        else Resolved imageUrls
    end in
  (match attempt with
   | Rejected (ErrorObj message) => Rejected (ErrorObj message)
   | Rejected NonError =>
       Rejected (ErrorObj (str "An unknown error occurred during lookbook generation."))
   | Resolved imageUrls => Resolved imageUrls
   end, log').

Definition generateImageEditsBatch (gw : Gateway) (prompt : JSString)
    (imageParts : list ImagePart) (log : list GatewayCall)
  : Settled (list JSString) * list GatewayCall :=
  let '(promises, log') :=
    push_editImage_calls gw 4 prompt imageParts [] log in
  let attempt :=
    match promise_all promises with
    | Rejected e => Rejected e
    | Resolved results =>
        let imageUrls := image_urls results in
        if length imageUrls =? 0 then
          Rejected (ErrorObj (str "Failed to generate any image variations. The model may have refused the request."))
        else Resolved imageUrls
    end in
  (match attempt with
   | Rejected (ErrorObj message) => Rejected (ErrorObj message)
   | Rejected NonError =>
       Rejected (ErrorObj (str "An unknown error occurred during batch image generation."))
   | Resolved imageUrls => Resolved imageUrls
   end, log').

Definition generateImageFromText (gw : Gateway) (prompt : JSString)
    (aspectRatio : ImageAspectRatio) (log : list GatewayCall)
  : Settled GeneratedContent * list GatewayCall :=
  let request :=
    {| img_model := str "imagen-4.0-generate-001";
       img_prompt := prompt;
       img_numberOfImages := 1;
       img_outputMimeType := str "image/png";
       img_aspectRatio := aspectRatio |} in
  (match generateImages gw (count_images log) with
   | Rejected e => Rejected (ErrorObj (handleApiError e))
   | Resolved response =>
       match generatedImages response with
       | Some (bytes :: _) =>
           Resolved
             {| imageUrl := Some (str "data:image/png;base64,"
                                  ++ interpolate bytes);
                text := None; videoUrl := None;
                originalImageUrl := None; secondaryImageUrl := None |}
       | _ =>
           Rejected
             (ErrorObj
                (handleApiError
                   (ErrorObj (str "The model did not return an image. It might have refused the request."))))
       end
   end, push log (GenerateImages request)).

(** [while (!operation.done) { await wait(10 s); operation = await get }].
    The result is [None] when the service stops answering before the job
    is done: the function then stays suspended. *)
Fixpoint poll_loop (operation : Operation) (polled : list (Settled Operation))
    (trace : list VideoEvent)
  : list VideoEvent * option (Settled Operation) :=
  if done operation then (trace, Some (Resolved operation))
  else
    let trace := push (push trace (Wait 10000)) (Poll operation) in
    match polled with
    | [] => (trace, None)
    | Rejected e :: _ => (trace, Some (Rejected e))
    | Resolved operation' :: polled' => poll_loop operation' polled' trace
    end.

(** The operation on which the loop ends when the service keeps
    answering: the first one that reports [done]. *)
Fixpoint first_done (operation : Operation) (polled : list (Settled Operation))
  : option Operation :=
  if done operation then Some operation
  else match polled with
       | Resolved operation' :: polled' => first_done operation' polled'
       | _ => None
       end.

Definition completed_operation (job : VideoJob) : option Operation :=
  match submitted job with
  | Resolved operation => first_done operation (polled job)
  | Rejected _ => None
  end.

(** The steps of the loop: a wait of ten seconds, or a poll. *)
Definition loop_event (e : VideoEvent) : Prop :=
  e = Wait 10000 \/ exists operation, e = Poll operation.

(** The number of waits in a trace. *)
Fixpoint count_waits (trace : list VideoEvent) : nat :=
  match trace with
  | [] => 0
  | Wait _ :: trace' => S (count_waits trace')
  | _ :: trace' => count_waits trace'
  end.

(** The [catch] of [generateVideo]. *)
Definition video_catch (e : Thrown) : Settled JSString :=
  match e with
  | ErrorObj _ => Rejected (ErrorObj (handleApiError e))
  | NonError =>
      Rejected (ErrorObj (str "An unknown error occurred during video generation."))
  end.

Definition video_failed : JSString :=
  str "Video generation failed during operation.".

(** What follows the loop once the job is done. *)
Definition video_finish (operation : Operation) (trace : list VideoEvent)
  : list VideoEvent * Settled JSString :=
  match error operation with
  | Some err =>
      (trace,
       video_catch
         (ErrorObj (match error_message err with
                    | Some m => if truthy m then m else video_failed
                    | None => video_failed
                    end)))
  | None =>
      let trace := push trace ReadDownloadLink in
      let downloadLink := uri operation in
      if negb (truthy_opt downloadLink) then
        (trace,
         video_catch
           (ErrorObj (str "Video generation completed, but no download link was found.")))
      else
        (trace,
         Resolved (interpolate downloadLink ++ str "&key=" ++ API_KEY))
  end.

(** The request that [generateVideo] assembles; the image is part of it
    only when one is given. *)
Definition video_request (prompt : JSString) (image : option ImagePart)
    (aspectRatio : VideoAspectRatio) : VideoRequest :=
  {| vid_model := str "veo-3.1-fast-generate-preview";
     vid_prompt := prompt;
     vid_numberOfVideos := 1;
     vid_resolution := str "720p";
     vid_aspectRatio := aspectRatio;
     vid_image := image |}.

(** [generateVideo]: the steps taken and how the promise settles ([None]
    while it never does). *)
Definition generateVideo (job : VideoJob) (prompt : JSString)
    (image : option ImagePart) (aspectRatio : VideoAspectRatio)
  : list VideoEvent * option (Settled JSString) :=
  let trace := [Progress (str "Initializing video generation...")] in
  let request := video_request prompt image aspectRatio in
  let trace := push trace (Submit request) in
  match submitted job with
  | Rejected e => (trace, Some (video_catch e))
  | Resolved operation =>
      let trace :=
        push trace
             (Progress (str "Polling for results, this may take a few minutes...")) in
      match poll_loop operation (polled job) trace with
      | (trace, None) => (trace, None)
      | (trace, Some (Rejected e)) => (trace, Some (video_catch e))
      | (trace, Some (Resolved operation)) =>
          let '(trace, r) := video_finish operation trace in
          (trace, Some r)
      end
  end.

End Service.

End Gemini.

(* ===================================================================== *)
(** ** App.tsx *)
(* ===================================================================== *)

Module App.
Import JS Gemini.

(** Modelled from the spec: [types.ts] is not among the sources. A
    [Transformation] is a catalog entry with a unique [key], a [prompt]
    (a fixed instruction, a template with placeholders, or the sentinel
    [CUSTOM] for free text) and the shape flags that [App.tsx] reads; an
    absent flag reads as [false], an absent [maxImages] or [videoPrompt] as
    [None]. [stepTwoPrompt] is read only when [isTwoStep] is set. *)
Record Transformation := {
  key : JSString;
  prompt : JSString;
  isMultiImage : bool;
  isSecondaryOptional : bool;
  maxImages : option N;
  isTwoStep : bool;
  stepTwoPrompt : JSString;
  isMultiStepVideo : bool;
  isVideo : bool;
  videoPrompt : option JSString
}.

Inductive ActiveTool := ToolMask | ToolNone.
Inductive LookbookMode := ModeMoodboard | ModeLookbook.
Inductive LookbookAspectRatio := L3_4 | L1_1 | L16_9.
Inductive OutputQuality := Standard | High | Ultra.

(** A browser [File]; only its identity matters here. *)
Record File := { file_name : JSString }.

(** A loaded image element, of which the resize utility reads the pixel
    dimensions. *)
Record HTMLImage := { width : N; height : N }.

(** What [App.tsx] imports from files that are not among the sources: the
    catalog of [constants.ts], the lookup [t] of the i18n context, and the
    asynchronous image utilities of [utils/fileUtils], each given by the
    way its promise settles. *)
Class Collaborators := {
  TRANSFORMATIONS : list Transformation;
  t : JSString -> JSString;
  embedWatermark : JSString -> JSString -> Settled JSString;
  addVisibleWatermark : JSString -> JSString -> Settled JSString;
  loadImage : JSString -> Settled HTMLImage;
  resizeImageToMatch : JSString -> HTMLImage -> Settled JSString
}.

(** The state of the [App] component: one field per [useState] hook. *)
Record AppState := {
  transformations : list Transformation;
  selectedTransformation : option Transformation;
  primaryImageUrl : option JSString;
  primaryFile : option File;
  secondaryImageUrl : option JSString;
  secondaryFile : option File;
  multiImageUrls : list JSString;
  generatedContent : option GeneratedContent;
  isLoading : bool;
  loadingMessage : JSString;
  error : option JSString;
  maskDataUrl : option JSString;
  previewImageUrl : option JSString;
  customPrompt : JSString;
  aspectRatio : VideoAspectRatio;
  imageAspectRatio : ImageAspectRatio;
  activeTool : ActiveTool;
  history : list GeneratedContent;
  isHistoryPanelOpen : bool;
  activeCategory : option Transformation;
  imageOptions : option (list JSString);
  selectedOption : option JSString;
  generatedLookbookImages : list JSString;
  bankName : JSString;
  accountName : JSString;
  accountNumber : JSString;
  branch : JSString;
  lookbookMode : LookbookMode;
  askAiPrompt : JSString;
  lookbookDescription : JSString;
  numImages : nat;
  lookbookAspectRatio : LookbookAspectRatio;
  outputQuality : OutputQuality
}.

(** The state setters that the handlers below call. *)
Definition setSelectedTransformation (v : option Transformation) (s : AppState) : AppState :=
  {| transformations := transformations s;
     selectedTransformation := v;
     primaryImageUrl := primaryImageUrl s;
     primaryFile := primaryFile s;
     secondaryImageUrl := secondaryImageUrl s;
     secondaryFile := secondaryFile s;
     multiImageUrls := multiImageUrls s;
     generatedContent := generatedContent s;
     isLoading := isLoading s;
     loadingMessage := loadingMessage s;
     error := error s;
     maskDataUrl := maskDataUrl s;
     previewImageUrl := previewImageUrl s;
     customPrompt := customPrompt s;
     aspectRatio := aspectRatio s;
     imageAspectRatio := imageAspectRatio s;
     activeTool := activeTool s;
     history := history s;
     isHistoryPanelOpen := isHistoryPanelOpen s;
     activeCategory := activeCategory s;
     imageOptions := imageOptions s;
     selectedOption := selectedOption s;
     generatedLookbookImages := generatedLookbookImages s;
     bankName := bankName s;
     accountName := accountName s;
     accountNumber := accountNumber s;
     branch := branch s;
     lookbookMode := lookbookMode s;
     askAiPrompt := askAiPrompt s;
     lookbookDescription := lookbookDescription s;
     numImages := numImages s;
     lookbookAspectRatio := lookbookAspectRatio s;
     outputQuality := outputQuality s |}.

Definition setGeneratedContent (v : option GeneratedContent) (s : AppState) : AppState :=
  {| transformations := transformations s;
     selectedTransformation := selectedTransformation s;
     primaryImageUrl := primaryImageUrl s;
     primaryFile := primaryFile s;
     secondaryImageUrl := secondaryImageUrl s;
     secondaryFile := secondaryFile s;
     multiImageUrls := multiImageUrls s;
     generatedContent := v;
     isLoading := isLoading s;
     loadingMessage := loadingMessage s;
     error := error s;
     maskDataUrl := maskDataUrl s;
     previewImageUrl := previewImageUrl s;
     customPrompt := customPrompt s;
     aspectRatio := aspectRatio s;
     imageAspectRatio := imageAspectRatio s;
     activeTool := activeTool s;
     history := history s;
     isHistoryPanelOpen := isHistoryPanelOpen s;
     activeCategory := activeCategory s;
     imageOptions := imageOptions s;
     selectedOption := selectedOption s;
     generatedLookbookImages := generatedLookbookImages s;
     bankName := bankName s;
     accountName := accountName s;
     accountNumber := accountNumber s;
     branch := branch s;
     lookbookMode := lookbookMode s;
     askAiPrompt := askAiPrompt s;
     lookbookDescription := lookbookDescription s;
     numImages := numImages s;
     lookbookAspectRatio := lookbookAspectRatio s;
     outputQuality := outputQuality s |}.

Definition setIsLoading (v : bool) (s : AppState) : AppState :=
  {| transformations := transformations s;
     selectedTransformation := selectedTransformation s;
     primaryImageUrl := primaryImageUrl s;
     primaryFile := primaryFile s;
     secondaryImageUrl := secondaryImageUrl s;
     secondaryFile := secondaryFile s;
     multiImageUrls := multiImageUrls s;
     generatedContent := generatedContent s;
     isLoading := v;
     loadingMessage := loadingMessage s;
     error := error s;
     maskDataUrl := maskDataUrl s;
     previewImageUrl := previewImageUrl s;
     customPrompt := customPrompt s;
     aspectRatio := aspectRatio s;
     imageAspectRatio := imageAspectRatio s;
     activeTool := activeTool s;
     history := history s;
     isHistoryPanelOpen := isHistoryPanelOpen s;
     activeCategory := activeCategory s;
     imageOptions := imageOptions s;
     selectedOption := selectedOption s;
     generatedLookbookImages := generatedLookbookImages s;
     bankName := bankName s;
     accountName := accountName s;
     accountNumber := accountNumber s;
     branch := branch s;
     lookbookMode := lookbookMode s;
     askAiPrompt := askAiPrompt s;
     lookbookDescription := lookbookDescription s;
     numImages := numImages s;
     lookbookAspectRatio := lookbookAspectRatio s;
     outputQuality := outputQuality s |}.

Definition setLoadingMessage (v : JSString) (s : AppState) : AppState :=
  {| transformations := transformations s;
     selectedTransformation := selectedTransformation s;
     primaryImageUrl := primaryImageUrl s;
     primaryFile := primaryFile s;
     secondaryImageUrl := secondaryImageUrl s;
     secondaryFile := secondaryFile s;
     multiImageUrls := multiImageUrls s;
     generatedContent := generatedContent s;
     isLoading := isLoading s;
     loadingMessage := v;
     error := error s;
     maskDataUrl := maskDataUrl s;
     previewImageUrl := previewImageUrl s;
     customPrompt := customPrompt s;
     aspectRatio := aspectRatio s;
     imageAspectRatio := imageAspectRatio s;
     activeTool := activeTool s;
     history := history s;
     isHistoryPanelOpen := isHistoryPanelOpen s;
     activeCategory := activeCategory s;
     imageOptions := imageOptions s;
     selectedOption := selectedOption s;
     generatedLookbookImages := generatedLookbookImages s;
     bankName := bankName s;
     accountName := accountName s;
     accountNumber := accountNumber s;
     branch := branch s;
     lookbookMode := lookbookMode s;
     askAiPrompt := askAiPrompt s;
     lookbookDescription := lookbookDescription s;
     numImages := numImages s;
     lookbookAspectRatio := lookbookAspectRatio s;
     outputQuality := outputQuality s |}.

Definition setError (v : option JSString) (s : AppState) : AppState :=
  {| transformations := transformations s;
     selectedTransformation := selectedTransformation s;
     primaryImageUrl := primaryImageUrl s;
     primaryFile := primaryFile s;
     secondaryImageUrl := secondaryImageUrl s;
     secondaryFile := secondaryFile s;
     multiImageUrls := multiImageUrls s;
     generatedContent := generatedContent s;
     isLoading := isLoading s;
     loadingMessage := loadingMessage s;
     error := v;
     maskDataUrl := maskDataUrl s;
     previewImageUrl := previewImageUrl s;
     customPrompt := customPrompt s;
     aspectRatio := aspectRatio s;
     imageAspectRatio := imageAspectRatio s;
     activeTool := activeTool s;
     history := history s;
     isHistoryPanelOpen := isHistoryPanelOpen s;
     activeCategory := activeCategory s;
     imageOptions := imageOptions s;
     selectedOption := selectedOption s;
     generatedLookbookImages := generatedLookbookImages s;
     bankName := bankName s;
     accountName := accountName s;
     accountNumber := accountNumber s;
     branch := branch s;
     lookbookMode := lookbookMode s;
     askAiPrompt := askAiPrompt s;
     lookbookDescription := lookbookDescription s;
     numImages := numImages s;
     lookbookAspectRatio := lookbookAspectRatio s;
     outputQuality := outputQuality s |}.

Definition setHistory (v : list GeneratedContent) (s : AppState) : AppState :=
  {| transformations := transformations s;
     selectedTransformation := selectedTransformation s;
     primaryImageUrl := primaryImageUrl s;
     primaryFile := primaryFile s;
     secondaryImageUrl := secondaryImageUrl s;
     secondaryFile := secondaryFile s;
     multiImageUrls := multiImageUrls s;
     generatedContent := generatedContent s;
     isLoading := isLoading s;
     loadingMessage := loadingMessage s;
     error := error s;
     maskDataUrl := maskDataUrl s;
     previewImageUrl := previewImageUrl s;
     customPrompt := customPrompt s;
     aspectRatio := aspectRatio s;
     imageAspectRatio := imageAspectRatio s;
     activeTool := activeTool s;
     history := v;
     isHistoryPanelOpen := isHistoryPanelOpen s;
     activeCategory := activeCategory s;
     imageOptions := imageOptions s;
     selectedOption := selectedOption s;
     generatedLookbookImages := generatedLookbookImages s;
     bankName := bankName s;
     accountName := accountName s;
     accountNumber := accountNumber s;
     branch := branch s;
     lookbookMode := lookbookMode s;
     askAiPrompt := askAiPrompt s;
     lookbookDescription := lookbookDescription s;
     numImages := numImages s;
     lookbookAspectRatio := lookbookAspectRatio s;
     outputQuality := outputQuality s |}.

Definition setImageOptions (v : option (list JSString)) (s : AppState) : AppState :=
  {| transformations := transformations s;
     selectedTransformation := selectedTransformation s;
     primaryImageUrl := primaryImageUrl s;
     primaryFile := primaryFile s;
     secondaryImageUrl := secondaryImageUrl s;
     secondaryFile := secondaryFile s;
     multiImageUrls := multiImageUrls s;
     generatedContent := generatedContent s;
     isLoading := isLoading s;
     loadingMessage := loadingMessage s;
     error := error s;
     maskDataUrl := maskDataUrl s;
     previewImageUrl := previewImageUrl s;
     customPrompt := customPrompt s;
     aspectRatio := aspectRatio s;
     imageAspectRatio := imageAspectRatio s;
     activeTool := activeTool s;
     history := history s;
     isHistoryPanelOpen := isHistoryPanelOpen s;
     activeCategory := activeCategory s;
     imageOptions := v;
     selectedOption := selectedOption s;
     generatedLookbookImages := generatedLookbookImages s;
     bankName := bankName s;
     accountName := accountName s;
     accountNumber := accountNumber s;
     branch := branch s;
     lookbookMode := lookbookMode s;
     askAiPrompt := askAiPrompt s;
     lookbookDescription := lookbookDescription s;
     numImages := numImages s;
     lookbookAspectRatio := lookbookAspectRatio s;
     outputQuality := outputQuality s |}.

Definition setSelectedOption (v : option JSString) (s : AppState) : AppState :=
  {| transformations := transformations s;
     selectedTransformation := selectedTransformation s;
     primaryImageUrl := primaryImageUrl s;
     primaryFile := primaryFile s;
     secondaryImageUrl := secondaryImageUrl s;
     secondaryFile := secondaryFile s;
     multiImageUrls := multiImageUrls s;
     generatedContent := generatedContent s;
     isLoading := isLoading s;
     loadingMessage := loadingMessage s;
     error := error s;
     maskDataUrl := maskDataUrl s;
     previewImageUrl := previewImageUrl s;
     customPrompt := customPrompt s;
     aspectRatio := aspectRatio s;
     imageAspectRatio := imageAspectRatio s;
     activeTool := activeTool s;
     history := history s;
     isHistoryPanelOpen := isHistoryPanelOpen s;
     activeCategory := activeCategory s;
     imageOptions := imageOptions s;
     selectedOption := v;
     generatedLookbookImages := generatedLookbookImages s;
     bankName := bankName s;
     accountName := accountName s;
     accountNumber := accountNumber s;
     branch := branch s;
     lookbookMode := lookbookMode s;
     askAiPrompt := askAiPrompt s;
     lookbookDescription := lookbookDescription s;
     numImages := numImages s;
     lookbookAspectRatio := lookbookAspectRatio s;
     outputQuality := outputQuality s |}.

Definition setGeneratedLookbookImages (v : list JSString) (s : AppState) : AppState :=
  {| transformations := transformations s;
     selectedTransformation := selectedTransformation s;
     primaryImageUrl := primaryImageUrl s;
     primaryFile := primaryFile s;
     secondaryImageUrl := secondaryImageUrl s;
     secondaryFile := secondaryFile s;
     multiImageUrls := multiImageUrls s;
     generatedContent := generatedContent s;
     isLoading := isLoading s;
     loadingMessage := loadingMessage s;
     error := error s;
     maskDataUrl := maskDataUrl s;
     previewImageUrl := previewImageUrl s;
     customPrompt := customPrompt s;
     aspectRatio := aspectRatio s;
     imageAspectRatio := imageAspectRatio s;
     activeTool := activeTool s;
     history := history s;
     isHistoryPanelOpen := isHistoryPanelOpen s;
     activeCategory := activeCategory s;
     imageOptions := imageOptions s;
     selectedOption := selectedOption s;
     generatedLookbookImages := v;
     bankName := bankName s;
     accountName := accountName s;
     accountNumber := accountNumber s;
     branch := branch s;
     lookbookMode := lookbookMode s;
     askAiPrompt := askAiPrompt s;
     lookbookDescription := lookbookDescription s;
     numImages := numImages s;
     lookbookAspectRatio := lookbookAspectRatio s;
     outputQuality := outputQuality s |}.

(** [handleResetApp]: every input and result slot goes back to its initial
    value; the history, the loading message, the catalog order, the two
    aspect ratios of the plain flows, the preview and the history panel are
    not touched. *)
Definition handleResetApp (s : AppState) : AppState :=
  {| transformations := transformations s;
     selectedTransformation := None;
     primaryImageUrl := None;
     primaryFile := None;
     secondaryImageUrl := None;
     secondaryFile := None;
     multiImageUrls := [];
     generatedContent := None;
     isLoading := false;
     loadingMessage := loadingMessage s;
     error := None;
     maskDataUrl := None;
     previewImageUrl := previewImageUrl s;
     customPrompt := [];
     aspectRatio := aspectRatio s;
     imageAspectRatio := imageAspectRatio s;
     activeTool := ToolNone;
     history := history s;
     isHistoryPanelOpen := isHistoryPanelOpen s;
     activeCategory := None;
     imageOptions := None;
     selectedOption := None;
     generatedLookbookImages := [];
     bankName := [];
     accountName := [];
     accountNumber := [];
     branch := [];
     lookbookMode := ModeLookbook;
     askAiPrompt := [];
     lookbookDescription := [];
     numImages := 4;
     lookbookAspectRatio := L3_4;
     outputQuality := Ultra |}.

(** [handleBackToSelection]. *)
Definition handleBackToSelection (s : AppState) : AppState :=
  setGeneratedLookbookImages []
    (setSelectedOption None
       (setImageOptions None (setSelectedTransformation None s))).

(** *** The handler monad

    An event handler runs against the current state and the log of gateway
    calls, and either returns or throws. *)
Inductive Outcome (A : Type) :=
| Returned (a : A)
| Threw (e : Thrown).
Arguments Returned {A} a.
Arguments Threw {A} e.

Definition World : Type := AppState * list GatewayCall.

Record Handler (A : Type) := MkHandler {
  run : World -> Outcome A * World
}.
Arguments MkHandler {A} run.
Arguments run {A} h w.

#[global] Instance handler_ret : MRet Handler :=
  fun A a => MkHandler (fun w => (Returned a, w)).

#[global] Instance handler_bind : MBind Handler :=
  fun A B k m =>
    MkHandler (fun w =>
      match run m w with
      | (Returned a, w') => run (k a) w'
      | (Threw e, w') => (Threw e, w')
      end).

Definition throw {A} (e : Thrown) : Handler A :=
  MkHandler (fun w => (Threw e, w)).

(** A call of a state setter. *)
Definition update (f : AppState -> AppState) : Handler unit :=
  MkHandler (fun w => (Returned tt, (f (fst w), snd w))).

(** [await p]. *)
Definition await {A} (p : Settled A) : Handler A :=
  match p with
  | Resolved a => mret a
  | Rejected e => throw e
  end.

(** [await] of a gateway operation: the call goes to the log. *)
Definition request {A}
    (call : list GatewayCall -> Settled A * list GatewayCall) : Handler A :=
  MkHandler (fun w =>
    let '(p, log') := call (snd w) in
    run (await p) (fst w, log')).

(** [try { body } catch (err) { handler err }]. *)
Definition try_catch {A} (body : Handler A) (handler : Thrown -> Handler A)
  : Handler A :=
  MkHandler (fun w =>
    match run body w with
    | (Returned a, w') => (Returned a, w')
    | (Threw e, w') => run (handler e) w'
    end).

(** [try { body } finally { fin }]. *)
Definition finally {A} (body : Handler A) (fin : Handler unit) : Handler A :=
  MkHandler (fun w =>
    let '(o, w') := run body w in
    match run fin w' with
    | (Returned _, w'') => (o, w'')
    | (Threw e, w'') => (Threw e, w'')
    end).

(** *** Interleaving

    While a task is suspended the user may act. A schedule tells, tick by
    tick, whether the pending task takes its next resumption or the user
    presses a button. *)
Inductive UserAction := ResetApp | BackToSelection.

Inductive Tick :=
| Resume
| User (a : UserAction).

Definition act (a : UserAction) (s : AppState) : AppState :=
  match a with
  | ResetApp => handleResetApp s
  | BackToSelection => handleBackToSelection s
  end.

Fixpoint play (task : list (AppState -> AppState)) (schedule : list Tick)
    (cur : AppState) : AppState :=
  match schedule with
  | [] => cur
  | User a :: schedule' => play task schedule' (act a cur)
  | Resume :: schedule' =>
      match task with
      | step :: task' => play task' schedule' (step cur)
      | [] => play [] schedule' cur
      end
  end.

(** How many resumptions a schedule grants. *)
Fixpoint resumes (schedule : list Tick) : nat :=
  match schedule with
  | [] => 0
  | Resume :: schedule' => S (resumes schedule')
  | User _ :: schedule' => resumes schedule'
  end.

Section Component.
Context `{Runtime} `{Collaborators}.

(** [formatBankText]: upper case, canonical decomposition, removal of the
    combining marks U+0300..U+036F, and D for every D WITH STROKE. *)
Definition formatBankText (text : JSString) : JSString :=
  map (fun c => if N.eqb c 272 then 68%N else c)
      (filter (fun c => ¬ (768 ≤ c ≤ 879)%N)
              (normalizeNFD (toUpperCase text))).

(** A text without combining marks U+0300..U+036F and without D WITH
    STROKE. *)
Definition normalized (v : JSString) : Prop :=
  Forall (fun c => ¬ (768 ≤ c ≤ 879)%N /\ c <> 272%N) v.

(** [url.split(',')[1]]. *)
Definition base64_of (url : JSString) : option JSString :=
  nth_error (split 44%N url) 1.

(** [url.split(';')[0].split(':')[1] ?? 'image/png']. *)
Definition mimeType_of (url : JSString) : JSString :=
  match nth_error (split 59%N url) 0 ≫= (fun p => nth_error (split 58%N p) 1) with
  | Some m => m
  | None => str "image/png"
  end.

Definition imagePart_of (url : JSString) : ImagePart :=
  {| base64 := base64_of url; mimeType := mimeType_of url |}.

(** The [Map] built from the catalog: a later entry replaces an earlier one
    with the same key. *)
Definition transformationMap : gmap JSString Transformation :=
  foldl (fun m x => <[key x := x]> m) ∅ TRANSFORMATIONS.

(** The strings among the saved keys; no other value equals a key. *)
Definition string_keys (orderedKeys : list Json.value) : list JSString :=
  omap (fun k => match k with Json.JStr s => Some s | _ => None end)
       orderedKeys.

(** The order computed from a saved array of keys. *)
Definition resolve_order (orderedKeys : list Json.value)
  : list Transformation :=
  let orderedTransformations :=
    omap (fun k => match k with
                   | Json.JStr s => transformationMap !! s
                   | _ => None
                   end) orderedKeys in
  let savedKeysSet : gset JSString := list_to_set (string_keys orderedKeys) in
  let newTransformations :=
    filter (fun x => key x ∉ savedKeysSet) TRANSFORMATIONS in
  orderedTransformations ++ newTransformations.

(** The initializer of the [transformations] state, given what
    [localStorage.getItem('transformationOrder')] returns. Text that does
    not parse, and a parsed value without a [map] method, throw into the
    [catch]. *)
Definition initial_transformations (savedOrder : option JSString)
  : list Transformation :=
  match savedOrder with
  | Some saved =>
      if truthy saved then
        match Json.parse saved with
        | Some (Json.JArr orderedKeys) => resolve_order orderedKeys
        | _ => TRANSFORMATIONS
        end
      else TRANSFORMATIONS
  | None => TRANSFORMATIONS
  end.

(** The signature text of both watermarks. *)
Definition watermark_text : JSString :=
  str "X STUDIO - Ti" ++ [7879%N] ++ str "m " ++ [7843%N] ++ str "nh t"
  ++ [432%N; 417%N] ++ str "ng lai".

(** [applyWatermarks]. *)
Definition applyWatermarks (imageUrl : option JSString) : option JSString :=
  match imageUrl with
  | None => None
  | Some url =>
      if negb (truthy url) then None
      else
        match embedWatermark url watermark_text with
        | Rejected _ => Some url
        | Resolved invisiblyWatermarked =>
            match addVisibleWatermark invisiblyWatermarked watermark_text with
            | Rejected _ => Some url
            | Resolved visiblyWatermarked => Some visiblyWatermarked
            end
        end
  end.

(** The text shown for a caught value:
    [err instanceof Error ? err.message : t('app.error.unknown')]. *)
Definition error_text (err : Thrown) : JSString :=
  match err with
  | ErrorObj message => message
  | NonError => t (str "app.error.unknown")
  end.

(** [await editImage(...)]. *)
Definition await_editImage (gw : Gateway) (prompt : JSString)
    (imageParts : list ImagePart) (maskBase64 : option JSString)
  : Handler GeneratedContent :=
  request (fun log =>
    let '((_, p), log') := editImage gw prompt imageParts maskBase64 log in
    (p, log')).

(** [{ ...result, originalImageUrl }] after [result.imageUrl] was replaced
    by its watermarked version. *)
Definition finalize (result : GeneratedContent) (original : option JSString)
  : GeneratedContent :=
  {| imageUrl := applyWatermarks (imageUrl result);
     text := text result;
     videoUrl := videoUrl result;
     originalImageUrl := original;
     Gemini.secondaryImageUrl := Gemini.secondaryImageUrl result |}.

(** [setGeneratedContent(r); setHistory(prev => [r, ...prev])]. *)
Definition publish (r : GeneratedContent) : Handler unit :=
  update (setGeneratedContent (Some r)) ;;
  update (fun s => setHistory (r :: history s) s).

(** A validation failure: [setError(t(k)); setIsLoading(false); return]. *)
Definition refuse (k : JSString) : Handler unit :=
  update (setError (Some (t k))) ;;
  update (setIsLoading false).

(** [urls.filter(url => !!url)] after watermarking each. *)
Definition watermark_all (urls : list JSString) : list JSString :=
  omap (fun url => match applyWatermarks (Some url) with
                   | Some u => if truthy u then Some u else None
                   | None => None
                   end) urls.

(** The lookbook prompt with its quality suffix. *)
Definition lookbook_prompt (s : AppState) : JSString :=
  let finalPrompt :=
    str "Create a fashion lookbook image based on the following description: "
    ++ dquote ++ lookbookDescription s ++ dquote
    ++ str ". The main character should resemble the person in the provided image." in
  let finalPrompt :=
    match outputQuality s with
    | High => finalPrompt ++ str " Generate a high-resolution, 4K image."
    | _ => finalPrompt
    end in
  match outputQuality s with
  | Ultra =>
      finalPrompt ++ str " Generate an ultra-realistic, 8K, highly detailed image."
  | _ => finalPrompt
  end.

(** The branch of the key [outfitStylist]. *)
Definition outfitStylist_branch (gw : Gateway) (s : AppState)
  : Handler unit :=
  match primaryImageUrl s with
  | Some primary =>
      if negb (truthy primary) then refuse (str "app.error.uploadAndSelect")
      else if negb (truthy (trim (lookbookDescription s)))
      then refuse (str "app.error.enterPrompt")
      else
        let imagePart := imagePart_of primary in
        let finalPrompt := lookbook_prompt s in
        update (setLoadingMessage (t (str "app.loading.default"))) ;;
        results ← request (generateLookbook gw finalPrompt imagePart
                                            (numImages s)) ;
        update (setGeneratedLookbookImages (watermark_all results))
  | None => refuse (str "app.error.uploadAndSelect")
  end.

(** The prompt of the key [chibiQrCode]: the four placeholders replaced in
    turn. *)
Definition chibiQrCode_prompt (template : JSString) (s : AppState)
  : JSString :=
  let formattedBankName := formatBankText (bankName s) in
  let formattedAccountName := formatBankText (accountName s) in
  let formattedBranch := formatBankText (branch s) in
  let prompt := template in
  let prompt := replace prompt (str "{{bankName}}") formattedBankName in
  let prompt := replace prompt (str "{{accountName}}") formattedAccountName in
  let prompt := replace prompt (str "{{accountNumber}}") (accountNumber s) in
  replace prompt (str "{{branch}}") formattedBranch.

(** The fields of [chibiQrCode] are all there: both images and the four
    texts, none blank. *)
Definition chibiQrCode_ready (s : AppState) : bool :=
  truthy_opt (primaryImageUrl s) && truthy_opt (secondaryImageUrl s)
  && truthy (trim (bankName s)) && truthy (trim (accountName s))
  && truthy (trim (accountNumber s)) && truthy (trim (branch s)).

(** The branch of the key [chibiQrCode]. *)
Definition chibiQrCode_branch (gw : Gateway) (s : AppState)
    (tr : Transformation) : Handler unit :=
  match primaryImageUrl s, secondaryImageUrl s with
  | Some primary, Some secondary =>
      if negb (chibiQrCode_ready s) then refuse (str "app.error.fillAllFields")
      else
        let prompt := chibiQrCode_prompt (prompt tr) s in
        let imageParts := [imagePart_of primary; imagePart_of secondary] in
        update (setLoadingMessage (t (str "app.loading.default"))) ;;
        result ← await_editImage gw prompt imageParts None ;
        publish (finalize result (primaryImageUrl s))
  | _, _ => refuse (str "app.error.fillAllFields")
  end.

(** The branch of [isMultiStepVideo]. *)
Definition multiStepVideo_branch (gw : Gateway) (s : AppState)
    (promptToUse : JSString) : Handler unit :=
  if length (multiImageUrls s) =? 0 then refuse (str "app.error.uploadOne")
  else
    update (setLoadingMessage (t (str "app.loading.generatingOptions"))) ;;
    let imageParts := map imagePart_of (multiImageUrls s) in
    results ← request (generateImageEditsBatch gw promptToUse imageParts) ;
    update (setImageOptions (Some (watermark_all results))) ;;
    update (setSelectedOption None).

(** Text to image: the key [customPrompt] without a primary image. *)
Definition textToImage_branch (gw : Gateway) (s : AppState)
    (promptToUse : JSString) : Handler unit :=
  result ← request (generateImageFromText gw promptToUse
                                           (imageAspectRatio s)) ;
  publish (finalize result (originalImageUrl result)).

(** The branch of [maxImages]. *)
Definition maxImages_branch (gw : Gateway) (s : AppState)
    (promptToUse : JSString) : Handler unit :=
  if length (multiImageUrls s) =? 0 then refuse (str "app.error.uploadOne")
  else
    let imageParts := map imagePart_of (multiImageUrls s) in
    result ← await_editImage gw promptToUse imageParts None ;
    publish (finalize result (head (multiImageUrls s))).

(** The branch of [isTwoStep]. *)
Definition twoStep_branch (gw : Gateway) (s : AppState)
    (tr : Transformation) (promptToUse : JSString) : Handler unit :=
  match primaryImageUrl s, secondaryImageUrl s with
  | Some primary, Some secondary =>
      if negb (truthy primary) || negb (truthy secondary)
      then refuse (str "app.error.uploadBoth")
      else
        update (setLoadingMessage (t (str "app.loading.step1"))) ;;
        let primaryPart := [imagePart_of primary] in
        stepOneResult ← await_editImage gw promptToUse primaryPart None ;
        if negb (truthy_opt (imageUrl stepOneResult)) then
          throw (ErrorObj (str "Step 1 (line art) failed to generate an image."))
        else
          let stepOneImageUrl :=
            default [] (applyWatermarks (imageUrl stepOneResult)) in
          update (setLoadingMessage (t (str "app.loading.step2"))) ;;
          primaryImage ← await (loadImage primary) ;
          resizedSecondaryImageUrl ←
            await (resizeImageToMatch secondary primaryImage) ;
          let stepTwoParts :=
            [imagePart_of stepOneImageUrl;
             imagePart_of resizedSecondaryImageUrl] in
          stepTwoResult ←
            await_editImage gw (stepTwoPrompt tr) stepTwoParts None ;
          publish
            {| imageUrl := applyWatermarks (imageUrl stepTwoResult);
               text := text stepTwoResult;
               videoUrl := videoUrl stepTwoResult;
               originalImageUrl := primaryImageUrl s;
               Gemini.secondaryImageUrl := Some stepOneImageUrl |}
  | _, _ => refuse (str "app.error.uploadBoth")
  end.

(** The default branch: one or two images and the mask, if one was
    drawn. *)
Definition default_branch (gw : Gateway) (s : AppState)
    (tr : Transformation) (promptToUse : JSString)
    (maskBase64 : option JSString) : Handler unit :=
  match primaryImageUrl s with
  | Some primary =>
      if negb (truthy primary) then refuse (str "app.error.uploadAndSelect")
      else if isMultiImage tr && negb (isSecondaryOptional tr)
              && negb (truthy_opt (secondaryImageUrl s))
      then refuse (str "app.error.uploadBoth")
      else
        let imageParts := [imagePart_of primary] in
        let imageParts :=
          match secondaryImageUrl s with
          | Some secondary =>
              if isMultiImage tr && truthy secondary
              then push imageParts (imagePart_of secondary)
              else imageParts
          | None => imageParts
          end in
        update (setLoadingMessage (t (str "app.loading.default"))) ;;
        result ← await_editImage gw promptToUse imageParts maskBase64 ;
        publish (finalize result (primaryImageUrl s))
  | None => refuse (str "app.error.uploadAndSelect")
  end.

(** The [try] block of [handleGenerateImage]: the first branch whose test
    holds. *)
Definition generate_body (gw : Gateway) (s : AppState) (tr : Transformation)
    (promptToUse : JSString) : Handler unit :=
  if JS.eqb (key tr) (str "outfitStylist") then outfitStylist_branch gw s
  else if JS.eqb (key tr) (str "chibiQrCode") then chibiQrCode_branch gw s tr
  else if isMultiStepVideo tr then multiStepVideo_branch gw s promptToUse
  else if JS.eqb (key tr) (str "customPrompt")
          && negb (truthy_opt (primaryImageUrl s))
  then textToImage_branch gw s promptToUse
  else
    let maskBase64 :=
      match maskDataUrl s with
      | Some m => if truthy m then base64_of m else None
      | None => None
      end in
    if truthy_number (maxImages tr)
    then maxImages_branch gw s promptToUse
    else if isTwoStep tr then twoStep_branch gw s tr promptToUse
    else default_branch gw s tr promptToUse maskBase64.

(** [handleGenerateImage], run on the state [s] that its closure holds. *)
Definition handleGenerateImage (gw : Gateway) (s : AppState) : Handler unit :=
  match selectedTransformation s with
  | None => update (setError (Some (t (str "app.error.uploadAndSelect"))))
  | Some tr =>
      let promptToUse :=
        if JS.eqb (prompt tr) (str "CUSTOM") then customPrompt s
        else prompt tr in
      update (setIsLoading true) ;;
      update (setError None) ;;
      update (setGeneratedContent None) ;;
      update (setGeneratedLookbookImages []) ;;
      update (setLoadingMessage []) ;;
      finally
        (try_catch (generate_body gw s tr promptToUse)
                   (fun err => update (setError (Some (error_text err)))))
        (update (setIsLoading false) ;; update (setLoadingMessage []))
  end.

(** *** handleGenerateVideo

    The handler suspends at [await generateVideo(...)], at [await fetch] and
    at [await response.blob()]; other handlers may run in between. It is
    given as the list of its resumptions: each is what the task does to the
    state that is current when it resumes. The values it reads
    ([customPrompt], [primaryImageUrl], [aspectRatio]) are those of the
    state [s] held by its closure. *)

(** The answer to [fetch(videoDownloadUrl)]: [blob] is how
    [response.blob()] settles, given by the object URL that
    [URL.createObjectURL] makes of the body. *)
Record FetchResponse := {
  ok : bool;
  statusText : JSString;
  blob : Settled JSString
}.

(** [catch (err) { setError(...) } finally { ... }]. *)
Definition video_failure (err : Thrown) (cur : AppState) : AppState :=
  setLoadingMessage [] (setIsLoading false
    (setError (Some (error_text err)) cur)).

(** The result of a finished video, and its publication followed by the
    [finally] block. *)
Definition video_result (s : AppState) (objectUrl : JSString)
  : GeneratedContent :=
  {| imageUrl := None; text := None; videoUrl := Some objectUrl;
     originalImageUrl := primaryImageUrl s;
     Gemini.secondaryImageUrl := None |}.

Definition video_success (result : GeneratedContent) (cur : AppState)
  : AppState :=
  setLoadingMessage [] (setIsLoading false
    (setHistory (result :: history cur)
       (setGeneratedContent (Some result) cur))).

(** What a step of [generateVideo] does to the state: the progress
    callback is [setLoadingMessage]. *)
Definition on_video_event (e : VideoEvent) (cur : AppState) : AppState :=
  match e with
  | Progress message => setLoadingMessage message cur
  | _ => cur
  end.

(** The resumptions that follow the settling of [generateVideo]. *)
Definition after_generateVideo (fetch : JSString -> Settled FetchResponse)
    (s : AppState) (settled : Settled JSString)
  : list (AppState -> AppState) :=
  match settled with
  | Rejected err => [video_failure err]
  | Resolved videoDownloadUrl =>
      setLoadingMessage (t (str "app.loading.videoFetching"))
      :: match fetch videoDownloadUrl with
         | Rejected err => [video_failure err]
         | Resolved response =>
             if negb (ok response) then
               [video_failure
                  (ErrorObj (str "Failed to download video file. Status: "
                             ++ statusText response))]
             else
               (fun cur => cur)
               :: match blob response with
                  | Rejected err => [video_failure err]
                  | Resolved objectUrl =>
                      [video_success (video_result s objectUrl)]
                  end
         end
  end.

Definition handleGenerateVideo (job : VideoJob)
    (fetch : JSString -> Settled FetchResponse) (s : AppState)
  : list (AppState -> AppState) :=
  match selectedTransformation s with
  | None => [fun cur => cur]
  | Some _ =>
      let promptToUse := customPrompt s in
      if negb (truthy (trim promptToUse)) then
        [setError (Some (t (str "app.error.enterPrompt")))]
      else
        let imagePayload :=
          match primaryImageUrl s with
          | Some url => if truthy url then Some (imagePart_of url) else None
          | None => None
          end in
        let '(trace, settled) :=
          generateVideo job promptToUse imagePayload (aspectRatio s) in
        (fun cur => setGeneratedContent None
                      (setError None (setIsLoading true cur)))
        :: map on_video_event trace
        ++ match settled with
           | Some r => after_generateVideo fetch s r
           | None => []
           end
  end.

End Component.

End App.

(* ===================================================================== *)
(** ** Sample hosts, catalogs and service answers

    Concrete instances on which the properties below are exercised. *)
(* ===================================================================== *)

Module Sample.
Import JS Gemini App.

(** Upper case on ASCII letters. *)
Definition ascii_upper (s : JSString) : JSString :=
  map (fun c => if N.leb 97 c && N.leb c 122 then (c - 32)%N else c) s.

(** A host for ASCII text and integer literals: on ASCII text [toUpperCase]
    touches the letters a-z only and canonical decomposition changes
    nothing; an integer below 10^21 is rendered by its decimal digits. *)
#[export] Instance runtime : Runtime := {|
  toUpperCase := ascii_upper;
  normalizeNFD := fun s => s;
  Number_toString := fun m e => str (pretty (m * 10 ^ e)%Z);
  API_KEY := str "SECRET"
|}.

Definition entry (k : string) : Transformation :=
  {| key := str k; prompt := str "Restyle the image."; isMultiImage := false;
     isSecondaryOptional := false; maxImages := None; isTwoStep := false;
     stepTwoPrompt := []; isMultiStepVideo := false; isVideo := false;
     videoPrompt := None |}.

(** A catalog of three entries, an identity translation, and image
    utilities that succeed: each watermark appends a tag to the URL. *)
#[export] Instance studio : Collaborators := {|
  TRANSFORMATIONS := [entry "A"; entry "B"; entry "C"];
  t := fun k => k;
  embedWatermark := fun url _ => Resolved (url ++ str "#invisible");
  addVisibleWatermark := fun url _ => Resolved (url ++ str "#visible");
  loadImage := fun _ => Resolved {| width := 4; height := 3 |};
  resizeImageToMatch := fun url _ => Resolved url
|}.

(** The same studio with an invisible-mark stage that throws. *)
Definition broken_studio : Collaborators := {|
  TRANSFORMATIONS := [entry "A"; entry "B"; entry "C"];
  t := fun k => k;
  embedWatermark := fun _ _ => Rejected (ErrorObj (str "canvas is tainted"));
  addVisibleWatermark := fun url _ => Resolved (url ++ str "#visible");
  loadImage := fun _ => Resolved {| width := 4; height := 3 |};
  resizeImageToMatch := fun url _ => Resolved url
|}.

Definition png (payload : string) : JSString :=
  str "data:image/png;base64," ++ str payload.

(** A response with one inline image, and one with text only. *)
Definition image_response (payload : string) : ContentResponse :=
  {| candidates :=
       Some [{| content_parts :=
                  Some [{| part_text := None;
                           part_inlineData :=
                             Some {| blob_mimeType := Some (str "image/png");
                                     blob_data := Some (str payload) |} |}];
                finishReason := Some (str "STOP");
                safetyRatings := None |}] |}.

Definition text_response (words : string) : ContentResponse :=
  {| candidates :=
       Some [{| content_parts :=
                  Some [{| part_text := Some (str words);
                           part_inlineData := None |}];
                finishReason := Some (str "STOP");
                safetyRatings := None |}] |}.

(** A service that answers every call with an image. *)
Definition generous : Gateway :=
  {| generateContent := fun _ => (0, Resolved (image_response "AAAA"));
     generateImages := fun _ => Resolved {| generatedImages := Some [Some (str "BBBB")] |} |}.

(** A service whose first answer has no image; the later ones have. *)
Definition first_refused : Gateway :=
  {| generateContent := fun n =>
       match n with
       | O => (0, Resolved (text_response "I cannot do that."))
       | S _ => (0, Resolved (image_response "AAAA"))
       end;
     generateImages := fun _ => Resolved {| generatedImages := Some [Some (str "BBBB")] |} |}.

(** The state of a fresh session. *)
Definition fresh : AppState :=
  {| transformations := TRANSFORMATIONS;
     selectedTransformation := None;
     primaryImageUrl := None; primaryFile := None;
     secondaryImageUrl := None; secondaryFile := None;
     multiImageUrls := [];
     generatedContent := None;
     isLoading := false; loadingMessage := []; App.error := None;
     maskDataUrl := None; previewImageUrl := None;
     customPrompt := [];
     aspectRatio := V16_9; imageAspectRatio := I1_1;
     activeTool := ToolNone;
     history := []; isHistoryPanelOpen := false;
     activeCategory := None;
     imageOptions := None; selectedOption := None;
     generatedLookbookImages := [];
     bankName := []; accountName := []; accountNumber := []; branch := [];
     lookbookMode := ModeLookbook; askAiPrompt := [];
     lookbookDescription := []; numImages := 4;
     lookbookAspectRatio := L3_4; outputQuality := Ultra |}.

(** A quoted JSON name or string. *)
Definition q (s : string) : JSString := dquote ++ str s ++ dquote.

(** An error message that carries the JSON body of the provider after a
    status line. *)
Definition provider_error (code status message : string) : JSString :=
  str "got status: " ++ str code ++ str " . {" ++ q "error" ++ str ":{"
  ++ q "code" ++ str ":" ++ str code ++ str "," ++ q "message" ++ str ":"
  ++ q message ++ str "," ++ q "status" ++ str ":" ++ q status ++ str "}}".

Definition quota_message : JSString :=
  provider_error "429" "RESOURCE_EXHAUSTED" "Quota exceeded for this model.".
Definition internal_message : JSString :=
  provider_error "500" "INTERNAL" "Internal error encountered.".
Definition overloaded_message : JSString :=
  provider_error "503" "UNAVAILABLE" "The model is overloaded. Please try again later.".
Definition invalid_message : JSString :=
  provider_error "400" "INVALID_ARGUMENT" "Unsupported MIME type.".

(** A session with the given selection and inputs, everything else as in
    a fresh one. *)
Definition session (selected : Transformation)
    (primary secondary mask : option JSString) (custom : JSString)
    (bank holder number office : JSString) : AppState :=
  {| transformations := TRANSFORMATIONS;
     selectedTransformation := Some selected;
     primaryImageUrl := primary; primaryFile := None;
     secondaryImageUrl := secondary; secondaryFile := None;
     multiImageUrls := [];
     generatedContent := None;
     isLoading := false; loadingMessage := []; App.error := None;
     maskDataUrl := mask; previewImageUrl := None;
     customPrompt := custom;
     aspectRatio := V16_9; imageAspectRatio := I1_1;
     activeTool := ToolNone;
     history := []; isHistoryPanelOpen := false;
     activeCategory := None;
     imageOptions := None; selectedOption := None;
     generatedLookbookImages := [];
     bankName := bank; accountName := holder; accountNumber := number;
     branch := office;
     lookbookMode := ModeLookbook; askAiPrompt := [];
     lookbookDescription := []; numImages := 4;
     lookbookAspectRatio := L3_4; outputQuality := Ultra |}.

(** The payment-QR transformation with a template of four placeholders. *)
Definition chibiQrCode : Transformation :=
  {| key := str "chibiQrCode";
     prompt := str "Draw the QR code of {{bankName}}, account {{accountNumber}} of {{accountName}}, branch {{branch}}.";
     isMultiImage := true; isSecondaryOptional := false; maxImages := None;
     isTwoStep := false; stepTwoPrompt := []; isMultiStepVideo := false;
     isVideo := false; videoPrompt := None |}.

Definition chibi_session : AppState :=
  session chibiQrCode (Some (png "QUJD")) (Some (png "REVG")) None []
          (str "vietcombank") (str "nguyen van a") (str "0123abc")
          (str "ha noi").

(** A two-step transformation (line art, then colour). *)
Definition lineArtColor : Transformation :=
  {| key := str "colorPalette";
     prompt := str "Turn the image into line art.";
     isMultiImage := true; isSecondaryOptional := false; maxImages := None;
     isTwoStep := true;
     stepTwoPrompt := str "Colour the line art with the palette of the second image.";
     isMultiStepVideo := false; isVideo := false; videoPrompt := None |}.

Definition two_step_session : AppState :=
  session lineArtColor (Some (png "QUJD")) (Some (png "REVG")) None []
          [] [] [] [].

(** A video transformation and a session that asks for a video. *)
Definition videoGeneration : Transformation :=
  {| key := str "videoGeneration"; prompt := str "CUSTOM";
     isMultiImage := false; isSecondaryOptional := false; maxImages := None;
     isTwoStep := false; stepTwoPrompt := []; isMultiStepVideo := false;
     isVideo := true; videoPrompt := None |}.

Definition video_session : AppState :=
  session videoGeneration (Some (png "QUJD")) None None
          (str "A kite over the sea.") [] [] [] [].

Definition pending : Operation :=
  {| done := false; Gemini.error := None; uri := None |}.
Definition finished : Operation :=
  {| done := true; Gemini.error := None;
     uri := Some (str "https://video.example/download?id=7") |}.
Definition failed : Operation :=
  {| done := true;
     Gemini.error := Some {| error_message := Some (str "The prompt was blocked.") |};
     uri := Some (str "https://video.example/download?id=7") |}.

(** A job that is done at the second poll. *)
Definition slow_job : VideoJob :=
  {| submitted := Resolved pending;
     polled := [Resolved pending; Resolved finished] |}.

(** A job that ends with an error status at the first poll. *)
Definition failing_job : VideoJob :=
  {| submitted := Resolved pending; polled := [Resolved failed] |}.

(** The user resets the session while the job is being polled: the task
    of [slow_job] has taken six of its twelve steps. *)
Definition reset_while_polling : list Tick :=
  repeat Resume 6 ++ [User ResetApp] ++ repeat Resume 5.

(** A download that succeeds. *)
Definition download (url : JSString) : Settled FetchResponse :=
  Resolved {| ok := true; statusText := str "OK";
              blob := Resolved (str "blob:studio/41") |}.

End Sample.


(* ===================================================================== *)
(** ** components/Login.tsx *)
(* ===================================================================== *)

Module Login.
Import JS.

(** Code units of the surrogate ranges. *)
Definition is_high_surrogate (c : CodeUnit) : bool :=
  N.leb 55296 c && N.leb c 56319.
Definition is_low_surrogate (c : CodeUnit) : bool :=
  N.leb 56320 c && N.leb c 57343.

(** The code point of a surrogate pair. *)
Definition pair_code_point (hi lo : CodeUnit) : N :=
  ((hi - 55296) * 1024 + (lo - 56320) + 65536)%N.

(** The UTF-8 octets of a code point. *)
Definition utf8 (cp : N) : list N :=
  if N.ltb cp 128 then [cp]
  else if N.ltb cp 2048 then [(192 + cp / 64)%N; (128 + cp mod 64)%N]
  else if N.ltb cp 65536 then
    [(224 + cp / 4096)%N; (128 + (cp / 64) mod 64)%N; (128 + cp mod 64)%N]
  else
    [(240 + cp / 262144)%N; (128 + (cp / 4096) mod 64)%N;
     (128 + (cp / 64) mod 64)%N; (128 + cp mod 64)%N].

(** An upper-case hexadecimal digit. *)
Definition HEX (d : N) : CodeUnit :=
  if N.ltb d 10 then (48 + d)%N else (55 + d)%N.

(** A lower-case hexadecimal digit. *)
Definition hex_digit (d : N) : CodeUnit :=
  if N.ltb d 10 then (48 + d)%N else (87 + d)%N.

(** An octet as a percent sign and two upper-case digits. *)
Definition percent (octet : N) : JSString :=
  [37%N; HEX (octet / 16); HEX (octet mod 16)].

(** The characters that [encodeURIComponent] leaves alone: letters,
    digits and [- _ . ! ~ * ' ( )]. *)
Definition unreserved (c : CodeUnit) : bool :=
  (N.leb 65 c && N.leb c 90) || (N.leb 97 c && N.leb c 122)
  || (N.leb 48 c && N.leb c 57)
  || N.eqb c 45 || N.eqb c 95 || N.eqb c 46 || N.eqb c 33 || N.eqb c 126
  || N.eqb c 42 || N.eqb c 39 || N.eqb c 40 || N.eqb c 41.

(** [encodeURIComponent(s)]: every other character goes out as the
    percent-encoded octets of its code point; [None] stands for the
    URIError thrown at a surrogate without its partner. *)
Fixpoint encodeURIComponent (s : JSString) : option JSString :=
  match s with
  | [] => Some []
  | c :: s' =>
      if unreserved c then option_map (cons c) (encodeURIComponent s')
      else if is_high_surrogate c then
        match s' with
        | d :: s'' =>
            if is_low_surrogate d then
              option_map
                (app (concat (map percent (utf8 (pair_code_point c d)))))
                (encodeURIComponent s'')
            else None
        | [] => None
        end
      else if is_low_surrogate c then None
      else option_map (app (concat (map percent (utf8 c))))
                      (encodeURIComponent s')
  end.

(** [unescape(s)]: [%uXXXX] and [%XX] become the code unit they name;
    everything else stays. *)
Fixpoint unescape (s : JSString) : JSString :=
  match s with
  | [] => []
  | 37%N :: r =>
      match r with
      | 117%N :: a :: b :: c :: d :: r' =>
          match Json.hex a, Json.hex b, Json.hex c, Json.hex d with
          | Some x, Some y, Some z, Some w =>
              (x * 4096 + y * 256 + z * 16 + w)%N :: unescape r'
          | _, _, _, _ => 37%N :: unescape r
          end
      | a :: b :: r' =>
          match Json.hex a, Json.hex b with
          | Some x, Some y => (x * 16 + y)%N :: unescape r'
          | _, _ => 37%N :: unescape r
          end
      | _ => 37%N :: unescape r
      end
  | c :: r => c :: unescape r
  end.

(** [n.toString(16)] for a code unit [n]: its hexadecimal digits, in lower
    case, without leading zero. *)
Definition toString16 (n : N) : JSString :=
  if N.ltb n 16 then [hex_digit n]
  else if N.ltb n 256 then [hex_digit (n / 16); hex_digit (n mod 16)]
  else if N.ltb n 4096 then
    [hex_digit (n / 256); hex_digit ((n / 16) mod 16); hex_digit (n mod 16)]
  else
    [hex_digit (n / 4096); hex_digit ((n / 256) mod 16);
     hex_digit ((n / 16) mod 16); hex_digit (n mod 16)].

(** [s.padStart(2, '0')]. *)
Definition padStart2 (s : JSString) : JSString :=
  repeat 48%N (2 - length s) ++ s.

(** The loop of [stringToHex]: the padded hexadecimal code of every code
    unit, appended in turn. *)
Definition hex_loop (s : JSString) : JSString :=
  fold_left (fun hex c => hex ++ padStart2 (toString16 c)) s [].

(** [stringToHex]: the UTF-8 octets in hexadecimal; when
    [encodeURIComponent] throws, the code units in hexadecimal. *)
Definition stringToHex (s : JSString) : JSString :=
  match encodeURIComponent s with
  | Some encoded => hex_loop (unescape encoded)
  | None => hex_loop s
  end.

Definition ALLOWED_HEX_PASSWORDS : list JSString :=
  [str "636875e1bb91695f6368c3ad6e";
   str "7469656d5f6368756f695f6e616e6f5f32303234";
   str "61646d696e";
   str "64756e67";
   str "68756e67";
   str "686169";
   str "6869656e";
   str "686f616e677675";
   str "746F616E";
   str "7068616D6475";
   str "74616D";
   str "6D616E68746169";
   str "62696269";
   str "7461796C65";
   str "686f616e6764696570"].

(** [toLowerCase] as it acts on the entries of the list, which are ASCII:
    only the letters A-Z change. *)
Definition toLowerCase (s : JSString) : JSString :=
  map (fun c => if N.leb 65 c && N.leb c 90 then (c + 32)%N else c) s.

(** [ALLOWED_HEX_PASSWORDS.some(allowedHex =>
       allowedHex.toLowerCase() === enteredPasswordHex)]. *)
Definition isAuthenticated (password : JSString) : bool :=
  let enteredPasswordHex := stringToHex password in
  existsb (fun allowedHex => JS.eqb (toLowerCase allowedHex) enteredPasswordHex)
          ALLOWED_HEX_PASSWORDS.

(** The state of the login form, and whether [onLoginSuccess] has been
    called. *)
Record LoginState := {
  password : JSString;
  error : option JSString;
  loggedIn : bool
}.

(** [handleSubmit], with the lookup [t] of the i18n context. *)
Definition handleSubmit (t : JSString -> JSString) (s : LoginState)
  : LoginState :=
  if isAuthenticated (password s) then
    {| password := password s; error := None; loggedIn := true |}
  else
    {| password := []; error := Some (t (str "login.error"));
       loggedIn := loggedIn s |}.

(** *** Reading the hexadecimal back

    The inverse of [stringToHex] on well-formed strings, by which the
    passwords behind the list are read. *)

(** Pairs of hexadecimal digits back to octets. *)
Fixpoint unhex (h : JSString) : list N :=
  match h with
  | a :: b :: h' =>
      match Json.hex a, Json.hex b with
      | Some x, Some y => (x * 16 + y)%N :: unhex h'
      | _, _ => []
      end
  | _ => []
  end.

(** UTF-8 octets back to code points. *)
Fixpoint utf8_decode (fuel : nat) (octets : list N) : list N :=
  match fuel with
  | O => []
  | S fuel' =>
      match octets with
      | [] => []
      | a :: r =>
          if N.ltb a 128 then a :: utf8_decode fuel' r
          else if N.ltb a 224 then
            match r with
            | b :: r' =>
                ((a - 192) * 64 + (b - 128))%N :: utf8_decode fuel' r'
            | _ => []
            end
          else if N.ltb a 240 then
            match r with
            | b :: c :: r' =>
                ((a - 224) * 4096 + (b - 128) * 64 + (c - 128))%N
                :: utf8_decode fuel' r'
            | _ => []
            end
          else
            match r with
            | b :: c :: d :: r' =>
                ((a - 240) * 262144 + (b - 128) * 4096 + (c - 128) * 64
                 + (d - 128))%N :: utf8_decode fuel' r'
            | _ => []
            end
      end
  end.

(** The code units of a code point. *)
Definition utf16 (cp : N) : JSString :=
  if N.ltb cp 65536 then [cp]
  else [(55296 + (cp - 65536) / 1024)%N; (56320 + (cp - 65536) mod 1024)%N].

Definition stringFromHex (h : JSString) : JSString :=
  let octets := unhex h in
  concat (map utf16 (utf8_decode (length octets) octets)).

(** The code points of a well-formed string; [None] when a surrogate
    stands without its partner. *)
Fixpoint code_points (s : JSString) : option (list N) :=
  match s with
  | [] => Some []
  | c :: s' =>
      if is_high_surrogate c then
        match s' with
        | d :: s'' =>
            if is_low_surrogate d then
              option_map (cons (pair_code_point c d)) (code_points s'')
            else None
        | [] => None
        end
      else if is_low_surrogate c then None
      else option_map (cons c) (code_points s')
  end.

(** The hexadecimal code of a surrogate shows in a text as a [d] followed
    by one of [8 9 a b c d e f]. *)
Fixpoint has_surrogate_code (h : JSString) : bool :=
  match h with
  | a :: h' =>
      match h' with
      | b :: _ =>
          (N.eqb a 100
           && (N.eqb b 56 || N.eqb b 57 || (N.leb 97 b && N.leb b 102)))
          || has_surrogate_code h'
      | [] => false
      end
  | [] => false
  end.

(** A string of code units: each below 2^16. *)
Definition code_units (s : JSString) : Prop :=
  Forall (fun c => (c < 65536)%N) s.

(** A code unit of the surrogate ranges. *)
Definition surrogate (c : CodeUnit) : Prop := (55296 <= c <= 57343)%N.

(** The passwords that the list stands for. *)
Definition passwords : list JSString :=
  [str "chu" ++ [7889%N] ++ str "i_ch" ++ [237%N] ++ str "n";
   str "tiem_chuoi_nano_2024";
   str "admin"; str "dung"; str "hung"; str "hai"; str "hien";
   str "hoangvu"; str "toan"; str "phamdu"; str "tam"; str "manhtai";
   str "bibi"; str "tayle"; str "hoangdiep"].

End Login.

Module GeminiTerms.
Import JS Gemini.

(** The texts of a response, in order: the [text] of the parts that have
    a non-empty one. *)
Definition texts (ps : list ResponsePart) : list JSString :=
  omap (fun p => if truthy_opt (part_text p) then part_text p else None) ps.

(** The inline data of a response, in order: that of the parts without
    text. *)
Definition images (ps : list ResponsePart) : list Blob :=
  omap (fun p => if truthy_opt (part_text p) then None else part_inlineData p)
       ps.

(** The data URL made of inline data. *)
Definition data_url (b : Blob) : JSString :=
  str "data:" ++ interpolate (blob_mimeType b) ++ str ";base64,"
  ++ interpolate (blob_data b).

(** The parts of the first candidate. *)
Definition response_parts (response : ContentResponse)
  : list ResponsePart :=
  default [] (first_candidate response ≫= content_parts).

(** The blocked categories of the first candidate, as the message lists
    them. *)
Definition blocked_categories (response : ContentResponse) : JSString :=
  match first_candidate response ≫= safetyRatings with
  | Some rs =>
      join (str ", ")
           (map (fun r => default [] (category r))
                (filter (fun r => blocked r = true) rs))
  | None => []
  end.

(** The trace of [generateVideo] up to the loop. *)
Definition video_prelude (prompt : JSString) (image : option ImagePart)
    (aspectRatio : VideoAspectRatio) : list VideoEvent :=
  [Progress (str "Initializing video generation...");
   Submit (video_request prompt image aspectRatio);
   Progress (str "Polling for results, this may take a few minutes...")].

(** The steps of the loop while the operations [pending] are not done: a
    wait of ten seconds before each poll. *)
Definition polls (pending : list Operation) : list VideoEvent :=
  flat_map (fun operation => [Wait 10000; Poll operation]) pending.

End GeminiTerms.

(* ===================================================================== *)
(** ** JSON.stringify, for the value that [App.tsx] stores *)
(* ===================================================================== *)

Module JsonText.
Import JS.

(** A lower-case hexadecimal digit. *)
Definition hexadecimal (d : N) : CodeUnit :=
  if N.ltb d 10 then (48 + d)%N else (87 + d)%N.

(** UnicodeEscape: a backslash, [u] and four lower-case hexadecimal
    digits. *)
Definition UnicodeEscape (c : CodeUnit) : JSString :=
  [92%N; 117%N; hexadecimal (c / 4096); hexadecimal ((c / 256) mod 16);
   hexadecimal ((c / 16) mod 16); hexadecimal (c mod 16)].

(** The text of one code unit that is no surrogate: the two-character
    escapes of the backspace, the tab, the line feed, the form feed, the
    carriage return, the quote and the backslash, a Unicode escape for the
    other control characters, and the code unit itself otherwise. *)
Definition quote_unit (c : CodeUnit) : JSString :=
  if N.eqb c 8 then [92%N; 98%N]
  else if N.eqb c 9 then [92%N; 116%N]
  else if N.eqb c 10 then [92%N; 110%N]
  else if N.eqb c 12 then [92%N; 102%N]
  else if N.eqb c 13 then [92%N; 114%N]
  else if N.eqb c 34 then [92%N; 34%N]
  else if N.eqb c 92 then [92%N; 92%N]
  else if N.ltb c 32 then UnicodeEscape c
  else [c].

Definition is_leading (c : CodeUnit) : bool :=
  N.leb 55296 c && N.leb c 56319.
Definition is_trailing (c : CodeUnit) : bool :=
  N.leb 56320 c && N.leb c 57343.

(** The characters of QuoteJSONString, code point by code point: a
    surrogate pair stands for itself, a surrogate without its partner is
    escaped. *)
Fixpoint quote_chars (s : JSString) : JSString :=
  match s with
  | [] => []
  | c :: r =>
      if is_leading c then
        match r with
        | d :: r' =>
            if is_trailing d then c :: d :: quote_chars r'
            else UnicodeEscape c ++ quote_chars r
        | [] => UnicodeEscape c
        end
      else if is_trailing c then UnicodeEscape c ++ quote_chars r
      else quote_unit c ++ quote_chars r
  end.

(** QuoteJSONString. *)
Definition QuoteJSONString (s : JSString) : JSString :=
  34%N :: quote_chars s ++ [34%N].

(** [JSON.stringify] on an array of strings, without indentation. *)
Definition stringify (keys : list JSString) : JSString :=
  match keys with
  | [] => str "[]"
  | _ => str "[" ++ join (str ",") (map QuoteJSONString keys) ++ str "]"
  end.

End JsonText.

(* ===================================================================== *)
(** ** App.tsx: what is stored, the button and the download *)
(* ===================================================================== *)

Module AppControls.
Import JS Gemini App.

(** The effect that follows a change of [transformations]: the text given
    to [localStorage.setItem('transformationOrder', ...)]. *)
Definition orderToSave (transformations : list Transformation)
  : list JSString :=
  map key transformations.

Definition saved_order (transformations : list Transformation) : JSString :=
  JsonText.stringify (orderToSave transformations).

(** [selectedTransformation?.prompt === 'CUSTOM' && !customPrompt.trim()]. *)
Definition isCustomPromptEmpty (s : AppState) : bool :=
  match selectedTransformation s with
  | Some tr =>
      JS.eqb (prompt tr) (str "CUSTOM") && negb (truthy (trim (customPrompt s)))
  | None => false
  end.

(** [isGenerateDisabled], as computed at every render: whether the
    Generate button is disabled. *)
Definition isGenerateDisabled (s : AppState) : bool :=
  match selectedTransformation s with
  | None => true
  | Some tr =>
      if JS.eqb (key tr) (str "customPrompt") then
        isLoading s || isCustomPromptEmpty s
      else if JS.eqb (key tr) (str "chibiQrCode") then
        isLoading s || negb (truthy_opt (primaryImageUrl s))
        || negb (truthy_opt (secondaryImageUrl s))
        || negb (truthy (trim (bankName s)))
        || negb (truthy (trim (accountName s)))
        || negb (truthy (trim (accountNumber s)))
        || negb (truthy (trim (branch s)))
      else if JS.eqb (key tr) (str "outfitStylist") then
        isLoading s || negb (truthy_opt (primaryImageUrl s))
        || negb (truthy (trim (lookbookDescription s)))
      else if isVideo tr then
        isLoading s || negb (truthy (trim (customPrompt s)))
      else if truthy_number (maxImages tr) then
        isLoading s || (length (multiImageUrls s) =? 0)
      else
        let imagesReady :=
          if isMultiImage tr then
            if isSecondaryOptional tr then truthy_opt (primaryImageUrl s)
            else truthy_opt (primaryImageUrl s)
                 && truthy_opt (secondaryImageUrl s)
          else truthy_opt (primaryImageUrl s) in
        isLoading s || isCustomPromptEmpty s || negb imagesReady
  end.

(** *** What a handler leaves as it was

    [extends log log']: the log [log'] continues [log]. *)
Definition extends (log log' : list GatewayCall) : Prop :=
  exists calls, log' = log ++ calls.

(** A handler that touches neither the history, nor the result on
    display, nor the error message. *)
Definition steady {A} (h : Handler A) : Prop :=
  forall w,
    extends (snd w) (snd (snd (run h w)))
    /\ history (fst (snd (run h w))) = history (fst w)
    /\ generatedContent (fst (snd (run h w))) = generatedContent (fst w)
    /\ App.error (fst (snd (run h w))) = App.error (fst w).

(** A handler that either leaves the history and the result on display
    as they were, or returns after it has put one result on display and in
    front of the history, the error message untouched. *)
Definition ends (h : Handler unit) : Prop :=
  forall w,
    extends (snd w) (snd (snd (run h w)))
    /\ ((history (fst (snd (run h w))) = history (fst w)
         /\ generatedContent (fst (snd (run h w))) = generatedContent (fst w))
        \/ (fst (run h w) = Returned tt
            /\ App.error (fst (snd (run h w))) = App.error (fst w)
            /\ exists r,
                 generatedContent (fst (snd (run h w))) = Some r
                 /\ history (fst (snd (run h w))) = r :: history (fst w))).

(** A handler that makes at least one call of the service. *)
Definition sends {A} (h : Handler A) : Prop :=
  forall w, exists call calls, snd (snd (run h w)) = snd w ++ call :: calls.

(** The state after the setters at the head of [handleGenerateImage]. *)
Definition started (s : AppState) : AppState :=
  setLoadingMessage []
    (setGeneratedLookbookImages []
       (setGeneratedContent None (setError None (setIsLoading true s)))).

(** The keys of the messages with which [handleGenerateImage] turns a
    request down. *)
Definition validation_errors : list JSString :=
  [str "app.error.uploadAndSelect"; str "app.error.enterPrompt";
   str "app.error.fillAllFields"; str "app.error.uploadOne";
   str "app.error.uploadBoth"].

(** A step that drops no entry of the history. *)
Definition keeps_history (step : AppState -> AppState) : Prop :=
  forall cur, exists added, history (step cur) = added ++ history cur.

(** A step after which nothing is loading. *)
Definition stops_loading (step : AppState -> AppState) : Prop :=
  forall cur, isLoading (step cur) = false /\ loadingMessage (step cur) = [].

(** *** The handlers of the selection and of the uploads *)

(** [handleSelectTransformation]: the effect becomes the selected one,
    the results of the previous one are dropped, the prompt is emptied
    unless the effect takes a free prompt, and an effect that takes
    several images starts from the primary image when the uploader is
    empty. *)
Definition handleSelectTransformation (transformation : Transformation)
    (s : AppState) : AppState :=
  {| transformations := transformations s;
     selectedTransformation := Some transformation;
     primaryImageUrl := primaryImageUrl s;
     primaryFile := primaryFile s;
     secondaryImageUrl := secondaryImageUrl s;
     secondaryFile := secondaryFile s;
     multiImageUrls := match primaryImageUrl s with
                       | Some primary =>
                           if truthy_number (maxImages transformation)
                              && truthy primary
                              && (length (multiImageUrls s) =? 0)
                           then [primary]
                           else multiImageUrls s
                       | None => multiImageUrls s
                       end;
     generatedContent := None;
     isLoading := isLoading s;
     loadingMessage := loadingMessage s;
     App.error := None;
     maskDataUrl := maskDataUrl s;
     previewImageUrl := previewImageUrl s;
     customPrompt := if negb (JS.eqb (prompt transformation) (str "CUSTOM")) then []
                     else customPrompt s;
     aspectRatio := aspectRatio s;
     imageAspectRatio := imageAspectRatio s;
     activeTool := activeTool s;
     history := history s;
     isHistoryPanelOpen := isHistoryPanelOpen s;
     activeCategory := activeCategory s;
     imageOptions := None;
     selectedOption := None;
     generatedLookbookImages := [];
     bankName := bankName s;
     accountName := accountName s;
     accountNumber := accountNumber s;
     branch := branch s;
     lookbookMode := lookbookMode s;
     askAiPrompt := askAiPrompt s;
     lookbookDescription := lookbookDescription s;
     numImages := numImages s;
     lookbookAspectRatio := lookbookAspectRatio s;
     outputQuality := outputQuality s |}.


(** [handleSecondaryImageSelect]. *)
Definition handleSecondaryImageSelect (file : File) (dataUrl : JSString)
    (s : AppState) : AppState :=
  {| transformations := transformations s;
     selectedTransformation := selectedTransformation s;
     primaryImageUrl := primaryImageUrl s;
     primaryFile := primaryFile s;
     secondaryImageUrl := Some dataUrl;
     secondaryFile := Some file;
     multiImageUrls := multiImageUrls s;
     generatedContent := None;
     isLoading := isLoading s;
     loadingMessage := loadingMessage s;
     App.error := None;
     maskDataUrl := maskDataUrl s;
     previewImageUrl := previewImageUrl s;
     customPrompt := customPrompt s;
     aspectRatio := aspectRatio s;
     imageAspectRatio := imageAspectRatio s;
     activeTool := activeTool s;
     history := history s;
     isHistoryPanelOpen := isHistoryPanelOpen s;
     activeCategory := activeCategory s;
     imageOptions := imageOptions s;
     selectedOption := selectedOption s;
     generatedLookbookImages := generatedLookbookImages s;
     bankName := bankName s;
     accountName := accountName s;
     accountNumber := accountNumber s;
     branch := branch s;
     lookbookMode := lookbookMode s;
     askAiPrompt := askAiPrompt s;
     lookbookDescription := lookbookDescription s;
     numImages := numImages s;
     lookbookAspectRatio := lookbookAspectRatio s;
     outputQuality := outputQuality s |}.

(** [handleClearPrimaryImage]. *)
Definition handleClearPrimaryImage (s : AppState) : AppState :=
  {| transformations := transformations s;
     selectedTransformation := selectedTransformation s;
     primaryImageUrl := None;
     primaryFile := None;
     secondaryImageUrl := secondaryImageUrl s;
     secondaryFile := secondaryFile s;
     multiImageUrls := [];
     generatedContent := None;
     isLoading := isLoading s;
     loadingMessage := loadingMessage s;
     App.error := None;
     maskDataUrl := None;
     previewImageUrl := previewImageUrl s;
     customPrompt := customPrompt s;
     aspectRatio := aspectRatio s;
     imageAspectRatio := imageAspectRatio s;
     activeTool := ToolNone;
     history := history s;
     isHistoryPanelOpen := isHistoryPanelOpen s;
     activeCategory := activeCategory s;
     imageOptions := None;
     selectedOption := None;
     generatedLookbookImages := [];
     bankName := bankName s;
     accountName := accountName s;
     accountNumber := accountNumber s;
     branch := branch s;
     lookbookMode := lookbookMode s;
     askAiPrompt := askAiPrompt s;
     lookbookDescription := lookbookDescription s;
     numImages := numImages s;
     lookbookAspectRatio := lookbookAspectRatio s;
     outputQuality := outputQuality s |}.

(** [handleClearSecondaryImage]. *)
Definition handleClearSecondaryImage (s : AppState) : AppState :=
  {| transformations := transformations s;
     selectedTransformation := selectedTransformation s;
     primaryImageUrl := primaryImageUrl s;
     primaryFile := primaryFile s;
     secondaryImageUrl := None;
     secondaryFile := None;
     multiImageUrls := multiImageUrls s;
     generatedContent := generatedContent s;
     isLoading := isLoading s;
     loadingMessage := loadingMessage s;
     App.error := App.error s;
     maskDataUrl := maskDataUrl s;
     previewImageUrl := previewImageUrl s;
     customPrompt := customPrompt s;
     aspectRatio := aspectRatio s;
     imageAspectRatio := imageAspectRatio s;
     activeTool := activeTool s;
     history := history s;
     isHistoryPanelOpen := isHistoryPanelOpen s;
     activeCategory := activeCategory s;
     imageOptions := imageOptions s;
     selectedOption := selectedOption s;
     generatedLookbookImages := generatedLookbookImages s;
     bankName := bankName s;
     accountName := accountName s;
     accountNumber := accountNumber s;
     branch := branch s;
     lookbookMode := lookbookMode s;
     askAiPrompt := askAiPrompt s;
     lookbookDescription := lookbookDescription s;
     numImages := numImages s;
     lookbookAspectRatio := lookbookAspectRatio s;
     outputQuality := outputQuality s |}.

Section Handlers.
Context `{Runtime} `{Collaborators}.

(** [handleUseImageAsInput], given how [dataUrlToFile] settles: nothing
    happens for an empty URL; a failure of the conversion only shows a
    message. *)
Definition handleUseImageAsInput (converted : Settled File)
    (imageUrl : JSString) (s : AppState) : AppState :=
  if negb (truthy imageUrl) then s
  else
    match converted with
    | Rejected _ => setError (Some (t (str "app.error.useAsInputFailed"))) s
    | Resolved newFile =>
      {| transformations := transformations s;
         selectedTransformation := None;
         primaryImageUrl := Some imageUrl;
         primaryFile := Some newFile;
         secondaryImageUrl := None;
         secondaryFile := None;
         multiImageUrls := [imageUrl];
         generatedContent := None;
         isLoading := isLoading s;
         loadingMessage := loadingMessage s;
         App.error := None;
         maskDataUrl := None;
         previewImageUrl := previewImageUrl s;
         customPrompt := customPrompt s;
         aspectRatio := aspectRatio s;
         imageAspectRatio := imageAspectRatio s;
         activeTool := ToolNone;
         history := history s;
         isHistoryPanelOpen := isHistoryPanelOpen s;
         activeCategory := None;
         imageOptions := None;
         selectedOption := None;
         generatedLookbookImages := [];
         bankName := [];
         accountName := [];
         accountNumber := [];
         branch := [];
         lookbookMode := lookbookMode s;
         askAiPrompt := askAiPrompt s;
         lookbookDescription := lookbookDescription s;
         numImages := numImages s;
         lookbookAspectRatio := lookbookAspectRatio s;
         outputQuality := outputQuality s |}
    end.


(** *** handleGenerateDynamicVideo

    As [handleGenerateVideo], the handler is given by its resumptions. It
    animates the option selected among the variations, always in portrait
    format, and its [finally] block also clears the selection. *)

Definition dynamic_video_failure (err : Thrown) (cur : AppState)
  : AppState :=
  setSelectedOption None
    (setLoadingMessage [] (setIsLoading false
       (setError (Some (error_text err)) cur))).

Definition dynamic_video_result (chosen objectUrl : JSString)
  : GeneratedContent :=
  {| imageUrl := None; text := None; videoUrl := Some objectUrl;
     originalImageUrl := Some chosen;
     Gemini.secondaryImageUrl := None |}.

Definition dynamic_video_success (result : GeneratedContent)
    (cur : AppState) : AppState :=
  setSelectedOption None
    (setLoadingMessage [] (setIsLoading false
       (setHistory (result :: history cur)
          (setGeneratedContent (Some result) cur)))).

(** The resumptions that follow the settling of [generateVideo]. *)
Definition after_dynamic_video (fetch : JSString -> Settled FetchResponse)
    (chosen : JSString) (settled : Settled JSString)
  : list (AppState -> AppState) :=
  match settled with
  | Rejected err => [dynamic_video_failure err]
  | Resolved videoDownloadUrl =>
      setLoadingMessage (t (str "app.loading.videoFetching"))
      :: match fetch videoDownloadUrl with
         | Rejected err => [dynamic_video_failure err]
         | Resolved response =>
             if negb (ok response) then
               [dynamic_video_failure
                  (ErrorObj (str "Failed to download video file. Status: "
                             ++ statusText response))]
             else
               (fun cur => cur)
               :: match blob response with
                  | Rejected err => [dynamic_video_failure err]
                  | Resolved objectUrl =>
                      [dynamic_video_success
                         (dynamic_video_result chosen objectUrl)]
                  end
         end
  end.

Definition handleGenerateDynamicVideo (job : VideoJob)
    (fetch : JSString -> Settled FetchResponse) (s : AppState)
  : list (AppState -> AppState) :=
  let refusal := [setError (Some (t (str "app.error.selectOneToAnimate")))] in
  match selectedTransformation s with
  | None => refusal
  | Some tr =>
      match videoPrompt tr, selectedOption s with
      | Some videoPrompt, Some chosen =>
          if negb (truthy videoPrompt) || negb (truthy chosen) then refusal
          else
            let imagePayload := imagePart_of chosen in
            let '(trace, settled) :=
              generateVideo job videoPrompt (Some imagePayload) V9_16 in
            (fun cur => setImageOptions None
                          (setGeneratedContent None
                             (setError None (setIsLoading true cur))))
            :: map on_video_event trace
            ++ match settled with
               | Some r => after_dynamic_video fetch chosen r
               | None => []
               end
      | _, _ => refusal
      end
  end.

End Handlers.

(** [String.prototype.includes]. *)
Definition includes (s pat : JSString) : bool :=
  match indexOf s pat with Some _ => true | None => false end.

(** The text of [s] before its first [sep]: all of [s] when it has
    none. *)
Fixpoint text_before (sep : CodeUnit) (s : JSString) : JSString :=
  match s with
  | [] => []
  | c :: s' => if N.eqb c sep then [] else c :: text_before sep s'
  end.

(** The text of [s] after its first [sep], when it has one. *)
Fixpoint text_after (sep : CodeUnit) (s : JSString) : option JSString :=
  match s with
  | [] => None
  | c :: s' => if N.eqb c sep then Some s' else text_after sep s'
  end.

(** The extension that [handleDownloadFromHistory] gives the file:
    [type.includes('video') ? 'mp4' : (url.split(';')[0].split('/')[1] || 'png')]. *)
Definition fileExtension (url type : JSString) : JSString :=
  if includes type (str "video") then str "mp4"
  else
    match nth_error (split 59%N url) 0
          ≫= (fun p => nth_error (split 47%N p) 1) with
    | Some e => if truthy e then e else str "png"
    | None => str "png"
    end.

(** [handleDownloadFromHistory]: the arguments of its call of
    [downloadImage], given the text of [Date.now()]. *)
Definition handleDownloadFromHistory (now : JSString) (url type : JSString)
  : JSString * JSString :=
  let fileExtension := fileExtension url type in
  let filename := type ++ str "-" ++ now ++ str "." ++ fileExtension in
  (url, filename).

End AppControls.

(* ===================================================================== *)
(** ** Properties of the gateway *)
(* ===================================================================== *)

Import JS Gemini App.

Section PartOrder.

Lemma fold_left_push {A B} (f : A -> B) (l : list A) (acc : list B) :
  fold_left (fun parts x => push parts (f x)) l acc = acc ++ map f l.
Proof.
  revert acc. induction l as [|x l IH]; intros acc; simpl.
  - by rewrite app_nil_r.
  - rewrite IH. unfold push. by rewrite <- app_assoc.
Qed.

(** The images after the first are appended in their order, whatever the
    array holds so far. *)
Lemma remaining_images (primary : ImagePart) (rest : list ImagePart)
    (acc : list Part) :
  (if 1 <? length (primary :: rest)
   then fold_left (fun parts img => push parts (inline img))
                  (skipn 1 (primary :: rest)) acc
   else acc) = acc ++ map inline rest.
Proof.
  destruct rest as [|r rest'].
  - simpl. by rewrite app_nil_r.
  - change (1 <? length (primary :: r :: rest')) with true.
    cbn [skipn]. apply fold_left_push.
Qed.

(** C4, as amended: for every call of [editImage], a mask that is a
    non-empty string is sent right after the primary image, before the
    remaining images in their order, and the text, sent last, is the prompt
    wrapped in the masked-area instruction; without a mask ([null], or the
    empty string, which counts as none) the parts are the primary image,
    the remaining images and the plain prompt. Only a call without any
    image has no image part: its parts are the mask, if any, and the
    text. *)
Theorem editImage_part_order (prompt : JSString) (primary : ImagePart)
    (rest : list ImagePart) (mask : JSString) :
  mask <> [] ->
  editImage_parts prompt (primary :: rest) (Some mask)
  = inline primary :: InlineData (Some mask) (str "image/png")
    :: map inline rest ++ [Text (masked_prompt prompt)]
  /\ editImage_parts prompt (primary :: rest) None
     = inline primary :: map inline rest ++ [Text prompt]
  /\ editImage_parts prompt (primary :: rest) (Some [])
     = inline primary :: map inline rest ++ [Text prompt]
  /\ editImage_parts prompt [] (Some mask)
     = [InlineData (Some mask) (str "image/png");
        Text (masked_prompt prompt)]
  /\ editImage_parts prompt [] None = [Text prompt]
  /\ editImage_parts prompt [] (Some []) = [Text prompt].
Proof.
  intros Hmask. repeat split; unfold editImage_parts.
  - destruct mask as [|c mask']; [done|].
    cbn [truthy_opt truthy]. rewrite remaining_images. reflexivity.
  - cbn [truthy_opt]. rewrite remaining_images. reflexivity.
  - cbn [truthy_opt truthy]. rewrite remaining_images. reflexivity.
  - by destruct mask.
Qed.

Lemma editImage_part_order_witness :
  let first := {| base64 := Some (str "QUJD"); mimeType := str "image/png" |} in
  let second := {| base64 := Some (str "REVG"); mimeType := str "image/jpeg" |} in
  editImage_parts (str "Make the sky pink.") [first; second] (Some (str "TUFTSw"))
  = [InlineData (Some (str "QUJD")) (str "image/png");
     InlineData (Some (str "TUFTSw")) (str "image/png");
     InlineData (Some (str "REVG")) (str "image/jpeg");
     Text (masked_prompt (str "Make the sky pink."))].
Proof.
  intros first second.
  apply (proj1 (editImage_part_order (str "Make the sky pink.") first [second]
                  (str "TUFTSw") ltac:(discriminate))).
Defined.

(** C4, as stated, fails for a mask that is the empty string: it is not
    [null], yet no mask part is sent and the prompt is not wrapped. *)
Lemma editImage_empty_mask_not_sent :
  let first := {| base64 := Some (str "QUJD"); mimeType := str "image/png" |} in
  editImage_parts (str "Make the sky pink.") [first] (Some [])
  = [inline first; Text (str "Make the sky pink.")]
  /\ editImage_parts (str "Make the sky pink.") [first] (Some [])
     <> [inline first; InlineData (Some []) (str "image/png");
         Text (masked_prompt (str "Make the sky pink."))].
Proof. split; [reflexivity | discriminate]. Qed.

End PartOrder.

Section Batches.
Context `{Runtime}.

Lemma count_content_push (log : list GatewayCall) (r : ContentRequest) :
  count_content (push log (GenerateContent r)) = S (count_content log).
Proof.
  unfold count_content, push. rewrite filter_app, length_app.
  rewrite filter_cons_True by done. simpl. lia.
Qed.

(** The loop issues [n] identical requests; the i-th promise is the i-th
    answer of the service, read by [editImage]. *)
Lemma push_editImage_calls_spec gw n prompt imageParts promises log :
  push_editImage_calls gw n prompt imageParts promises log
  = (promises ++ map (child gw log) (seq 0 n),
     log ++ repeat (GenerateContent (editImage_request prompt imageParts None)) n).
Proof.
  revert promises log. induction n as [|n IH]; intros promises log.
  - simpl. by rewrite !app_nil_r.
  - cbn [push_editImage_calls]. unfold editImage at 1.
    destruct (generateContent gw (count_content log)) as [ticks reply] eqn:E.
    rewrite IH.
    assert (Hshift :
      map (child gw (push log (GenerateContent
                                 (editImage_request prompt imageParts None))))
          (seq 0 n)
      = map (child gw log) (seq 1 n)).
    { rewrite <- seq_shift, map_map. apply map_ext. intros i.
      unfold child. rewrite count_content_push.
      by replace (S (count_content log) + i) with (count_content log + S i)
        by lia. }
    rewrite Hshift. unfold push. rewrite <- !app_assoc. cbn [seq map app].
    unfold child at 2. rewrite Nat.add_0_r, E. reflexivity.
Qed.

Lemma first_rejection_elem {A} (ps : list (nat * Settled A)) k e :
  (k, Rejected e) ∈ ps -> exists k' e', first_rejection ps = Some (k', e').
Proof.
  induction ps as [|[k0 [a|e0]] ps IH]; intros Hin.
  - by apply elem_of_nil in Hin.
  - apply elem_of_cons in Hin as [Heq|Hin]; [done|]. simpl. auto.
  - simpl. destruct (first_rejection ps) as [[k' e']|]; [|eauto].
    destruct (k' <? k0); eauto.
Qed.

Lemma first_rejection_is_child {A} (ps : list (nat * Settled A)) k e :
  first_rejection ps = Some (k, e) -> (k, Rejected e) ∈ ps.
Proof.
  revert k e. induction ps as [|[k0 [a|e0]] ps IH]; intros k e Hf; simpl in Hf.
  - done.
  - apply elem_of_cons. right. auto.
  - destruct (first_rejection ps) as [[k' e']|] eqn:E.
    + destruct (k' <? k0); inversion Hf; subst.
      * apply elem_of_cons. right. auto.
      * apply elem_of_cons. by left.
    + inversion Hf; subst. apply elem_of_cons. by left.
Qed.

(** [Promise.all] over promises of which one is rejected is rejected, with
    the reason of one of them. *)
Lemma promise_all_one_rejection {A} (ps : list (nat * Settled A)) k e :
  (k, Rejected e) ∈ ps ->
  exists k' e', (k', Rejected e') ∈ ps /\ promise_all ps = Rejected e'.
Proof.
  intros Hin. destruct (first_rejection_elem ps k e Hin) as (k' & e' & Hf).
  exists k', e'. split; [by apply first_rejection_is_child|].
  unfold promise_all. by rewrite Hf.
Qed.

Lemma editImage_result_rejects_with_Error reply e :
  editImage_result reply = Rejected e -> exists m, e = ErrorObj m.
Proof.
  unfold editImage_result. destruct reply as [response|e0].
  - destruct (negb _); [|done]. intros [= <-]. eauto.
  - intros [= <-]. eauto.
Qed.

(** What [editImage] resolves with has an image. *)
Lemma editImage_result_has_image reply r :
  editImage_result reply = Resolved r -> truthy_opt (imageUrl r) = true.
Proof.
  unfold editImage_result. destruct reply as [response|e0]; [|done].
  destruct (truthy_opt _) eqn:E; [|done]. cbn [negb]. by intros [= <-].
Qed.

(** Among [n] concurrent calls of which the i-th yields no image, one is
    rejected with an Error, and awaiting them all is rejected with it. *)
Lemma awaited_calls_reject gw log n i :
  i < n ->
  produces_image (snd (child gw log i)) = false ->
  exists j m, j < n
    /\ snd (child gw log j) = Rejected (ErrorObj m)
    /\ promise_all (map (child gw log) (seq 0 n)) = Rejected (ErrorObj m).
Proof.
  intros Hi Hno.
  destruct (snd (child gw log i)) as [r|e] eqn:He.
  { unfold child in He. cbn [snd] in He.
    apply editImage_result_has_image in He. cbn in Hno. congruence. }
  destruct (promise_all_one_rejection (map (child gw log) (seq 0 n))
              (fst (child gw log i)) e)
    as (k' & e' & Hin & Hall).
  { apply list_elem_of_fmap. exists i. split.
    - rewrite <- He. by destruct (child gw log i).
    - apply elem_of_seq. lia. }
  apply list_elem_of_fmap in Hin as (j & Hj & Hjin).
  apply elem_of_seq in Hjin.
  assert (Hr : snd (child gw log j) = Rejected e') by (by rewrite <- Hj).
  destruct (editImage_result_rejects_with_Error _ _ Hr) as [m ->].
  exists j, m. split; [lia|]. split; [done|]. exact Hall.
Qed.

(** One [editImage] call without an image makes the whole lookbook fail,
    however many of the other calls succeed. *)
Lemma generateLookbook_any_failure_rejects gw prompt imagePart numImages log i :
  i < numImages ->
  produces_image (snd (child gw log i)) = false ->
  exists j m, j < numImages
    /\ snd (child gw log j) = Rejected (ErrorObj m)
    /\ fst (generateLookbook gw prompt imagePart numImages log)
       = Rejected (ErrorObj m).
Proof.
  intros Hi Hno.
  destruct (awaited_calls_reject gw log numImages i Hi Hno)
    as (j & m & Hj & Hchild & Hall).
  exists j, m. split; [done|]. split; [done|].
  unfold generateLookbook. rewrite push_editImage_calls_spec.
  cbn [app fst]. by rewrite Hall.
Qed.

(** The same for the batch of four. *)
Lemma generateImageEditsBatch_any_failure_rejects gw prompt imageParts log i :
  i < 4 ->
  produces_image (snd (child gw log i)) = false ->
  exists j m, j < 4
    /\ snd (child gw log j) = Rejected (ErrorObj m)
    /\ fst (generateImageEditsBatch gw prompt imageParts log)
       = Rejected (ErrorObj m).
Proof.
  intros Hi Hno.
  destruct (awaited_calls_reject gw log 4 i Hi Hno)
    as (j & m & Hj & Hchild & Hall).
  exists j, m. split; [done|]. split; [done|].
  unfold generateImageEditsBatch. rewrite push_editImage_calls_spec.
  cbn [app fst]. by rewrite Hall.
Qed.

(** Conversely, a batch that resolves returns one image per call: nothing
    is ever left out. *)
Lemma generateImageEditsBatch_all_or_nothing gw prompt imageParts log urls :
  fst (generateImageEditsBatch gw prompt imageParts log) = Resolved urls ->
  length urls = 4
  /\ forall i, i < 4 -> produces_image (snd (child gw log i)) = true.
Proof.
  intros Hres.
  assert (Hall : forall i, i < 4 ->
                 produces_image (snd (child gw log i)) = true).
  { intros i Hi.
    destruct (produces_image (snd (child gw log i))) eqn:E; [done|].
    destruct (generateImageEditsBatch_any_failure_rejects
                gw prompt imageParts log i Hi E) as (j & m & _ & _ & Hrej).
    congruence. }
  split; [|exact Hall].
  revert Hres. unfold generateImageEditsBatch.
  rewrite push_editImage_calls_spec. cbn [app fst seq map].
  pose proof (Hall 0 ltac:(lia)) as H0. pose proof (Hall 1 ltac:(lia)) as H1.
  pose proof (Hall 2 ltac:(lia)) as H2. pose proof (Hall 3 ltac:(lia)) as H3.
  revert H0 H1 H2 H3. unfold produces_image.
  destruct (child gw log 0) as [k0 [r0|?]]; cbn [snd]; [|done].
  destruct (child gw log 1) as [k1 [r1|?]]; cbn [snd]; [|done].
  destruct (child gw log 2) as [k2 [r2|?]]; cbn [snd]; [|done].
  destruct (child gw log 3) as [k3 [r3|?]]; cbn [snd]; [|done].
  intros H0 H1 H2 H3. unfold promise_all. cbn [first_rejection resolved_values].
  unfold image_urls. cbn [omap list_omap].
  destruct (imageUrl r0) as [u0|]; [|done].
  destruct (imageUrl r1) as [u1|]; [|done].
  destruct (imageUrl r2) as [u2|]; [|done].
  destruct (imageUrl r3) as [u3|]; [|done].
  cbn [truthy_opt] in *. rewrite H0, H1, H2, H3. cbn.
  by intros [= <-].
Qed.

End Batches.

(** C1 does not hold of the code: with a service that refuses the first of
    the concurrent calls and answers the others with an image, both batch
    operations are rejected, with the message of the refused call, instead
    of returning the images that were made. *)
Theorem batch_one_refusal_rejects :
  fst (@generateImageEditsBatch Sample.runtime Sample.first_refused
         (str "Turn this into a sticker.")
         [{| base64 := Some (str "QUJD"); mimeType := str "image/png" |}] [])
  = Rejected (ErrorObj (str "The model did not return an image. It might have refused the request. Please try a different image or prompt."))
  /\ fst (@generateLookbook Sample.runtime Sample.first_refused
            (str "A summer lookbook.")
            {| base64 := Some (str "QUJD"); mimeType := str "image/png" |} 3 [])
     = Rejected (ErrorObj (str "The model did not return an image. It might have refused the request. Please try a different image or prompt.")).
Proof. split; vm_compute; reflexivity. Qed.

Section ErrorTranslation.
Context `{Runtime}.

Lemma handleApiError_unstructured (message : JSString) :
  structured_error message = None ->
  handleApiError (ErrorObj message) = message.
Proof.
  unfold structured_error, handleApiError.
  destruct (Json.parse _) as [parsedError|]; [|done].
  destruct (Json.get parsedError _) as [[err|]|]; try done.
  destruct (Json.get err _) as [[m|]|].
  - destruct (Json.truthy err), (Json.truthy m); done.
  - by destruct (Json.truthy err).
  - by destruct (Json.truthy err).
Qed.

Lemma handleApiError_structured (message : JSString) (err m : Json.value) :
  structured_error message = Some (err, m) ->
  handleApiError (ErrorObj message)
  = if status_is err (str "RESOURCE_EXHAUSTED") then msg_rate_limit
    else if code_is_500 err || status_is err (str "UNKNOWN")
         then msg_server_error
         else Json.toString m.
Proof.
  unfold structured_error, handleApiError.
  destruct (Json.parse _) as [parsedError|]; [|done].
  destruct (Json.get parsedError _) as [[err'|]|]; try done.
  destruct (Json.get err' _) as [[m'|]|] eqn:Em; try done.
  destruct (Json.truthy err') eqn:Et, (Json.truthy m') eqn:Etm; try done.
  cbn [andb]. intros Heq. simplify_eq. reflexivity.
Qed.

(** C5, as amended: [handleApiError] yields the generic fallback message
    for a thrown value that is not an Error; keeps the message of an Error
    that carries no structured provider error; and for a structured error
    yields the rate-limit message when the status is RESOURCE_EXHAUSTED,
    otherwise the retry-later message when the code is 500 or the status is
    UNKNOWN, otherwise the provider's message (itself, when it is a
    string). Every failure of the remote call in [editImage] and in
    [generateImageFromText] passes through it, and so does every Error
    caught in [generateVideo], which answers any other thrown value with a
    generic message of its own. *)
Theorem handleApiError_translation :
  handleApiError NonError = msg_unknown_api
  /\ (forall message,
        structured_error message = None ->
        handleApiError (ErrorObj message) = message)
  /\ (forall message err m,
        structured_error message = Some (err, m) ->
        status_is err (str "RESOURCE_EXHAUSTED") = true ->
        handleApiError (ErrorObj message) = msg_rate_limit)
  /\ (forall message err m,
        structured_error message = Some (err, m) ->
        status_is err (str "RESOURCE_EXHAUSTED") = false ->
        code_is_500 err = true \/ status_is err (str "UNKNOWN") = true ->
        handleApiError (ErrorObj message) = msg_server_error)
  /\ (forall message err m,
        structured_error message = Some (err, m) ->
        status_is err (str "RESOURCE_EXHAUSTED") = false ->
        code_is_500 err = false ->
        status_is err (str "UNKNOWN") = false ->
        handleApiError (ErrorObj message) = Json.toString m)
  /\ (forall text, Json.toString (Json.JStr text) = text)
  /\ (forall e,
        editImage_result (Rejected e) = Rejected (ErrorObj (handleApiError e)))
  /\ (forall gw prompt aspectRatio log e,
        generateImages gw (count_images log) = Rejected e ->
        fst (generateImageFromText gw prompt aspectRatio log)
        = Rejected (ErrorObj (handleApiError e)))
  /\ (forall message,
        video_catch (ErrorObj message)
        = Rejected (ErrorObj (handleApiError (ErrorObj message))))
  /\ video_catch NonError
     = Rejected
         (ErrorObj (str "An unknown error occurred during video generation.")).
Proof.
  split; [reflexivity|].
  split; [apply handleApiError_unstructured|].
  split; [|split; [|split]].
  - intros message err m Hs Hre.
    by rewrite (handleApiError_structured _ _ _ Hs), Hre.
  - intros message err m Hs Hre Hsrv.
    rewrite (handleApiError_structured _ _ _ Hs), Hre.
    by destruct Hsrv as [-> | ->]; [|rewrite orb_true_r].
  - intros message err m Hs Hre Hc Hu.
    by rewrite (handleApiError_structured _ _ _ Hs), Hre, Hc, Hu.
  - repeat split.
    intros gw prompt aspectRatio log e He.
    unfold generateImageFromText. by rewrite He.
Qed.

End ErrorTranslation.

Lemma handleApiError_translation_witness :
  @handleApiError Sample.runtime (ErrorObj Sample.quota_message)
  = msg_rate_limit
  /\ @handleApiError Sample.runtime (ErrorObj Sample.internal_message)
     = msg_server_error
  /\ @handleApiError Sample.runtime (ErrorObj Sample.invalid_message)
     = str "Unsupported MIME type.".
Proof.
  pose proof (@handleApiError_translation Sample.runtime)
    as (_ & _ & Hquota & Hserver & Hother & _).
  split; [|split].
  - eapply Hquota; vm_compute; reflexivity.
  - eapply Hserver; [vm_compute; reflexivity | vm_compute; reflexivity|].
    left. vm_compute. reflexivity.
  - erewrite Hother; [| vm_compute; reflexivity | vm_compute; reflexivity..].
    reflexivity.
Defined.

(** C5, as stated, fails: a structured 503 (a 5xx condition) is not given
    the retry-later message but surfaces the provider's message; an Error
    whose message is plain text keeps that text instead of the generic
    fallback message; and a thrown value that is not an Error does not
    reach the translator in [generateVideo]. *)
Lemma handleApiError_503_and_plain_text :
  (@handleApiError Sample.runtime (ErrorObj Sample.overloaded_message)
   = str "The model is overloaded. Please try again later."
   /\ @handleApiError Sample.runtime (ErrorObj Sample.overloaded_message)
      <> msg_server_error)
  /\ (@handleApiError Sample.runtime (ErrorObj (str "Failed to fetch"))
      = str "Failed to fetch"
      /\ @handleApiError Sample.runtime (ErrorObj (str "Failed to fetch"))
         <> msg_unknown_api)
  /\ @video_catch Sample.runtime NonError
     <> Rejected (ErrorObj (@handleApiError Sample.runtime NonError)).
Proof. vm_compute. repeat split; discriminate. Qed.

(* ===================================================================== *)
(** ** Properties of the component *)
(* ===================================================================== *)

Section Watermarks.
Context `{Collaborators}.

(** C6: the watermark pipeline never fails outward. On every image URL
    that reaches the stages (a non-empty string, which is what every call
    of [applyWatermarks] passes), [applyWatermarks] returns the original
    URL when the invisible stage throws, the original URL when the visible
    stage throws, and the doubly watermarked image when both succeed; it
    always returns an image and never throws. *)
Theorem applyWatermarks_never_fails (url : JSString) (Hurl : url <> []) :
  (forall e,
     embedWatermark url watermark_text = Rejected e ->
     applyWatermarks (Some url) = Some url)
  /\ (forall invisible e,
        embedWatermark url watermark_text = Resolved invisible ->
        addVisibleWatermark invisible watermark_text = Rejected e ->
        applyWatermarks (Some url) = Some url)
  /\ (forall invisible visible,
        embedWatermark url watermark_text = Resolved invisible ->
        addVisibleWatermark invisible watermark_text = Resolved visible ->
        applyWatermarks (Some url) = Some visible)
  /\ (exists out, applyWatermarks (Some url) = Some out).
Proof.
  assert (Ht : truthy url = true) by (by destruct url).
  unfold applyWatermarks. rewrite Ht. cbn [negb].
  repeat split.
  - by intros e ->.
  - by intros invisible e -> ->.
  - by intros invisible visible -> ->.
  - destruct (embedWatermark url watermark_text) as [invisible|e]; [|eauto].
    destruct (addVisibleWatermark invisible watermark_text); eauto.
Qed.

(** Neither stage runs, and [null] is returned, for [null] and for the
    empty string. *)
Lemma applyWatermarks_nothing (imageUrl : option JSString) :
  truthy_opt imageUrl = false -> applyWatermarks imageUrl = None.
Proof. destruct imageUrl as [[|c url]|]; done. Qed.

End Watermarks.

Lemma applyWatermarks_never_fails_witness :
  @applyWatermarks Sample.broken_studio (Some (Sample.png "QUJD"))
  = Some (Sample.png "QUJD")
  /\ @applyWatermarks Sample.studio (Some (Sample.png "QUJD"))
     = Some (Sample.png "QUJD" ++ str "#invisible" ++ str "#visible").
Proof.
  split.
  - eapply (proj1 (@applyWatermarks_never_fails Sample.broken_studio
                     (Sample.png "QUJD") ltac:(discriminate))).
    reflexivity.
  - eapply (proj1 (proj2 (proj2 (@applyWatermarks_never_fails Sample.studio
                     (Sample.png "QUJD") ltac:(discriminate))))).
    + reflexivity.
    + vm_compute. reflexivity.
Defined.

Section DisplayOrder.
Context `{Collaborators}.

(** Looking a key up in the map built by successive insertions finds the
    last entry of the list with that key. *)
Lemma foldl_insert_lookup (l : list Transformation)
    (m : gmap JSString Transformation) (k : JSString) :
  foldl (fun m x => <[key x := x]> m) m l !! k
  = match last (filter (fun x => key x = k) l) with
    | Some x => Some x
    | None => m !! k
    end.
Proof.
  revert m. induction l as [|x l IH]; intros m; [done|].
  cbn [foldl]. rewrite IH.
  destruct (decide (key x = k)) as [Heq|Hne].
  - rewrite filter_cons_True by done.
    destruct (filter _ l) as [|y ys] eqn:E.
    + cbn. by rewrite <- Heq, lookup_insert_eq.
    + rewrite last_cons_cons.
      destruct (last (y :: ys)) eqn:El; [done|]. by apply last_None in El.
  - rewrite filter_cons_False by done.
    destruct (last _); [done|]. by rewrite lookup_insert_ne.
Qed.

Lemma transformationMap_lookup (k : JSString) :
  (k ∈ key <$> TRANSFORMATIONS ->
   exists x, transformationMap !! k = Some x /\ key x = k)
  /\ (k ∉ key <$> TRANSFORMATIONS -> transformationMap !! k = None).
Proof.
  unfold transformationMap. rewrite foldl_insert_lookup, lookup_empty.
  destruct (last (filter _ TRANSFORMATIONS)) as [x|] eqn:E.
  - apply last_Some_elem_of in E. apply list_elem_of_filter in E as [Hk Hin].
    split; [eauto|]. intros Hnot. exfalso. apply Hnot.
    apply list_elem_of_fmap. eauto.
  - apply last_None in E. split; [|done]. intros Hin.
    apply list_elem_of_fmap in Hin as (x & -> & Hx).
    assert (x ∈ filter (fun y => key y = key x) TRANSFORMATIONS) as Hf
      by (by apply list_elem_of_filter).
    rewrite E in Hf. by apply elem_of_nil in Hf.
Qed.

Lemma string_keys_strings (saved : list JSString) :
  string_keys (Json.JStr <$> saved) = saved.
Proof.
  induction saved as [|k saved IH]; [done|].
  change (string_keys (Json.JStr <$> k :: saved))
    with (k :: string_keys (Json.JStr <$> saved)).
  by rewrite IH.
Qed.

Lemma resolve_order_keys (saved : list JSString) :
  key <$> resolve_order (Json.JStr <$> saved)
  = filter (fun k => k ∈ key <$> TRANSFORMATIONS) saved
    ++ filter (fun k => k ∉ saved) (key <$> TRANSFORMATIONS).
Proof.
  unfold resolve_order. rewrite fmap_app. f_equal.
  - induction saved as [|k saved IH]; [done|].
    cbn [fmap list_fmap omap list_omap].
    destruct (transformationMap_lookup k) as [Hin Hout].
    destruct (decide (k ∈ key <$> TRANSFORMATIONS)) as [Hk|Hk].
    + destruct (Hin Hk) as (x & -> & Hx).
      rewrite filter_cons_True by done. cbn. by rewrite Hx, <- IH.
    + rewrite (Hout Hk), filter_cons_False by done. apply IH.
  - rewrite string_keys_strings.
    induction TRANSFORMATIONS as [|x xs IH]; [done|].
    cbn [fmap list_fmap].
    destruct (decide (key x ∈ saved)) as [Hk|Hk].
    + rewrite filter_cons_False by (rewrite elem_of_list_to_set; auto).
      rewrite filter_cons_False by auto. apply IH.
    + rewrite filter_cons_True by (by rewrite elem_of_list_to_set).
      rewrite filter_cons_True by done. cbn. by rewrite IH.
Qed.

Lemma parse_nonempty (s : JSString) (v : Json.value) :
  Json.parse s = Some v -> truthy s = true.
Proof. by destruct s. Qed.

(** C9: when the stored text is the JSON array of the saved keys, the keys
    of the display order are the saved keys that the catalog knows, in
    their saved order, followed by the catalog keys that were not saved, in
    catalog order. *)
Theorem initial_transformations_order (savedOrder : JSString)
    (saved : list JSString) :
  Json.parse savedOrder = Some (Json.JArr (Json.JStr <$> saved)) ->
  key <$> initial_transformations (Some savedOrder)
  = filter (fun k => k ∈ key <$> TRANSFORMATIONS) saved
    ++ filter (fun k => k ∉ saved) (key <$> TRANSFORMATIONS).
Proof.
  intros Hparse. unfold initial_transformations.
  rewrite (parse_nonempty _ _ Hparse), Hparse. apply resolve_order_keys.
Qed.

End DisplayOrder.

(** The saved order B, A against the catalog A, B, C gives B, A, C, and so
    does the saved order B, Z, A, whose Z the catalog does not know. *)
Lemma initial_transformations_order_witness :
  key <$> @initial_transformations Sample.studio
            (Some (str "[" ++ Sample.q "B" ++ str "," ++ Sample.q "A" ++ str "]"))
  = [str "B"; str "A"; str "C"]
  /\ key <$> @initial_transformations Sample.studio
               (Some (str "[" ++ Sample.q "B" ++ str "," ++ Sample.q "Z"
                      ++ str "," ++ Sample.q "A" ++ str "]"))
     = [str "B"; str "A"; str "C"].
Proof.
  split.
  - rewrite (@initial_transformations_order Sample.studio _ [str "B"; str "A"])
      by (vm_compute; reflexivity).
    vm_compute. reflexivity.
  - rewrite (@initial_transformations_order Sample.studio _
               [str "B"; str "Z"; str "A"])
      by (vm_compute; reflexivity).
    vm_compute. reflexivity.
Defined.

Section Video.
Context `{Runtime}.

Lemma poll_loop_unfold (operation : Operation)
    (polled : list (Settled Operation)) (trace : list VideoEvent) :
  poll_loop operation polled trace
  = if done operation then (trace, Some (Resolved operation))
    else
      let trace := push (push trace (Wait 10000)) (Poll operation) in
      match polled with
      | [] => (trace, None)
      | Rejected e :: _ => (trace, Some (Rejected e))
      | Resolved operation' :: polled' => poll_loop operation' polled' trace
      end.
Proof. by destruct polled. Qed.

Lemma wait_and_poll (operation : Operation) :
  Forall loop_event [Wait 10000; Poll operation].
Proof.
  constructor; [by left|]. constructor; [right; eauto|]. constructor.
Qed.

(** The loop only waits and polls, and stops at the first operation that
    is done. *)
Lemma poll_loop_spec (operation : Operation) (polled : list (Settled Operation))
    (trace : list VideoEvent) :
  exists ext,
    fst (poll_loop operation polled trace) = trace ++ ext
    /\ Forall loop_event ext
    /\ (forall final,
          snd (poll_loop operation polled trace) = Some (Resolved final)
          <-> first_done operation polled = Some final).
Proof.
  revert operation trace.
  induction polled as [|[operation'|e] polled IH]; intros operation trace.
  - cbn [poll_loop first_done]. destruct (done operation).
    + exists []. rewrite app_nil_r. cbn [fst snd].
      repeat split; auto; intros; congruence.
    + exists [Wait 10000; Poll operation]. unfold push. cbn [fst snd].
      rewrite <- app_assoc. repeat split; try done.
      apply wait_and_poll.
  - cbn [poll_loop first_done]. destruct (done operation).
    + exists []. rewrite app_nil_r. cbn [fst snd].
      repeat split; auto; intros; congruence.
    + destruct (IH operation' (push (push trace (Wait 10000)) (Poll operation)))
        as (ext & Htrace & Hext & Hfinal).
      exists (Wait 10000 :: Poll operation :: ext). split; [|split].
      * rewrite Htrace. unfold push. by rewrite <- !app_assoc.
      * constructor; [by left|]. constructor; [right; eauto|done].
      * apply Hfinal.
  - cbn [poll_loop first_done]. destruct (done operation).
    + exists []. rewrite app_nil_r. cbn [fst snd].
      repeat split; auto; intros; congruence.
    + exists [Wait 10000; Poll operation]. unfold push. cbn [fst snd].
      rewrite <- app_assoc. repeat split; try done.
      apply wait_and_poll.
Qed.

Lemma video_catch_rejects (e : Thrown) :
  exists message, video_catch e = Rejected (ErrorObj message).
Proof. destruct e; cbn; eauto. Qed.

Lemma generateVideo_resolved job prompt image aspectRatio trace url :
  generateVideo job prompt image aspectRatio = (trace, Some (Resolved url)) ->
  exists operation link,
    completed_operation job = Some operation
    /\ Gemini.error operation = None
    /\ uri operation = Some link
    /\ link <> []
    /\ url = link ++ str "&key=" ++ API_KEY.
Proof.
  unfold generateVideo, completed_operation.
  destruct (submitted job) as [operation|e].
  2: { destruct (video_catch_rejects e) as [m ->]. congruence. }
  set (trace0 := push (push _ _) _).
  destruct (poll_loop_spec operation (polled job) trace0)
    as (ext & _ & _ & Hfinal).
  destruct (poll_loop operation (polled job) trace0) as [trace1 [[final|e]|]].
  - pose proof (proj1 (Hfinal final) eq_refl) as Hdone.
    unfold video_finish. destruct (Gemini.error final) as [err|] eqn:Eerr.
    { destruct (video_catch_rejects
                  (ErrorObj (match error_message err with
                             | Some m => if truthy m then m else video_failed
                             | None => video_failed
                             end))) as [m ->]. congruence. }
    destruct (uri final) as [[|c link]|] eqn:Euri; cbn [truthy_opt truthy negb].
    + destruct (video_catch_rejects (ErrorObj (str "Video generation completed, but no download link was found."))) as [m ->]. congruence.
    + intros [= <- <-]. exists final, (c :: link). by repeat split.
    + destruct (video_catch_rejects (ErrorObj (str "Video generation completed, but no download link was found."))) as [m ->]. congruence.
  - destruct (video_catch_rejects e) as [m ->]. congruence.
  - congruence.
Qed.

(** C8: a job that reports not done twice (on submission and at the first
    poll) and done at the second poll makes [generateVideo] wait exactly
    twice, ten seconds each, before it reads the download link and returns
    it (with the key appended); and whenever the operation on which the
    loop ends carries an error, the promise is rejected with that error's
    message (passed through [handleApiError]) and the download link is
    never read. *)
Theorem generateVideo_polling (prompt : JSString) (image : option ImagePart)
    (aspectRatio : VideoAspectRatio) :
  (forall first second third later link,
     done first = false -> done second = false -> done third = true ->
     Gemini.error third = None -> uri third = Some link -> link <> [] ->
     let trace :=
       [Progress (str "Initializing video generation...");
        Submit (video_request prompt image aspectRatio);
        Progress (str "Polling for results, this may take a few minutes...");
        Wait 10000; Poll first; Wait 10000; Poll second;
        ReadDownloadLink] in
     generateVideo {| submitted := Resolved first;
                      polled := Resolved second :: Resolved third :: later |}
                   prompt image aspectRatio
     = (trace, Some (Resolved (link ++ str "&key=" ++ API_KEY)))
     /\ count_waits trace = 2)
  /\ (forall job final err,
        completed_operation job = Some final ->
        Gemini.error final = Some err ->
        exists trace,
          generateVideo job prompt image aspectRatio
          = (trace,
             Some (Rejected
                     (ErrorObj
                        (handleApiError
                           (ErrorObj
                              (match error_message err with
                               | Some m => if truthy m then m else video_failed
                               | None => video_failed
                               end))))))
          /\ ReadDownloadLink ∉ trace).
Proof.
  split.
  - intros first second third later link H1 H2 H3 Herr Huri Hlink trace.
    split; [|reflexivity].
    unfold generateVideo. cbn [submitted polled].
    rewrite poll_loop_unfold, H1, poll_loop_unfold, H2, poll_loop_unfold, H3.
    unfold video_finish. rewrite Herr, Huri.
    destruct link as [|c link]; [done|]. reflexivity.
  - intros job final err Hdone Herr. unfold generateVideo.
    unfold completed_operation in Hdone.
    destruct (submitted job) as [operation|e]; [|done].
    set (trace0 := push (push _ _) _).
    destruct (poll_loop_spec operation (polled job) trace0)
      as (ext & Htrace & Hext & Hfinal).
    apply Hfinal in Hdone.
    destruct (poll_loop operation (polled job) trace0) as [trace1 r].
    cbn [fst snd] in *. subst r trace1.
    unfold video_finish. rewrite Herr. eexists. split; [reflexivity|].
    intros Hin. apply elem_of_app in Hin as [Hin|Hin].
    + unfold trace0, push in Hin. cbn in Hin.
      repeat (apply elem_of_cons in Hin as [Hin|Hin]; [done|]).
      by apply elem_of_nil in Hin.
    + rewrite list.Forall_forall in Hext.
      destruct (Hext _ Hin) as [Hw|[o Hp]]; done.
Qed.

(** C10: whenever [generateVideo] resolves, the string it returns is the
    download URI of the finished operation followed by [&key=] and the API
    key of the process. *)
Theorem generateVideo_url_embeds_api_key job prompt image aspectRatio trace url :
  generateVideo job prompt image aspectRatio = (trace, Some (Resolved url)) ->
  exists operation link,
    completed_operation job = Some operation
    /\ uri operation = Some link
    /\ url = link ++ str "&key=" ++ API_KEY.
Proof.
  intros Hgen.
  destruct (generateVideo_resolved _ _ _ _ _ _ Hgen)
    as (operation & link & Hdone & _ & Huri & _ & Hurl).
  eauto.
Qed.

End Video.

Lemma generateVideo_polling_witness :
  (exists trace,
     @generateVideo Sample.runtime Sample.slow_job (str "A kite over the sea.")
       None V16_9
     = (trace,
        Some (Resolved (str "https://video.example/download?id=7&key=SECRET")))
     /\ count_waits trace = 2)
  /\ (exists trace,
        @generateVideo Sample.runtime Sample.failing_job
          (str "A kite over the sea.") None V16_9
        = (trace, Some (Rejected (ErrorObj (str "The prompt was blocked."))))
        /\ ReadDownloadLink ∉ trace).
Proof.
  pose proof (@generateVideo_polling Sample.runtime (str "A kite over the sea.")
                None V16_9) as [Hwaits Hfail].
  split.
  - eexists. apply (Hwaits Sample.pending Sample.pending Sample.finished []
                      (str "https://video.example/download?id=7"));
      first [ reflexivity | discriminate ].
  - destruct (Hfail Sample.failing_job Sample.failed
                {| error_message := Some (str "The prompt was blocked.") |}
                eq_refl eq_refl) as (trace & Hgen & Hno).
    exists trace. split; [|exact Hno]. rewrite Hgen. vm_compute. reflexivity.
Defined.

Lemma generateVideo_url_embeds_api_key_witness :
  exists operation link,
    completed_operation Sample.slow_job = Some operation
    /\ uri operation = Some link
    /\ str "https://video.example/download?id=7&key=SECRET"
       = link ++ str "&key=" ++ @API_KEY Sample.runtime.
Proof.
  eapply (@generateVideo_url_embeds_api_key Sample.runtime Sample.slow_job
            (str "A kite over the sea.") None V16_9).
  vm_compute. reflexivity.
Defined.

Section HandlerFacts.
Context `{Runtime} `{Collaborators}.

Lemma run_bind {A B} (m : Handler A) (k : A -> Handler B) (w : World) :
  run (m ≫= k) w
  = match run m w with
    | (Returned a, w') => run (k a) w'
    | (Threw e, w') => (Threw e, w')
    end.
Proof. reflexivity. Qed.

Lemma run_update (f : AppState -> AppState) (w : World) :
  run (update f) w = (Returned tt, (f (fst w), snd w)).
Proof. reflexivity. Qed.

(** Runs the state setters at the head of a handler. *)
Ltac run_setters :=
  repeat (rewrite run_bind, run_update; cbn [fst snd]);
  rewrite ?run_update; cbn [fst snd].

Lemma run_await_editImage gw prompt imageParts mask (cur : AppState) log :
  run (await_editImage gw prompt imageParts mask) (cur, log)
  = (match snd (child gw log 0) with
     | Resolved r => Returned r
     | Rejected e => Threw e
     end,
     (cur, log ++ [GenerateContent (editImage_request prompt imageParts mask)])).
Proof.
  unfold await_editImage, request, editImage, child. cbn [run snd fst].
  rewrite Nat.add_0_r.
  destruct (generateContent gw (count_content log)) as [ticks reply].
  cbn [snd]. by destruct (editImage_result reply).
Qed.

Lemma twoStep_branch_step1_failure gw s tr promptToUse primary secondary cur log :
  primaryImageUrl s = Some primary -> primary <> [] ->
  secondaryImageUrl s = Some secondary -> secondary <> [] ->
  produces_image (snd (child gw log 0)) = false ->
  exists e,
    run (twoStep_branch gw s tr promptToUse) (cur, log)
    = (Threw (ErrorObj e),
       (setLoadingMessage (t (str "app.loading.step1")) cur,
        log ++ [GenerateContent
                  (editImage_request promptToUse [imagePart_of primary] None)])).
Proof.
  intros Hp Hpne Hs Hsne Hno. unfold twoStep_branch. rewrite Hp, Hs.
  destruct primary as [|c1 p1]; [done|]. destruct secondary as [|c2 s2]; [done|].
  cbn [truthy negb orb].
  rewrite run_bind, run_update, run_bind, run_await_editImage. cbn [fst snd].
  unfold produces_image in Hno.
  destruct (snd (child gw log 0)) as [r|e] eqn:E.
  - rewrite Hno. cbn [negb]. eauto.
  - unfold child in E. cbn [snd] in E.
    destruct (editImage_result_rejects_with_Error _ _ E) as [m ->]. eauto.
Qed.

(** C7: in the two-step pipeline (a two-step transformation that none of
    the earlier branches takes, with both images present), when the step-1
    [editImage] call produces no image the handler ends with an error
    message and no result, the history is unchanged, and the log holds the
    step-1 request and nothing else: step 2 is never called. *)
Theorem twoStep_stops_after_failed_step1 gw s tr primary secondary log :
  selectedTransformation s = Some tr ->
  key tr <> str "outfitStylist" -> key tr <> str "chibiQrCode" ->
  isMultiStepVideo tr = false -> truthy_number (maxImages tr) = false ->
  isTwoStep tr = true ->
  primaryImageUrl s = Some primary -> primary <> [] ->
  secondaryImageUrl s = Some secondary -> secondary <> [] ->
  produces_image (snd (child gw log 0)) = false ->
  exists s' message,
    run (handleGenerateImage gw s) (s, log)
    = (Returned tt,
       (s', log ++ [GenerateContent
                      (editImage_request
                         (if JS.eqb (prompt tr) (str "CUSTOM")
                          then customPrompt s else prompt tr)
                         [imagePart_of primary] None)]))
    /\ App.error s' = Some message
    /\ generatedContent s' = None
    /\ history s' = history s
    /\ isLoading s' = false.
Proof.
  intros Hsel Hk1 Hk2 Hmsv Hmax Htwo Hp Hpne Hs Hsne Hno.
  unfold handleGenerateImage. rewrite Hsel.
  set (promptToUse := if JS.eqb (prompt tr) (str "CUSTOM") then _ else _).
  assert (Hbody : generate_body gw s tr promptToUse
                  = twoStep_branch gw s tr promptToUse).
  { unfold generate_body, JS.eqb.
    rewrite !bool_decide_eq_false_2 by done.
    rewrite Hmsv, Hmax, Htwo, Hp.
    destruct primary; [done|]. by rewrite andb_false_r. }
  rewrite Hbody.
  run_setters. unfold finally. cbn [run].
  unfold try_catch at 1. cbn [run].
  edestruct (twoStep_branch_step1_failure gw s tr promptToUse primary secondary)
    as [e ->]; try eassumption.
  run_setters. run_setters.
  eexists _, e. split; [reflexivity|]. cbn. auto.
Qed.

Lemma formatBankText_normalized (text : JSString) :
  normalized (formatBankText text).
Proof.
  unfold normalized, formatBankText.
  apply list.Forall_forall. intros c Hc.
  apply list_elem_of_fmap in Hc as (c0 & -> & Hc0).
  apply list_elem_of_filter in Hc0 as [Hrange _].
  destruct (N.eqb_spec c0 272) as [->|Hne]; split; try done; lia.
Qed.

(** C2, as amended: in the payment-QR pipeline, with both images and all
    four fields filled in, exactly one [editImage] request is issued, with
    the two images and no mask; its prompt is the template in which the
    bank name, the account name and the branch are replaced by their
    [formatBankText] forms (free of combining marks and of D WITH STROKE)
    and the account number by the text as typed. *)
Theorem chibiQrCode_one_call_with_normalized_names gw s tr primary secondary log :
  selectedTransformation s = Some tr ->
  key tr = str "chibiQrCode" ->
  primaryImageUrl s = Some primary ->
  secondaryImageUrl s = Some secondary ->
  chibiQrCode_ready s = true ->
  (exists s',
     run (handleGenerateImage gw s) (s, log)
     = (Returned tt,
        (s', log ++ [GenerateContent
                       (editImage_request
                          (replace
                             (replace
                                (replace
                                   (replace (prompt tr) (str "{{bankName}}")
                                            (formatBankText (bankName s)))
                                   (str "{{accountName}}")
                                   (formatBankText (accountName s)))
                                (str "{{accountNumber}}") (accountNumber s))
                             (str "{{branch}}") (formatBankText (branch s)))
                          [imagePart_of primary; imagePart_of secondary]
                          None)])))
  /\ normalized (formatBankText (bankName s))
  /\ normalized (formatBankText (accountName s))
  /\ normalized (formatBankText (branch s)).
Proof.
  intros Hsel Hkey Hp Hs Hready.
  split; [|repeat split; apply formatBankText_normalized].
  unfold handleGenerateImage. rewrite Hsel.
  set (promptToUse := if JS.eqb (prompt tr) (str "CUSTOM") then _ else _).
  assert (Hbody : generate_body gw s tr promptToUse = chibiQrCode_branch gw s tr).
  { unfold generate_body. rewrite Hkey. reflexivity. }
  rewrite Hbody.
  run_setters. unfold finally. cbn [run]. unfold try_catch at 1. cbn [run].
  unfold chibiQrCode_branch. rewrite Hp, Hs, Hready. cbn [negb].
  rewrite run_bind, run_update, run_bind, run_await_editImage. cbn [fst snd].
  fold (chibiQrCode_prompt (prompt tr) s).
  destruct (snd (child gw log 0)) as [r|e].
  - unfold publish. run_setters. run_setters. eexists. reflexivity.
  - run_setters. run_setters. eexists. reflexivity.
Qed.
End HandlerFacts.

Lemma twoStep_stops_after_failed_step1_witness :
  exists s' message,
    run (@handleGenerateImage Sample.runtime Sample.studio
           Sample.first_refused Sample.two_step_session)
        (Sample.two_step_session, [])
    = (Returned tt,
       (s', [GenerateContent
               (editImage_request (str "Turn the image into line art.")
                  [{| base64 := Some (str "QUJD");
                      mimeType := str "image/png" |}] None)]))
    /\ App.error s' = Some message
    /\ generatedContent s' = None
    /\ history s' = []
    /\ isLoading s' = false.
Proof.
  apply (@twoStep_stops_after_failed_step1 Sample.runtime Sample.studio
           Sample.first_refused Sample.two_step_session Sample.lineArtColor
           (Sample.png "QUJD") (Sample.png "REVG") []);
    first [ reflexivity | discriminate ].
Defined.

Lemma chibiQrCode_one_call_with_normalized_names_witness :
  exists s',
    run (@handleGenerateImage Sample.runtime Sample.studio
           Sample.generous Sample.chibi_session)
        (Sample.chibi_session, [])
    = (Returned tt,
       (s', [GenerateContent
               (editImage_request
                  (str "Draw the QR code of VIETCOMBANK, account 0123abc of NGUYEN VAN A, branch HA NOI.")
                  [{| base64 := Some (str "QUJD"); mimeType := str "image/png" |};
                   {| base64 := Some (str "REVG"); mimeType := str "image/png" |}]
                  None)])).
Proof.
  apply (@chibiQrCode_one_call_with_normalized_names Sample.runtime
           Sample.studio Sample.generous Sample.chibi_session
           Sample.chibiQrCode (Sample.png "QUJD") (Sample.png "REVG") []);
    reflexivity.
Defined.

(** C2, as stated, fails for the account number: it reaches the prompt as
    typed, not in its normalized form. *)
Lemma chibiQrCode_account_number_as_typed :
  snd (snd (run (@handleGenerateImage Sample.runtime Sample.studio
                   Sample.generous Sample.chibi_session)
                (Sample.chibi_session, [])))
  = [GenerateContent
       (editImage_request
          (str "Draw the QR code of VIETCOMBANK, account 0123abc of NGUYEN VAN A, branch HA NOI.")
          [{| base64 := Some (str "QUJD"); mimeType := str "image/png" |};
           {| base64 := Some (str "REVG"); mimeType := str "image/png" |}]
          None)]
  /\ accountNumber Sample.chibi_session = str "0123abc"
  /\ @formatBankText Sample.runtime (str "0123abc") = str "0123ABC"
  /\ str "0123abc" <> @formatBankText Sample.runtime (str "0123abc").
Proof. vm_compute. repeat split; discriminate. Qed.

Section Interleaving.

Lemma play_app (task : list (AppState -> AppState)) (before after : list Tick)
    (cur : AppState) :
  play task (before ++ after) cur
  = play (skipn (resumes before) task) after (play task before cur).
Proof.
  revert task cur. induction before as [|[|a] before IH]; intros task cur.
  - reflexivity.
  - cbn [app play resumes]. destruct task as [|step task'].
    + rewrite IH. by rewrite !skipn_nil.
    + rewrite IH. reflexivity.
  - cbn [app play resumes]. apply IH.
Qed.

Lemma play_last_step (prefix : list (AppState -> AppState))
    (final : AppState -> AppState) (before : list Tick) (cur : AppState) :
  resumes before = length prefix ->
  play (prefix ++ [final]) (before ++ [Resume]) cur
  = final (play (prefix ++ [final]) before cur).
Proof.
  intros Hn. rewrite play_app, Hn.
  rewrite skipn_app, Nat.sub_diag, skipn_all. reflexivity.
Qed.

Context `{Runtime} `{Collaborators}.

(** The steps of a video task whose job and download succeed. *)
Lemma handleGenerateVideo_success job fetch s tr trace url response objectUrl :
  selectedTransformation s = Some tr ->
  trim (customPrompt s) <> [] ->
  generateVideo job (customPrompt s)
    (match primaryImageUrl s with
     | Some u => if truthy u then Some (imagePart_of u) else None
     | None => None
     end) (aspectRatio s) = (trace, Some (Resolved url)) ->
  fetch url = Resolved response -> ok response = true ->
  blob response = Resolved objectUrl ->
  handleGenerateVideo job fetch s
  = ((fun cur => setGeneratedContent None
                   (setError None (setIsLoading true cur)))
     :: map on_video_event trace
     ++ [setLoadingMessage (t (str "app.loading.videoFetching"));
         fun cur => cur])
    ++ [video_success (video_result s objectUrl)].
Proof.
  intros Hsel Hprompt Hgen Hfetch Hok Hblob. unfold handleGenerateVideo.
  rewrite Hsel. destruct (trim (customPrompt s)) as [|c p] eqn:E; [done|].
  cbn [truthy negb]. rewrite Hgen. unfold after_generateVideo.
  rewrite Hfetch, Hok, Hblob. cbn [negb].
  rewrite <- app_comm_cons, <- app_assoc. reflexivity.
Qed.

(** C3, as amended: a pending video task is not cancelled by what the
    user does. Whatever resets and returns to the selection are interleaved
    with its steps, once the job and the download have succeeded its last
    step sets the video as the current result and puts it in front of the
    history, with the primary image of the time of the request as its
    original. *)
Theorem video_result_applied_after_any_interleaving
    job fetch s tr trace url response objectUrl (before : list Tick) :
  selectedTransformation s = Some tr ->
  trim (customPrompt s) <> [] ->
  generateVideo job (customPrompt s)
    (match primaryImageUrl s with
     | Some u => if truthy u then Some (imagePart_of u) else None
     | None => None
     end) (aspectRatio s) = (trace, Some (Resolved url)) ->
  fetch url = Resolved response -> ok response = true ->
  blob response = Resolved objectUrl ->
  resumes before = length trace + 3 ->
  let task := handleGenerateVideo job fetch s in
  let final := play task (before ++ [Resume]) s in
  generatedContent final = Some (video_result s objectUrl)
  /\ history final = video_result s objectUrl :: history (play task before s)
  /\ originalImageUrl (video_result s objectUrl) = primaryImageUrl s.
Proof.
  intros Hsel Hprompt Hgen Hfetch Hok Hblob Hn task final.
  subst final task.
  rewrite (handleGenerateVideo_success _ _ _ _ _ _ _ _ Hsel Hprompt Hgen
             Hfetch Hok Hblob).
  rewrite play_last_step.
  - repeat split.
  - cbn [length]. rewrite length_app, length_map. cbn [length]. lia.
Qed.

End Interleaving.

Lemma video_result_applied_after_any_interleaving_witness :
  let task := @handleGenerateVideo Sample.runtime Sample.studio
                Sample.slow_job Sample.download Sample.video_session in
  let final := play task (Sample.reset_while_polling ++ [Resume]) Sample.video_session in
  generatedContent final
  = Some (video_result Sample.video_session (str "blob:studio/41"))
  /\ history final
     = video_result Sample.video_session (str "blob:studio/41")
       :: history (play task Sample.reset_while_polling Sample.video_session)
  /\ originalImageUrl (video_result Sample.video_session (str "blob:studio/41"))
     = Some (Sample.png "QUJD").
Proof.
  eapply (@video_result_applied_after_any_interleaving Sample.runtime
            Sample.studio Sample.slow_job Sample.download Sample.video_session
            Sample.videoGeneration);
    first [ reflexivity | discriminate | vm_compute; reflexivity ].
Defined.

(** C3, as stated, fails: the session is reset while the job is being
    polled, the task runs on, and the late video becomes the current
    result of the reset session. *)
Lemma video_result_applied_after_reset :
  let task := @handleGenerateVideo Sample.runtime Sample.studio
                Sample.slow_job Sample.download Sample.video_session in
  let at_reset :=
    play task (repeat Resume 6 ++ [User ResetApp]) Sample.video_session in
  let final :=
    play task (repeat Resume 6 ++ [User ResetApp] ++ repeat Resume 6)
         Sample.video_session in
  generatedContent at_reset = None
  /\ selectedTransformation final = None
  /\ primaryImageUrl final = None
  /\ generatedContent final <> generatedContent at_reset
  /\ videoUrl <$> generatedContent final = Some (Some (str "blob:studio/41"))
  /\ length (history final) = 1.
Proof. vm_compute. repeat split; discriminate. Qed.


(* ===================================================================== *)
(** ** Properties of the login *)
(* ===================================================================== *)

Module LoginFacts.
Import Login.

(** Arithmetic on code units with division by constants. *)
Ltac units := zify; Z.to_euclidean_division_equations; lia.

Section HexCodes.

Lemma below_16 (d : N) :
  (d < 16)%N ->
  In d [0; 1; 2; 3; 4; 5; 6; 7; 8; 9; 10; 11; 12; 13; 14; 15]%N.
Proof. intros Hd. cbn. lia. Qed.

(** Splits a goal about a hexadecimal digit into its sixteen cases. *)
Ltac each_digit H :=
  apply below_16 in H; cbn [In] in H;
  repeat (destruct H as [<-|H]; [|]); [..|destruct H].

Lemma hex_of_hex_digit (d : N) : (d < 16)%N -> Json.hex (hex_digit d) = Some d.
Proof. intros Hd. each_digit Hd; reflexivity. Qed.

Lemma hex_of_HEX (d : N) : (d < 16)%N -> Json.hex (HEX d) = Some d.
Proof. intros Hd. each_digit Hd; reflexivity. Qed.

Lemma unescape_percent_digits (x y : N) (r : JSString) :
  (x < 16)%N -> (y < 16)%N ->
  unescape (37%N :: HEX x :: HEX y :: r) = (x * 16 + y)%N :: unescape r.
Proof. intros Hx Hy. each_digit Hx; each_digit Hy; reflexivity. Qed.

Lemma split_octet (o : N) :
  (o < 256)%N -> (o / 16 < 16)%N /\ (o mod 16 < 16)%N
                 /\ (o / 16 * 16 + o mod 16 = o)%N.
Proof. intros Ho. units. Qed.

Lemma fold_left_append {A} (f : A -> JSString) (s : list A) (acc : JSString) :
  fold_left (fun hex c => hex ++ f c) s acc = acc ++ concat (map f s).
Proof.
  revert acc. induction s as [|c s IH]; intros acc; cbn.
  - by rewrite app_nil_r.
  - rewrite IH. by rewrite <- app_assoc.
Qed.

(** The loop appends the padded hexadecimal code of each code unit. *)
Lemma hex_loop_concat (s : JSString) :
  hex_loop s = concat (map (fun c => padStart2 (toString16 c)) s).
Proof. unfold hex_loop. by rewrite fold_left_append. Qed.

(** An octet goes out as exactly two digits. *)
Lemma octet_two_digits (o : N) :
  (o < 256)%N ->
  padStart2 (toString16 o) = [hex_digit (o / 16); hex_digit (o mod 16)].
Proof.
  intros Ho. unfold toString16.
  destruct (N.ltb_spec o 16) as [Hs|Hs].
  - rewrite N.div_small, N.mod_small by done. reflexivity.
  - destruct (N.ltb_spec o 256); [reflexivity | lia].
Qed.

Lemma hex_loop_octets (octets : list N) :
  Forall (fun o => (o < 256)%N) octets ->
  hex_loop octets
  = concat (map (fun o => [hex_digit (o / 16); hex_digit (o mod 16)]) octets).
Proof.
  intros Hall. rewrite hex_loop_concat. f_equal.
  induction Hall as [|o octets Ho Hall IH]; [done|].
  cbn [map]. by rewrite IH, octet_two_digits.
Qed.

Lemma unhex_octets (octets : list N) :
  Forall (fun o => (o < 256)%N) octets ->
  unhex (concat (map (fun o => [hex_digit (o / 16); hex_digit (o mod 16)])
                     octets)) = octets.
Proof.
  induction 1 as [|o octets Ho Hall IH]; [done|].
  destruct (split_octet o Ho) as (Hhi & Hlo & Heq).
  cbn [map concat app unhex].
  by rewrite (hex_of_hex_digit _ Hhi), (hex_of_hex_digit _ Hlo), IH, Heq.
Qed.

Lemma unescape_percent (octets : list N) (r : JSString) :
  Forall (fun o => (o < 256)%N) octets ->
  unescape (concat (map percent octets) ++ r) = octets ++ unescape r.
Proof.
  induction 1 as [|o octets Ho Hall IH]; [done|].
  destruct (split_octet o Ho) as (Hhi & Hlo & Heq).
  cbn [map concat]. unfold percent at 1. cbn [app].
  rewrite unescape_percent_digits by done. by rewrite IH, Heq.
Qed.

(** Code points and their octets. *)
Lemma utf8_octets (cp : N) :
  (cp < 1114112)%N -> Forall (fun o => (o < 256)%N) (utf8 cp).
Proof.
  intros Hcp. unfold utf8.
  destruct (N.ltb_spec cp 128); [repeat constructor; lia|].
  destruct (N.ltb_spec cp 2048); [repeat constructor; units|].
  destruct (N.ltb_spec cp 65536); repeat constructor; units.
Qed.

Lemma utf8_decode_step (fuel : nat) (cp : N) (r : list N) :
  (cp < 1114112)%N ->
  utf8_decode (S fuel) (utf8 cp ++ r) = cp :: utf8_decode fuel r.
Proof.
  intros Hcp. unfold utf8.
  destruct (N.ltb_spec cp 128) as [H1|H1].
  { cbn [app utf8_decode]. by destruct (N.ltb_spec cp 128); [|lia]. }
  destruct (N.ltb_spec cp 2048) as [H2|H2].
  { cbn [app utf8_decode].
    destruct (N.ltb_spec (192 + cp / 64) 128); [units|].
    destruct (N.ltb_spec (192 + cp / 64) 224); [|units].
    f_equal. units. }
  destruct (N.ltb_spec cp 65536) as [H3|H3].
  { cbn [app utf8_decode].
    destruct (N.ltb_spec (224 + cp / 4096) 128); [units|].
    destruct (N.ltb_spec (224 + cp / 4096) 224); [units|].
    destruct (N.ltb_spec (224 + cp / 4096) 240); [|units].
    f_equal. units. }
  cbn [app utf8_decode].
  destruct (N.ltb_spec (240 + cp / 262144) 128); [units|].
  destruct (N.ltb_spec (240 + cp / 262144) 224); [units|].
  destruct (N.ltb_spec (240 + cp / 262144) 240); [units|].
  f_equal. units.
Qed.

Lemma utf8_decode_all (cps : list N) (fuel : nat) :
  Forall (fun cp => (cp < 1114112)%N) cps ->
  length cps <= fuel ->
  utf8_decode fuel (concat (map utf8 cps)) = cps.
Proof.
  intros Hall. revert fuel.
  induction Hall as [|cp cps Hcp Hall IH]; intros fuel Hfuel.
  - by destruct fuel.
  - destruct fuel as [|fuel]; [cbn in Hfuel; lia|].
    cbn [map concat]. rewrite utf8_decode_step by done.
    rewrite IH; [done|]. cbn in Hfuel. lia.
Qed.

Lemma utf8_nonempty (cp : N) : 1 <= length (utf8 cp).
Proof.
  unfold utf8. repeat (destruct (N.ltb _ _)); cbn; lia.
Qed.

Lemma length_utf8_all (cps : list N) :
  length cps <= length (concat (map utf8 cps)).
Proof.
  induction cps as [|cp cps IH]; [done|].
  cbn [map concat]. rewrite length_app. pose proof (utf8_nonempty cp).
  cbn [length]. lia.
Qed.

End HexCodes.


Section Passwords.

Lemma unreserved_plain (c : CodeUnit) :
  unreserved c = true ->
  (c < 128)%N /\ c <> 37%N
  /\ is_high_surrogate c = false /\ is_low_surrogate c = false.
Proof.
  unfold unreserved, is_high_surrogate, is_low_surrogate.
  rewrite !orb_true_iff, !andb_true_iff, !N.leb_le, !N.eqb_eq.
  intros Hc. repeat split; try lia.
  - apply andb_false_iff. rewrite !N.leb_gt. lia.
  - apply andb_false_iff. rewrite !N.leb_gt. lia.
Qed.

Lemma unescape_plain (c : CodeUnit) (r : JSString) :
  c <> 37%N -> unescape (c :: r) = c :: unescape r.
Proof.
  intros Hc. destruct c as [|p]; [reflexivity|].
  do 6 (try (destruct p as [p|p|]; try reflexivity)). done.
Qed.

Lemma utf16_pair (hi lo : CodeUnit) :
  is_high_surrogate hi = true -> is_low_surrogate lo = true ->
  (pair_code_point hi lo < 1114112)%N
  /\ utf16 (pair_code_point hi lo) = [hi; lo].
Proof.
  unfold is_high_surrogate, is_low_surrogate, pair_code_point, utf16.
  rewrite !andb_true_iff, !N.leb_le. intros [H1 H2] [H3 H4].
  split; [lia|].
  destruct (N.ltb_spec ((hi - 55296) * 1024 + (lo - 56320) + 65536) 65536);
    [lia|].
  f_equal; [|f_equal]; units.
Qed.

Lemma not_surrogate_bounds (c : CodeUnit) :
  is_high_surrogate c = false -> is_low_surrogate c = false ->
  ~ surrogate c.
Proof.
  unfold is_high_surrogate, is_low_surrogate, surrogate.
  rewrite !andb_false_iff, !N.leb_gt. lia.
Qed.

(** On a well-formed string [encodeURIComponent] succeeds, [unescape]
    turns its output into the UTF-8 octets, and the code points give the
    string back. *)
Lemma well_formed_spec (n : nat) :
  forall (s : JSString) (cps : list N),
    length s < n -> code_units s -> code_points s = Some cps ->
    Forall (fun cp => (cp < 1114112)%N) cps
    /\ concat (map utf16 cps) = s
    /\ exists encoded,
         encodeURIComponent s = Some encoded
         /\ unescape encoded = concat (map utf8 cps).
Proof.
  induction n as [|n IH]; intros s cps Hlen Hunits Hcps; [lia|].
  destruct s as [|c s]; cbn [code_points] in Hcps.
  { injection Hcps as <-. repeat split; [constructor|]. by exists []. }
  apply Forall_cons in Hunits as [Hc Hunits]. cbn [length] in Hlen.
  cbn [encodeURIComponent].
  destruct (is_high_surrogate c) eqn:Ehi.
  - assert (Hnot : unreserved c = false).
    { destruct (unreserved c) eqn:E; [|done].
      apply unreserved_plain in E. destruct E as (_ & _ & E & _). congruence. }
    rewrite Hnot. destruct s as [|d s]; [done|].
    destruct (is_low_surrogate d) eqn:Elo; [|done].
    destruct (code_points s) as [cps'|] eqn:Ecps; [|done].
    injection Hcps as <-.
    apply Forall_cons in Hunits as [Hd Hunits]. cbn [length] in Hlen.
    destruct (IH s cps' ltac:(lia) Hunits Ecps)
      as (Hall & Hback & encoded & Henc & Hun).
    destruct (utf16_pair c d Ehi Elo) as [Hcp Hpair].
    split; [by constructor|]. split.
    { cbn [map concat]. by rewrite Hpair, Hback. }
    rewrite Henc. eexists. split; [reflexivity|].
    rewrite unescape_percent by (by apply utf8_octets).
    cbn [map concat]. by rewrite Hun.
  - destruct (is_low_surrogate c) eqn:Elo.
    { destruct (unreserved c) eqn:E; [|done].
      apply unreserved_plain in E. destruct E as (_ & _ & _ & E). congruence. }
    destruct (code_points s) as [cps'|] eqn:Ecps; [|done].
    injection Hcps as <-.
    destruct (IH s cps' ltac:(lia) Hunits Ecps)
      as (Hall & Hback & encoded & Henc & Hun).
    assert (Hutf16 : utf16 c = [c]).
    { unfold utf16. by destruct (N.ltb_spec c 65536); [|lia]. }
    split; [constructor; [lia|done]|]. split.
    { cbn [map concat]. by rewrite Hutf16, Hback. }
    rewrite Henc. destruct (unreserved c) eqn:E.
    + apply unreserved_plain in E. destruct E as (Hascii & H37 & _).
      eexists. split; [reflexivity|].
      rewrite unescape_plain by done. cbn [map concat].
      unfold utf8 at 1. destruct (N.ltb_spec c 128); [|lia].
      by rewrite Hun.
    + eexists. split; [reflexivity|].
      rewrite unescape_percent by (apply utf8_octets; lia).
      cbn [map concat]. by rewrite Hun.
Qed.

(** On any other string [encodeURIComponent] throws, and the string holds
    a surrogate. *)
Lemma ill_formed_spec (n : nat) :
  forall s : JSString,
    length s < n -> code_points s = None ->
    encodeURIComponent s = None /\ Exists surrogate s.
Proof.
  induction n as [|n IH]; intros s Hlen Hcps; [lia|].
  destruct s as [|c s]; cbn [code_points] in Hcps; [done|].
  cbn [length] in Hlen. cbn [encodeURIComponent].
  assert (Hsur : is_high_surrogate c = true \/ is_low_surrogate c = true ->
                 unreserved c = false /\ surrogate c).
  { intros Hs. split.
    - destruct (unreserved c) eqn:E; [|done].
      apply unreserved_plain in E. destruct E as (_ & _ & E1 & E2).
      destruct Hs; congruence.
    - unfold is_high_surrogate, is_low_surrogate, surrogate in *.
      rewrite !andb_true_iff, !N.leb_le in Hs. lia. }
  destruct (is_high_surrogate c) eqn:Ehi.
  - destruct (Hsur ltac:(auto)) as [-> Hc].
    destruct s as [|d s]; [split; [done|by left]|].
    destruct (is_low_surrogate d) eqn:Elo; [|split; [done|by left]].
    destruct (code_points s) as [cps'|] eqn:Ecps; [done|].
    cbn [length] in Hlen.
    destruct (IH s ltac:(lia) Ecps) as [-> Hex].
    split; [done|]. by do 2 right.
  - destruct (is_low_surrogate c) eqn:Elo.
    + destruct (Hsur ltac:(auto)) as [-> Hc]. split; [done|by left].
    + destruct (code_points s) as [cps'|] eqn:Ecps; [done|].
      destruct (IH s ltac:(lia) Ecps) as [-> Hex].
      split; [by destruct (unreserved c)|by right].
Qed.

Lemma stringToHex_well_formed (s : JSString) (cps : list N) :
  code_units s -> code_points s = Some cps ->
  stringToHex s
  = concat (map (fun o => [hex_digit (o / 16); hex_digit (o mod 16)])
                (concat (map utf8 cps)))
  /\ Forall (fun cp => (cp < 1114112)%N) cps
  /\ concat (map utf16 cps) = s.
Proof.
  intros Hunits Hcps.
  destruct (well_formed_spec (S (length s)) s cps ltac:(lia) Hunits Hcps)
    as (Hall & Hback & encoded & Henc & Hun).
  split; [|done]. unfold stringToHex. rewrite Henc, Hun.
  apply hex_loop_octets. clear -Hall.
  induction Hall as [|cp cps Hcp Hall IH]; [constructor|].
  cbn [map concat]. apply Forall_app. split; [by apply utf8_octets|done].
Qed.

Lemma stringFromHex_stringToHex (s : JSString) (cps : list N) :
  code_units s -> code_points s = Some cps ->
  stringFromHex (stringToHex s) = s.
Proof.
  intros Hunits Hcps.
  destruct (stringToHex_well_formed s cps Hunits Hcps) as (-> & Hall & Hback).
  unfold stringFromHex. rewrite unhex_octets.
  - rewrite utf8_decode_all; [done|done|apply length_utf8_all].
  - clear -Hall. induction Hall as [|cp cps Hcp Hall IH]; [constructor|].
    cbn [map concat]. apply Forall_app. split; [by apply utf8_octets|done].
Qed.

(** The code of a surrogate shows in whatever text contains it. *)
Lemma has_surrogate_code_cons (x : CodeUnit) (h : JSString) :
  has_surrogate_code h = true -> has_surrogate_code (x :: h) = true.
Proof.
  intros Hh. destruct h as [|y h]; [done|].
  change (has_surrogate_code (x :: y :: h))
    with ((N.eqb x 100
           && (N.eqb y 56 || N.eqb y 57 || (N.leb 97 y && N.leb y 102)))
          || has_surrogate_code (y :: h)).
  rewrite Hh. apply orb_true_r.
Qed.

Lemma has_surrogate_code_prefix (h r : JSString) :
  has_surrogate_code h = true -> has_surrogate_code (h ++ r) = true.
Proof.
  induction h as [|x h IH]; [done|].
  destruct h as [|y h]; [done|].
  change (has_surrogate_code (x :: y :: h))
    with ((N.eqb x 100
           && (N.eqb y 56 || N.eqb y 57 || (N.leb 97 y && N.leb y 102)))
          || has_surrogate_code (y :: h)).
  change (has_surrogate_code ((x :: y :: h) ++ r))
    with ((N.eqb x 100
           && (N.eqb y 56 || N.eqb y 57 || (N.leb 97 y && N.leb y 102)))
          || has_surrogate_code ((y :: h) ++ r)).
  rewrite !orb_true_iff. intros [H|H]; [by left|right; auto].
Qed.

Lemma has_surrogate_code_app (a b c : JSString) :
  has_surrogate_code b = true -> has_surrogate_code (a ++ b ++ c) = true.
Proof.
  intros Hb. induction a as [|x a IH].
  - cbn [app]. by apply has_surrogate_code_prefix.
  - cbn [app]. by apply has_surrogate_code_cons.
Qed.

Lemma surrogate_code (c : CodeUnit) :
  surrogate c -> has_surrogate_code (padStart2 (toString16 c)) = true.
Proof.
  intros Hc. unfold surrogate in Hc. unfold toString16.
  destruct (N.ltb_spec c 16); [lia|]. destruct (N.ltb_spec c 256); [lia|].
  destruct (N.ltb_spec c 4096); [lia|].
  assert (Hlead : (c / 4096 = 13)%N) by units.
  assert (Hnext : (8 <= (c / 256) mod 16 < 16)%N) by units.
  rewrite Hlead. cbn [padStart2 length repeat app has_surrogate_code Nat.sub].
  assert (Hd : In ((c / 256) mod 16)%N [8; 9; 10; 11; 12; 13; 14; 15]%N)
    by (cbn; lia).
  cbn [In] in Hd.
  repeat (destruct Hd as [<-|Hd]; [reflexivity|]). destruct Hd.
Qed.

Lemma fallback_has_surrogate_code (s : JSString) :
  Exists surrogate s ->
  has_surrogate_code (concat (map (fun c => padStart2 (toString16 c)) s))
  = true.
Proof.
  induction 1 as [c s Hc|c s Hex IH]; cbn [map concat].
  - rewrite <- (app_nil_l (padStart2 _ ++ _)).
    apply has_surrogate_code_app. by apply surrogate_code.
  - rewrite <- (app_nil_r (concat _)).
    by apply has_surrogate_code_app.
Qed.

End Passwords.


Section LoginTheorems.

Lemma octets_of_code_points (cps : list N) :
  Forall (fun cp => (cp < 1114112)%N) cps ->
  Forall (fun o => (o < 256)%N) (concat (map utf8 cps)).
Proof.
  induction 1 as [|cp cps Hcp Hall IH]; [constructor|].
  cbn [map concat]. apply Forall_app. split; [by apply utf8_octets|done].
Qed.

Lemma length_two_digits (octets : list N) :
  length (concat (map (fun o => [hex_digit (o / 16); hex_digit (o mod 16)])
                      octets)) = 2 * length octets.
Proof. induction octets as [|o octets IH]; cbn in *; lia. Qed.

(** X1: on a well-formed string (no surrogate without its partner)
    [stringToHex] returns the UTF-8 octets of the string, each as two
    lower-case hexadecimal digits, so twice as many digits as octets. *)
Theorem stringToHex_utf8 (s : JSString) (cps : list N) :
  code_units s -> code_points s = Some cps ->
  stringToHex s
  = concat (map (fun o => [hex_digit (o / 16); hex_digit (o mod 16)])
                (concat (map utf8 cps)))
  /\ length (stringToHex s) = 2 * length (concat (map utf8 cps)).
Proof.
  intros Hunits Hcps.
  destruct (stringToHex_well_formed s cps Hunits Hcps) as (Heq & _ & _).
  split; [done|]. rewrite Heq. apply length_two_digits.
Qed.

(** X2: the hexadecimal text determines the string: reading it back gives
    the string, so two well-formed strings with the same text are equal. *)
Theorem stringToHex_injective (s s' : JSString) (cps cps' : list N) :
  code_units s -> code_points s = Some cps ->
  code_units s' -> code_points s' = Some cps' ->
  stringFromHex (stringToHex s) = s
  /\ (stringToHex s = stringToHex s' -> s = s').
Proof.
  intros Hunits Hcps Hunits' Hcps'.
  pose proof (stringFromHex_stringToHex s cps Hunits Hcps) as Hback.
  pose proof (stringFromHex_stringToHex s' cps' Hunits' Hcps') as Hback'.
  split; [done|]. intros Heq. rewrite <- Hback, <- Hback'. by rewrite Heq.
Qed.

(** X3: a string with a surrogate that has no partner does not make
    [stringToHex] fail: the result is the hexadecimal code of each code
    unit, two to four digits, among them the code of a surrogate. Texts of
    that kind no longer tell strings apart. *)
Theorem stringToHex_fallback (s : JSString) :
  code_points s = None ->
  stringToHex s = concat (map (fun c => padStart2 (toString16 c)) s)
  /\ has_surrogate_code (stringToHex s) = true
  /\ stringToHex [18; 837; 55296]%N = stringToHex [291; 69; 55296]%N.
Proof.
  intros Hcps.
  destruct (ill_formed_spec (S (length s)) s ltac:(lia) Hcps) as [Henc Hex].
  assert (Heq : stringToHex s
                = concat (map (fun c => padStart2 (toString16 c)) s)).
  { unfold stringToHex. rewrite Henc. apply hex_loop_concat. }
  split; [done|]. split; [|reflexivity].
  rewrite Heq. by apply fallback_has_surrogate_code.
Qed.

Lemma passwords_authenticate :
  forallb isAuthenticated passwords = true.
Proof. vm_compute. reflexivity. Qed.

Lemma passwords_of_list :
  map stringFromHex (map toLowerCase ALLOWED_HEX_PASSWORDS) = passwords.
Proof. vm_compute. reflexivity. Qed.

Lemma list_without_surrogate_code :
  forallb (fun h => negb (has_surrogate_code h))
          (map toLowerCase ALLOWED_HEX_PASSWORDS) = true.
Proof. vm_compute. reflexivity. Qed.

(** A password is accepted exactly when it is one of the fifteen. *)
Lemma isAuthenticated_iff (p : JSString) :
  code_units p -> isAuthenticated p = true <-> In p passwords.
Proof.
  intros Hunits. split.
  - unfold isAuthenticated. intros Hex.
    apply existsb_exists in Hex as (h & Hin & Heq).
    apply bool_decide_eq_true in Heq.
    assert (Hlow : In (toLowerCase h) (map toLowerCase ALLOWED_HEX_PASSWORDS))
      by (by apply in_map).
    destruct (code_points p) as [cps|] eqn:Hcps.
    + rewrite <- passwords_of_list.
      rewrite <- (stringFromHex_stringToHex p cps Hunits Hcps), <- Heq.
      by apply in_map.
    + destruct (ill_formed_spec (S (length p)) p ltac:(lia) Hcps)
        as [Henc Hsur].
      pose proof list_without_surrogate_code as Hnone.
      rewrite forallb_forall in Hnone. specialize (Hnone _ Hlow).
      rewrite Heq in Hnone. unfold stringToHex in Hnone.
      rewrite Henc, hex_loop_concat in Hnone.
      by rewrite fallback_has_surrogate_code in Hnone.
  - intros Hin. pose proof passwords_authenticate as Hall.
    rewrite forallb_forall in Hall. by apply Hall.
Qed.

(** X4: [handleSubmit] lets the user in exactly when the password is one
    of the fifteen strings behind the list, spelt exactly (case and
    composed accents included); any other password, well-formed or not, is
    answered with the error message and an emptied field. *)
Theorem handleSubmit_accepts_listed (t : JSString -> JSString)
    (s : LoginState) :
  code_units (password s) ->
  (In (password s) passwords ->
   handleSubmit t s
   = {| password := password s; error := None; loggedIn := true |})
  /\ (~ In (password s) passwords ->
      handleSubmit t s
      = {| password := []; error := Some (t (str "login.error"));
           loggedIn := loggedIn s |}).
Proof.
  intros Hunits. unfold handleSubmit. split; intros Hin.
  - by rewrite (proj2 (isAuthenticated_iff _ Hunits) Hin).
  - destruct (isAuthenticated (password s)) eqn:E; [|done].
    by apply (isAuthenticated_iff _ Hunits) in E.
Qed.

End LoginTheorems.

Lemma stringToHex_utf8_witness :
  stringToHex (str "chu" ++ [7889%N] ++ str "i")
  = str "636875e1bb9169"
  /\ length (stringToHex (str "chu" ++ [7889%N] ++ str "i")) = 14.
Proof.
  apply (stringToHex_utf8 (str "chu" ++ [7889%N] ++ str "i")
           [99; 104; 117; 7889; 105]%N).
  - repeat constructor.
  - reflexivity.
Defined.

Lemma stringToHex_injective_witness :
  stringFromHex (stringToHex [55357; 56832]%N) = [55357; 56832]%N
  /\ (stringToHex [55357; 56832]%N = stringToHex (str "admin") ->
      [55357; 56832]%N = str "admin").
Proof.
  apply (stringToHex_injective [55357; 56832]%N (str "admin")
           [128512%N] [97; 100; 109; 105; 110]%N).
  - repeat constructor.
  - reflexivity.
  - repeat constructor.
  - reflexivity.
Defined.

Lemma stringToHex_fallback_witness :
  stringToHex [97; 55357]%N = str "61d83d"
  /\ has_surrogate_code (stringToHex [97; 55357]%N) = true
  /\ stringToHex [18; 837; 55296]%N = stringToHex [291; 69; 55296]%N.
Proof. apply (stringToHex_fallback [97; 55357]%N). reflexivity. Defined.

Lemma handleSubmit_accepts_listed_witness :
  handleSubmit (fun k => k)
    {| password := str "admin"; error := None; loggedIn := false |}
  = {| password := str "admin"; error := None; loggedIn := true |}
  /\ handleSubmit (fun k => k)
       {| password := str "Admin"; error := None; loggedIn := false |}
     = {| password := []; error := Some (str "login.error");
          loggedIn := false |}.
Proof.
  split.
  - apply (proj1 (handleSubmit_accepts_listed (fun k => k)
                    {| password := str "admin"; error := None;
                       loggedIn := false |} ltac:(repeat constructor))).
    cbn. tauto.
  - apply (proj2 (handleSubmit_accepts_listed (fun k => k)
                    {| password := str "Admin"; error := None;
                       loggedIn := false |} ltac:(repeat constructor))).
    cbn. intros H. repeat (destruct H as [H|H]; [discriminate H|]). done.
Defined.

End LoginFacts.

(* ===================================================================== *)
(** ** Properties of editImage and of the error translation *)
(* ===================================================================== *)

Module GeminiFacts.
Import Gemini GeminiTerms.

Section Collecting.
Context `{Runtime}.

Lemma join_snoc (sep : JSString) (ts : list JSString) (t : JSString) :
  ts <> [] -> join sep (ts ++ [t]) = join sep ts ++ sep ++ t.
Proof.
  induction ts as [|x ts IH]; [done|]. intros _.
  destruct ts as [|y ts]; [reflexivity|].
  change (join sep ((x :: y :: ts) ++ [t]))
    with (x ++ sep ++ join sep ((y :: ts) ++ [t])).
  rewrite IH by done.
  change (join sep (x :: y :: ts)) with (x ++ sep ++ join sep (y :: ts)).
  by rewrite <- !app_assoc.
Qed.

Lemma join_truthy (sep : JSString) (ts : list JSString) :
  ts <> [] -> Forall (fun t => truthy t = true) ts ->
  truthy (join sep ts) = true.
Proof.
  destruct ts as [|x ts]; [done|]. intros _ Hall.
  apply Forall_cons in Hall as [Hx _].
  destruct x as [|c x]; [done|]. by destruct ts.
Qed.

(** What the loop over the parts has gathered after any number of parts. *)
Lemma collect_parts (ps : list ResponsePart) (ts : list JSString)
    (bs : list Blob) :
  Forall (fun t => truthy t = true) ts ->
  fold_left collect_part ps
    {| imageUrl := data_url <$> last bs;
       text := match ts with [] => None | _ => Some (join [10%N] ts) end;
       videoUrl := None; originalImageUrl := None;
       secondaryImageUrl := None |}
  = {| imageUrl := data_url <$> last (bs ++ images ps);
       text := match ts ++ texts ps with
               | [] => None
               | l => Some (join [10%N] l)
               end;
       videoUrl := None; originalImageUrl := None;
       secondaryImageUrl := None |}.
Proof.
  revert ts bs. induction ps as [|p ps IH]; intros ts bs Hts.
  { cbn [fold_left]. change (images []) with (@nil Blob).
    change (texts []) with (@nil JSString). rewrite !app_nil_r.
    by destruct ts. }
  cbn [fold_left]. unfold collect_part at 2. unfold texts, images.
  cbn [omap list_omap]. fold (texts ps). fold (images ps).
  destruct (part_text p) as [t|] eqn:Et; cbn [truthy_opt].
  - destruct (truthy t) eqn:Ett.
    + cbn [imageUrl text videoUrl originalImageUrl secondaryImageUrl
           interpolate].
      assert (Hacc :
        Some ((match match ts with
                     | [] => None
                     | _ => Some (join [10%N] ts)
                     end with
               | Some t0 => if truthy t0 then t0 ++ [10%N] else []
               | None => []
               end) ++ t)
        = match ts ++ [t] with
          | [] => None
          | _ => Some (join [10%N] (ts ++ [t]))
          end).
      { destruct ts as [|x ts]; [reflexivity|].
        rewrite join_truthy by done. rewrite join_snoc by done.
        cbn [app]. by rewrite <- app_assoc. }
      rewrite Hacc, IH.
      * by rewrite <- app_assoc.
      * apply Forall_app. split; [done|]. by repeat constructor.
    + destruct (part_inlineData p) as [b|].
      * cbn [imageUrl text videoUrl originalImageUrl secondaryImageUrl].
        change (Some (str "data:" ++ interpolate (blob_mimeType b)
                      ++ str ";base64," ++ interpolate (blob_data b)))
          with (Some (data_url b)).
        replace (Some (data_url b)) with (data_url <$> last (bs ++ [b]))
          by (by rewrite last_snoc).
        rewrite IH by done. by rewrite <- app_assoc.
      * by apply IH.
  - destruct (part_inlineData p) as [b|].
    + cbn [imageUrl text videoUrl originalImageUrl secondaryImageUrl].
      change (Some (str "data:" ++ interpolate (blob_mimeType b)
                    ++ str ";base64," ++ interpolate (blob_data b)))
        with (Some (data_url b)).
      replace (Some (data_url b)) with (data_url <$> last (bs ++ [b]))
        by (by rewrite last_snoc).
      rewrite IH by done. by rewrite <- app_assoc.
    + by apply IH.
Qed.

(** The result that [editImage] has gathered when the loop ends. *)
Lemma gathered (response : ContentResponse) :
  match first_candidate response ≫= content_parts with
  | Some ps => fold_left collect_part ps empty_content
  | None => empty_content
  end
  = {| imageUrl := data_url <$> last (images (response_parts response));
       text := match texts (response_parts response) with
               | [] => None
               | l => Some (join [10%N] l)
               end;
       videoUrl := None; originalImageUrl := None;
       secondaryImageUrl := None |}.
Proof.
  unfold response_parts.
  destruct (first_candidate response ≫= content_parts) as [ps|];
    [|reflexivity].
  apply (collect_parts ps [] []). constructor.
Qed.

(** X5: [editImage] succeeds exactly when the first candidate has inline
    data in a part without text. The image returned is the last such part;
    the text is the texts of the response joined by newlines, or [null]
    when there is none. *)
Theorem editImage_gathers_the_response (response : ContentResponse) :
  (images (response_parts response) = [] ->
   exists message,
     editImage_result (Resolved response) = Rejected (ErrorObj message))
  /\ (forall b,
        last (images (response_parts response)) = Some b ->
        editImage_result (Resolved response)
        = Resolved
            {| imageUrl := Some (data_url b);
               text := match texts (response_parts response) with
                       | [] => None
                       | l => Some (join [10%N] l)
                       end;
               videoUrl := None; originalImageUrl := None;
               secondaryImageUrl := None |}).
Proof.
  unfold editImage_result. rewrite gathered. cbn [imageUrl]. split.
  - intros ->. cbn. eauto.
  - intros b ->. cbn [fmap option_fmap option_map truthy_opt].
    reflexivity.
Qed.

End Collecting.

Lemma skip_ws_suffix (s : JSString) (c : N) :
  In c (Json.skip_ws s) -> In c s.
Proof.
  induction s as [|x s IH]; [done|]. cbn [Json.skip_ws].
  destruct (Json.is_ws x); [right; auto | done].
Qed.

(** Only a text that starts, after white space, with a brace parses as an
    object. *)
Lemma parse_value_object (fuel : nat) (s : JSString)
    (ms : list (JSString * Json.value)) (r : JSString) :
  Json.parse_value fuel s = Some (Json.JObj ms, r) ->
  exists rest, Json.skip_ws s = 123%N :: rest.
Proof.
  destruct fuel as [|fuel]; [done|]. cbn [Json.parse_value].
  destruct (Json.skip_ws s) as [|c rest]; [done|].
  destruct (N.eq_dec c 123%N) as [->|Hne]; [eauto|].
  intros Hparse. exfalso. revert Hparse.
  repeat (case_match; try done); unfold option_map;
    repeat (case_match; try done); intros; simplify_eq.
Qed.

Section Messages.
Context `{Runtime}.

Lemma indexOf_found (s : JSString) (c : N) (i : nat) :
  indexOf s [c] = Some i -> In c s.
Proof.
  revert i. induction s as [|x s IH]; intros i E; [done|].
  cbn [indexOf is_prefix] in E.
  destruct (N.eqb_spec c x) as [<-|Hne]; [by left|].
  cbn [andb] in E. destruct (indexOf s [c]) as [j|] eqn:Ej; [|done].
  right. by eapply IH.
Qed.

Lemma handleApiError_plain (message : JSString) :
  ~ In 123%N message -> handleApiError (ErrorObj message) = message.
Proof.
  intros Hno. apply handleApiError_unstructured. unfold structured_error.
  assert (Hsub : substring_from_indexOf message (str "{") = message).
  { unfold substring_from_indexOf. change (str "{") with [123%N].
    destruct (indexOf message [123%N]) as [i|] eqn:E; [|done].
    exfalso. apply Hno. by eapply indexOf_found. }
  rewrite Hsub. unfold Json.parse.
  destruct (Json.parse_value _ message) as [[v r]|] eqn:Ev; [|done].
  destruct (Json.skip_ws r); [|done].
  destruct v as [| | | | |ms]; try done.
  apply parse_value_object in Ev as [rest Hrest].
  exfalso. apply Hno. apply skip_ws_suffix. rewrite Hrest. by left.
Qed.

(** X6: a message without a brace leaves [handleApiError] as it came in,
    whatever else it contains. *)
Theorem handleApiError_keeps_plain_messages (message : JSString) :
  ~ In 123%N message ->
  handleApiError (ErrorObj message) = message
  /\ editImage_result (Rejected (ErrorObj message))
     = Rejected (ErrorObj message)
  /\ video_catch (ErrorObj message) = Rejected (ErrorObj message).
Proof.
  intros Hno. unfold editImage_result, video_catch.
  by rewrite handleApiError_plain.
Qed.

Lemma no_brace_app (a b : JSString) :
  ~ In 123%N a -> ~ In 123%N b -> ~ In 123%N (a ++ b).
Proof. intros Ha Hb Hin. apply in_app_or in Hin. tauto. Qed.

Lemma no_brace_str (a : JSString) :
  forallb (fun c => negb (N.eqb c 123)) a = true -> ~ In 123%N a.
Proof.
  intros Hall Hin. rewrite forallb_forall in Hall.
  specialize (Hall _ Hin). done.
Qed.

(** X7: a response without an image is rejected with a message of the
    service's own: the refusal message when the model did not stop for
    safety, and otherwise the safety message naming the blocked categories
    (or [Unknown] when there is none), provided their names have no
    brace. *)
Theorem editImage_without_image (response : ContentResponse) :
  images (response_parts response) = [] ->
  ((first_candidate response ≫= finishReason) <> Some (str "SAFETY") ->
   editImage_result (Resolved response)
   = Rejected (ErrorObj (str "The model did not return an image. It might have refused the request. Please try a different image or prompt.")))
  /\ ((first_candidate response ≫= finishReason) = Some (str "SAFETY") ->
      ~ In 123%N (blocked_categories response) ->
      editImage_result (Resolved response)
      = Rejected
          (ErrorObj
             (str "The request was blocked for safety reasons. Categories: "
              ++ (if truthy (blocked_categories response)
                  then blocked_categories response else str "Unknown")
              ++ str ". Please modify your prompt or image."))).
Proof.
  intros Hnone.
  assert (Hreject :
    editImage_result (Resolved response)
    = Rejected (ErrorObj (handleApiError
                            (ErrorObj (no_image_message response))))).
  { unfold editImage_result. rewrite gathered. cbn [imageUrl].
    by rewrite Hnone. }
  rewrite Hreject. unfold no_image_message. split.
  - intros Hnot. rewrite bool_decide_eq_false_2 by done.
    rewrite handleApiError_plain; [done|].
    apply no_brace_str. vm_compute. reflexivity.
  - intros Hsafety Hcats. rewrite bool_decide_eq_true_2 by done.
    cbv zeta. unfold blocked_categories in *.
    destruct (first_candidate response ≫= safetyRatings) as [rs|];
      cbn [option_map truthy_opt interpolate default] in *.

    all: rewrite handleApiError_plain; [done|].
    all: apply no_brace_app; [apply no_brace_str; vm_compute; reflexivity|].
    all: apply no_brace_app; [|apply no_brace_str; vm_compute; reflexivity].
    all: try (apply no_brace_str; vm_compute; reflexivity).
    case_match; [done|]. apply no_brace_str. vm_compute. reflexivity.
Qed.

End Messages.

Lemma editImage_gathers_the_response_witness :
  let words w := {| part_text := Some (str w); part_inlineData := None |} in
  let picture p :=
    {| part_text := None;
       part_inlineData := Some {| blob_mimeType := Some (str "image/png");
                                  blob_data := Some (str p) |} |} in
  @editImage_result Sample.runtime
    (Resolved
       {| candidates :=
            Some [{| content_parts :=
                       Some [words "A draft."; picture "AAAA";
                             words "The final image."; picture "BBBB"];
                     finishReason := Some (str "STOP");
                     safetyRatings := None |}] |})
  = Resolved
      {| imageUrl := Some (str "data:image/png;base64,BBBB");
         text := Some (str "A draft." ++ [10%N] ++ str "The final image.");
         videoUrl := None; originalImageUrl := None;
         secondaryImageUrl := None |}.
Proof.
  intros words picture.
  refine (eq_trans
            (proj2 (@editImage_gathers_the_response Sample.runtime _)
               {| blob_mimeType := Some (str "image/png");
                  blob_data := Some (str "BBBB") |} _) _);
    reflexivity.
Defined.

Lemma handleApiError_keeps_plain_messages_witness :
  @handleApiError Sample.runtime
    (ErrorObj (str "Network request failed: [timeout] after 30 s"))
  = str "Network request failed: [timeout] after 30 s".
Proof.
  apply (@handleApiError_keeps_plain_messages Sample.runtime).
  apply no_brace_str. reflexivity.
Defined.

Lemma editImage_without_image_witness :
  @editImage_result Sample.runtime
    (Resolved
       {| candidates :=
            Some [{| content_parts := None;
                     finishReason := Some (str "SAFETY");
                     safetyRatings :=
                       Some [{| blocked := true;
                                category := Some (str "HARM_CATEGORY_HATE_SPEECH") |};
                             {| blocked := false;
                                category := Some (str "HARM_CATEGORY_HARASSMENT") |};
                             {| blocked := true;
                                category := Some (str "HARM_CATEGORY_DANGEROUS_CONTENT") |}] |}] |})
  = Rejected
      (ErrorObj (str "The request was blocked for safety reasons. Categories: HARM_CATEGORY_HATE_SPEECH, HARM_CATEGORY_DANGEROUS_CONTENT. Please modify your prompt or image.")).
Proof.
  refine (eq_trans
            (proj2 (@editImage_without_image Sample.runtime _ _) _ _) _);
    first [ reflexivity | apply no_brace_str; reflexivity ].
Defined.

End GeminiFacts.

(* ===================================================================== *)
(** ** Properties of the batches *)
(* ===================================================================== *)

Module GeminiBatchFacts.
Import Gemini GeminiTerms.

Section BatchResults.
Context `{Runtime}.

Lemma first_rejection_none {A} (ps : list (nat * Settled A)) (l : list A) :
  map snd ps = map Resolved l -> first_rejection ps = None.
Proof.
  revert l. induction ps as [|[k [a|e]] ps IH]; intros [|x l] E; try done.
  cbn [first_rejection]. injection E as _ E. eauto.
Qed.

Lemma resolved_values_all {A} (ps : list (nat * Settled A)) (l : list A) :
  map snd ps = map Resolved l -> resolved_values ps = l.
Proof.
  revert l. induction ps as [|[k [a|e]] ps IH]; intros [|x l] E; try done.
  cbn [resolved_values]. injection E as -> E. f_equal. eauto.
Qed.

Lemma promise_all_resolved {A} (ps : list (nat * Settled A)) (l : list A) :
  map snd ps = map Resolved l -> promise_all ps = Resolved l.
Proof.
  intros E. unfold promise_all.
  by rewrite (first_rejection_none ps l E), (resolved_values_all ps l E).
Qed.

(** The URLs of results that all carry an image. *)
Lemma image_urls_all (results : list GeneratedContent) :
  Forall (fun r => truthy_opt (imageUrl r) = true) results ->
  map imageUrl results = map Some (image_urls results).
Proof.
  induction 1 as [|r results Hr _ IH]; [done|].
  unfold image_urls. cbn [omap list_omap map].
  destruct (imageUrl r) as [u|]; [|done]. cbn [truthy_opt] in Hr.
  rewrite Hr. cbn [map]. f_equal. exact IH.
Qed.

Lemma children_with_image gw log n (results : list GeneratedContent) :
  map (fun i => snd (child gw log i)) (seq 0 n) = map Resolved results ->
  length results = n
  /\ Forall (fun r => truthy_opt (imageUrl r) = true) results.
Proof.
  intros E. split.
  - apply (f_equal (@length _)) in E. rewrite !length_map, length_seq in E.
    done.
  - apply list.Forall_forall. intros r Hr.
    apply list_elem_of_lookup in Hr as [i Hi].
    assert (Hlook : map Resolved results !! i = Some (Resolved r)).
    { by rewrite list_lookup_fmap, Hi. }
    rewrite <- E in Hlook. rewrite list_lookup_fmap in Hlook.
    destruct (seq 0 n !! i) as [j|] eqn:Ej; [|done].
    cbn in Hlook. injection Hlook as Hlook. unfold child in Hlook.
    cbn [snd] in Hlook. by eapply editImage_result_has_image.
Qed.

Lemma awaited_results gw log n (results : list GeneratedContent) :
  map (fun i => snd (child gw log i)) (seq 0 n) = map Resolved results ->
  promise_all (map (child gw log) (seq 0 n)) = Resolved results.
Proof.
  intros E. apply promise_all_resolved. by rewrite map_map.
Qed.

Lemma image_urls_length (results : list GeneratedContent) :
  map imageUrl results = map Some (image_urls results) ->
  length (image_urls results) = length results.
Proof. intros E. apply (f_equal (@length _)) in E. by rewrite !length_map in E. Qed.

(** X8: when every call of a batch yields an image, the batch resolves
    with one URL per call, in the order in which the calls were issued,
    whatever the order in which they settle. *)
Theorem batch_urls_in_request_order gw prompt log :
  (forall imagePart numImages results,
     0 < numImages ->
     map (fun i => snd (child gw log i)) (seq 0 numImages)
     = map Resolved results ->
     exists urls,
       fst (generateLookbook gw prompt imagePart numImages log)
       = Resolved urls
       /\ map imageUrl results = map Some urls
       /\ length urls = numImages)
  /\ (forall imageParts results,
        map (fun i => snd (child gw log i)) (seq 0 4)
        = map Resolved results ->
        exists urls,
          fst (generateImageEditsBatch gw prompt imageParts log)
          = Resolved urls
          /\ map imageUrl results = map Some urls
          /\ length urls = 4).
Proof.
  split.
  - intros imagePart numImages results Hpos E.
    destruct (children_with_image _ _ _ _ E) as [Hlen Himg].
    pose proof (image_urls_all _ Himg) as Hurls.
    pose proof (image_urls_length _ Hurls) as Hn.
    exists (image_urls results). unfold generateLookbook.
    rewrite push_editImage_calls_spec. cbn [app fst].
    rewrite (awaited_results _ _ _ _ E).
    destruct (length (image_urls results)) as [|k] eqn:Ek; [lia|].
    cbn [Nat.eqb]. repeat split; [done|lia].
  - intros imageParts results E.
    destruct (children_with_image _ _ _ _ E) as [Hlen Himg].
    pose proof (image_urls_all _ Himg) as Hurls.
    pose proof (image_urls_length _ Hurls) as Hn.
    exists (image_urls results). unfold generateImageEditsBatch.
    rewrite push_editImage_calls_spec. cbn [app fst].
    rewrite (awaited_results _ _ _ _ E).
    destruct (length (image_urls results)) as [|k] eqn:Ek; [lia|].
    cbn [Nat.eqb]. repeat split; [done|lia].
Qed.

(** X9: a batch issues all its requests, whatever the service answers to
    any of them: [numImages] for a lookbook and four for the variations,
    each with the images followed by the prompt as given, none with a mask.
    A lookbook of no image issues no request and is rejected. *)
Theorem batch_requests gw prompt log :
  (forall imagePart numImages,
     snd (generateLookbook gw prompt imagePart numImages log)
     = log ++ repeat (GenerateContent
                        {| model := str "gemini-2.5-flash-image";
                           parts := [inline imagePart; Text prompt];
                           responseModalities := [str "IMAGE"] |})
                     numImages)
  /\ (forall primary rest,
        snd (generateImageEditsBatch gw prompt (primary :: rest) log)
        = log ++ repeat (GenerateContent
                           {| model := str "gemini-2.5-flash-image";
                              parts := inline primary :: map inline rest
                                       ++ [Text prompt];
                              responseModalities := [str "IMAGE"] |})
                        4)
  /\ (forall imagePart,
        generateLookbook gw prompt imagePart 0 log
        = (Rejected (ErrorObj (str "Failed to generate any images for the lookbook. The model may have refused the request.")),
           log)).
Proof.
  split; [|split].
  - intros imagePart numImages. unfold generateLookbook.
    rewrite push_editImage_calls_spec. reflexivity.
  - intros primary rest. unfold generateImageEditsBatch.
    rewrite push_editImage_calls_spec. cbn [snd]. do 3 f_equal.
    unfold editImage_request. f_equal. unfold editImage_parts.
    cbn [truthy_opt]. rewrite remaining_images. reflexivity.
  - intros imagePart. reflexivity.
Qed.

End BatchResults.

Lemma batch_urls_in_request_order_witness :
  exists urls,
    fst (@generateLookbook Sample.runtime Sample.generous
           (str "A summer lookbook.")
           {| base64 := Some (str "QUJD"); mimeType := str "image/png" |} 3 [])
    = Resolved urls
    /\ length urls = 3.
Proof.
  destruct (@batch_urls_in_request_order Sample.runtime Sample.generous
              (str "A summer lookbook.") []) as [Hlook _].
  destruct (Hlook {| base64 := Some (str "QUJD"); mimeType := str "image/png" |}
              3
              (resolved_values (map (@child Sample.runtime Sample.generous []) (seq 0 3))))
    as (urls & Hurls & _ & Hlen); [lia | vm_compute; reflexivity |].
  exists urls. split; assumption.
Defined.

End GeminiBatchFacts.

(* ===================================================================== *)
(** ** Properties of the polling of generateVideo *)
(* ===================================================================== *)

Module GeminiVideoFacts.
Import Gemini GeminiTerms GeminiFacts.

Section Polling.
Context `{Runtime}.

Lemma count_waits_app (a b : list VideoEvent) :
  count_waits (a ++ b) = count_waits a + count_waits b.
Proof.
  induction a as [|e a IH]; [done|]. cbn [app count_waits].
  destruct e; rewrite IH; reflexivity.
Qed.

Lemma count_waits_polls (pending : list Operation) :
  count_waits (polls pending) = length pending.
Proof.
  induction pending as [|operation pending IH]; [done|].
  unfold polls in *. cbn [flat_map app count_waits length]. by rewrite IH.
Qed.

(** The loop over operations that are not done, up to the answer that
    follows them. *)
Lemma poll_loop_pending (pending : list Operation) :
  Forall (fun operation => done operation = false) pending ->
  forall first rest following trace,
    pending = first :: rest ->
    poll_loop first (map Resolved rest ++ following) trace
    = match following with
      | [] => (trace ++ polls pending, None)
      | Rejected e :: _ => (trace ++ polls pending, Some (Rejected e))
      | Resolved operation :: later =>
          poll_loop operation later (trace ++ polls pending)
      end.
Proof.
  induction 1 as [|operation pending Hnot Hall IH];
    intros first rest following trace E; [done|].
  injection E as <- <-. rewrite poll_loop_unfold, Hnot. cbv zeta.
  unfold push. rewrite <- app_assoc. cbn [app].
  destruct pending as [|next pending'].
  - cbn [map app]. unfold polls. cbn [flat_map app].
    by destruct following as [|[operation'|e] later].
  - cbn [map app]. rewrite (IH next pending' following _ eq_refl).
    unfold polls. cbn [flat_map app]. rewrite <- !app_assoc. cbn [app].
    by destruct following as [|[operation'|e] later].
Qed.

Lemma poll_loop_done (final : Operation) (later : list (Settled Operation))
    (trace : list VideoEvent) :
  done final = true ->
  poll_loop final later trace = (trace, Some (Resolved final)).
Proof. intros Hdone. by rewrite poll_loop_unfold, Hdone. Qed.

(** X10: the polling of [generateVideo]. While the job is not done the
    function waits ten seconds and polls, once per status that is not
    done; the first status that is done ends the loop, a rejected poll
    ends the function with that rejection, and a service that stops
    answering leaves it suspended. *)
Theorem generateVideo_waits_once_per_pending_status
    (prompt : JSString) (image : option ImagePart)
    (aspectRatio : VideoAspectRatio) (pending : list Operation) :
  Forall (fun operation => done operation = false) pending ->
  let trace := video_prelude prompt image aspectRatio ++ polls pending in
  (forall final first rest later,
     done final = true ->
     pending ++ [final] = first :: rest ->
     generateVideo {| submitted := Resolved first;
                      polled := map Resolved rest ++ later |}
                   prompt image aspectRatio
     = (fst (video_finish final trace), Some (snd (video_finish final trace)))
     /\ count_waits (fst (video_finish final trace)) = length pending)
  /\ (forall first rest e later,
        pending = first :: rest ->
        generateVideo {| submitted := Resolved first;
                         polled := map Resolved rest ++ Rejected e :: later |}
                      prompt image aspectRatio
        = (trace, Some (video_catch e)))
  /\ (forall first rest,
        pending = first :: rest ->
        generateVideo {| submitted := Resolved first;
                         polled := map Resolved rest |}
                      prompt image aspectRatio
        = (trace, None)).
Proof.
  intros Hall trace. split; [|split].
  - intros final first rest later Hdone E. unfold generateVideo.
    cbn [submitted polled]. unfold push. cbn [app].
    fold (video_prelude prompt image aspectRatio).
    assert (Hloop :
      poll_loop first (map Resolved rest ++ later)
                (video_prelude prompt image aspectRatio)
      = (trace, Some (Resolved final))).
    { destruct pending as [|p pending'].
      - injection E as <- <-. cbn [map app]. subst trace. unfold polls.
        cbn [flat_map]. rewrite app_nil_r. by apply poll_loop_done.
      - injection E as <- <-. rewrite map_app, <- app_assoc. cbn [map app].
        rewrite (poll_loop_pending (p :: pending') Hall p pending' _ _ eq_refl).
        by apply poll_loop_done. }
    rewrite Hloop. destruct (video_finish final trace) as [trace' r] eqn:Ef.
    cbn [fst snd]. split; [done|].
    assert (Hwaits : count_waits trace = length pending).
    { subst trace. by rewrite count_waits_app, count_waits_polls. }
    unfold video_finish in Ef. destruct (Gemini.error final).
    + injection Ef as <- _. done.
    + destruct (negb _); injection Ef as <- _; unfold push;
        rewrite count_waits_app; cbn [count_waits]; lia.
  - intros first rest e later E. unfold generateVideo.
    cbn [submitted polled]. unfold push. cbn [app].
    fold (video_prelude prompt image aspectRatio).
    by rewrite (poll_loop_pending pending Hall first rest _ _ E).
  - intros first rest E. unfold generateVideo.
    cbn [submitted polled]. unfold push. cbn [app].
    fold (video_prelude prompt image aspectRatio).
    rewrite <- (app_nil_r (map Resolved rest)).
    by rewrite (poll_loop_pending pending Hall first rest _ _ E).
Qed.

Lemma completed_loop (operation final : Operation)
    (polled : list (Settled Operation)) (trace : list VideoEvent) :
  first_done operation polled = Some final ->
  exists ext,
    poll_loop operation polled trace = (trace ++ ext, Some (Resolved final))
    /\ Forall loop_event ext.
Proof.
  intros Hdone.
  destruct (poll_loop_spec operation polled trace)
    as (ext & Htrace & Hext & Hfinal).
  exists ext. split; [|done].
  destruct (poll_loop operation polled trace) as [trace' r].
  cbn [fst snd] in *. subst trace'. f_equal. by apply Hfinal.
Qed.

(** X11: the failures that the functions of the service report
    themselves reach the caller with their own message: a job that
    completes without a download link, a job that fails without a message
    of its own, and an image request that yields no image. *)
Theorem own_failure_messages_reach_the_caller :
  (forall job prompt image aspectRatio final,
     completed_operation job = Some final ->
     Gemini.error final = None ->
     truthy_opt (uri final) = false ->
     snd (generateVideo job prompt image aspectRatio)
     = Some (Rejected (ErrorObj (str "Video generation completed, but no download link was found."))))
  /\ (forall job prompt image aspectRatio final err,
        completed_operation job = Some final ->
        Gemini.error final = Some err ->
        default [] (error_message err) = [] ->
        snd (generateVideo job prompt image aspectRatio)
        = Some (Rejected (ErrorObj (str "Video generation failed during operation."))))
  /\ (forall gw prompt aspectRatio log response,
        generateImages gw (count_images log) = Resolved response ->
        default [] (generatedImages response) = [] ->
        fst (generateImageFromText gw prompt aspectRatio log)
        = Rejected (ErrorObj (str "The model did not return an image. It might have refused the request."))).
Proof.
  split; [|split].
  - intros job prompt image aspectRatio final Hdone Herr Huri.
    unfold generateVideo. unfold completed_operation in Hdone.
    destruct (submitted job) as [operation|e]; [|done].
    edestruct (completed_loop operation final (polled job)) as (ext & -> & _);
      [done|].
    unfold video_finish. rewrite Herr, Huri. cbn [negb snd].
    unfold video_catch. rewrite handleApiError_plain; [done|].
    apply no_brace_str. vm_compute. reflexivity.
  - intros job prompt image aspectRatio final err Hdone Herr Hmsg.
    unfold generateVideo. unfold completed_operation in Hdone.
    destruct (submitted job) as [operation|e]; [|done].
    edestruct (completed_loop operation final (polled job)) as (ext & -> & _);
      [done|].
    unfold video_finish. rewrite Herr. cbn [snd].
    assert (Hm : match error_message err with
                 | Some m => if truthy m then m else video_failed
                 | None => video_failed
                 end = video_failed).
    { destruct (error_message err) as [m|]; [|done].
      simpl in Hmsg. by rewrite Hmsg. }
    rewrite Hm. unfold video_catch. rewrite handleApiError_plain; [done|].
    apply no_brace_str. vm_compute. reflexivity.
  - intros gw prompt aspectRatio log response Hanswer Hnone.
    unfold generateImageFromText. rewrite Hanswer. cbn [fst].
    assert (Hm : handleApiError (ErrorObj (str "The model did not return an image. It might have refused the request."))
                 = str "The model did not return an image. It might have refused the request.").
    { apply handleApiError_plain. apply no_brace_str. vm_compute.
      reflexivity. }
    destruct (generatedImages response) as [[|bytes l]|]; try done;
      by rewrite Hm.
Qed.

End Polling.

Lemma generateVideo_waits_once_per_pending_status_witness :
  exists trace,
    @generateVideo Sample.runtime
      {| submitted := Resolved Sample.pending;
         polled := [Resolved Sample.pending; Resolved Sample.pending;
                    Resolved Sample.finished] |}
      (str "A kite over the sea.") None V16_9
    = (trace,
       Some (Resolved (str "https://video.example/download?id=7&key=SECRET")))
    /\ count_waits trace = 3.
Proof.
  destruct (@generateVideo_waits_once_per_pending_status Sample.runtime
              (str "A kite over the sea.") None V16_9
              [Sample.pending; Sample.pending; Sample.pending])
    as [Hdone _].
  { repeat constructor. }
  destruct (Hdone Sample.finished Sample.pending
              [Sample.pending; Sample.pending; Sample.finished] []
              eq_refl eq_refl) as [Hgen Hwaits].
  eexists. split; [exact Hgen | exact Hwaits].
Defined.

Lemma own_failure_messages_reach_the_caller_witness :
  snd (@generateVideo Sample.runtime
         {| submitted := Resolved {| done := true; Gemini.error := None;
                                     uri := None |};
            polled := [] |}
         (str "A kite over the sea.") None V16_9)
  = Some (Rejected (ErrorObj (str "Video generation completed, but no download link was found."))).
Proof.
  apply (proj1 (@own_failure_messages_reach_the_caller Sample.runtime)
           _ _ _ _ {| done := true; Gemini.error := None; uri := None |});
    reflexivity.
Defined.

End GeminiVideoFacts.

(* ===================================================================== *)
(** ** JSON.parse reads back what JSON.stringify wrote *)
(* ===================================================================== *)

Module JsonTextFacts.
Import JsonText.

(** Arithmetic on code units with division by constants. *)
Ltac digits := zify; Z.to_euclidean_division_equations; lia.

Lemma hex_hexadecimal (d : N) :
  (d < 16)%N -> Json.hex (hexadecimal d) = Some d.
Proof.
  intros Hd.
  assert (Hcases : In d [0; 1; 2; 3; 4; 5; 6; 7; 8; 9; 10; 11; 12; 13; 14; 15]%N).
  { cbn. lia. }
  cbn in Hcases. intuition (subst; reflexivity).
Qed.

(** The parser on a code unit that stands for itself. *)
Lemma parse_chars_plain (c : CodeUnit) (r : JSString) :
  c <> 34%N -> c <> 92%N -> (32 <= c)%N ->
  Json.parse_chars (c :: r)
  = match Json.parse_chars r with
    | Some (cs, rest) => Some (c :: cs, rest)
    | None => None
    end.
Proof.
  intros Hq Hb Hc.
  assert (Hlt : N.ltb c 32 = false) by (apply N.ltb_ge; lia).
  destruct c as [|p]; [lia|].
  do 7 (try destruct p as [p|p|]); cbn [Json.parse_chars];
    try rewrite Hlt; try reflexivity; try done.
Qed.

Lemma parse_chars_escape (c : CodeUnit) (r : JSString) :
  (c < 65536)%N ->
  Json.parse_chars (UnicodeEscape c ++ r)
  = match Json.parse_chars r with
    | Some (cs, rest) => Some (c :: cs, rest)
    | None => None
    end.
Proof.
  intros Hc. unfold UnicodeEscape. cbn [app Json.parse_chars].
  rewrite !hex_hexadecimal by digits.
  assert (Hsum : (c / 4096 * 4096 + c / 256 mod 16 * 256 + c / 16 mod 16 * 16
                  + c mod 16 = c)%N) by digits.
  rewrite Hsum. reflexivity.
Qed.

Lemma parse_chars_quote_unit (c : CodeUnit) (r : JSString) :
  Json.parse_chars (quote_unit c ++ r)
  = match Json.parse_chars r with
    | Some (cs, rest) => Some (c :: cs, rest)
    | None => None
    end.
Proof.
  unfold quote_unit.
  repeat match goal with
         | |- context [N.eqb c ?k] =>
             destruct (N.eqb_spec c k) as [->|?]; [reflexivity|]
         end.
  destruct (N.ltb_spec c 32).
  - apply parse_chars_escape. lia.
  - by apply parse_chars_plain.
Qed.

(** Reading back what QuoteJSONString wrote, up to the closing quote. *)
Lemma parse_chars_quote_chars (n : nat) (s rest : JSString) :
  length s < n ->
  Json.parse_chars (quote_chars s ++ 34%N :: rest) = Some (s, rest).
Proof.
  revert s. induction n as [|n IH]; intros s Hn; [lia|].
  destruct s as [|c r]; [reflexivity|]. cbn [length] in Hn.
  cbn [quote_chars].
  destruct (is_leading c) eqn:Elead.
  - unfold is_leading in Elead.
    apply andb_true_iff in Elead as [Hlo Hhi].
    apply N.leb_le in Hlo, Hhi.
    destruct r as [|d r'].
    + rewrite parse_chars_escape by lia. reflexivity.
    + cbn [length] in Hn. destruct (is_trailing d) eqn:Etrail.
      * unfold is_trailing in Etrail.
        apply andb_true_iff in Etrail as [Hlo' Hhi'].
        apply N.leb_le in Hlo', Hhi'.
        cbn [app]. rewrite parse_chars_plain by lia.
        rewrite parse_chars_plain by lia. rewrite IH by lia. reflexivity.
      * rewrite <- app_assoc, parse_chars_escape by lia.
        rewrite IH by (cbn [length]; lia). reflexivity.
  - destruct (is_trailing c) eqn:Etrail.
    + unfold is_trailing in Etrail.
      apply andb_true_iff in Etrail as [Hlo Hhi].
      apply N.leb_le in Hlo, Hhi.
      rewrite <- app_assoc, parse_chars_escape by lia.
      rewrite IH by lia. reflexivity.
    + rewrite <- app_assoc, parse_chars_quote_unit, IH by lia. reflexivity.
Qed.

Lemma skip_ws_stops (c : CodeUnit) (r : JSString) :
  Json.is_ws c = false -> Json.skip_ws (c :: r) = c :: r.
Proof. intros Hc. cbn [Json.skip_ws]. by rewrite Hc. Qed.

Lemma parse_value_quoted (fuel : nat) (s rest : JSString) :
  Json.parse_value (S fuel) (QuoteJSONString s ++ rest)
  = Some (Json.JStr s, rest).
Proof.
  unfold QuoteJSONString. cbn [app Json.parse_value].
  rewrite skip_ws_stops by reflexivity. rewrite <- app_assoc. cbn [app].
  by rewrite (parse_chars_quote_chars (S (length s))) by lia.
Qed.

Lemma parse_elements_unfold (fuel : nat) (s : JSString) :
  Json.parse_elements (S fuel) s
  = match Json.parse_value fuel s with
    | None => None
    | Some (v, r) =>
        match Json.skip_ws r with
        | 93%N :: r' => Some ([v], r')
        | 44%N :: r' =>
            option_map (fun '(vs, r'') => (v :: vs, r''))
                       (Json.parse_elements fuel r')
        | _ => None
        end
    end.
Proof. reflexivity. Qed.

(** The elements of an array of strings, up to the closing bracket. *)
Lemma parse_elements_quoted (keys : list JSString) (k : JSString)
    (fuel : nat) (rest : JSString) :
  length keys < fuel ->
  Json.parse_elements (S fuel)
    (join (str ",") (map QuoteJSONString (k :: keys)) ++ 93%N :: rest)
  = Some (Json.JStr <$> k :: keys, rest).
Proof.
  revert k fuel. induction keys as [|k' keys IH]; intros k fuel Hfuel.
  - destruct fuel as [|fuel]; [cbn in Hfuel; lia|].
    cbn [map join]. rewrite parse_elements_unfold, parse_value_quoted.
    by rewrite skip_ws_stops by reflexivity.
  - destruct fuel as [|fuel]; [cbn in Hfuel; lia|]. cbn [length] in Hfuel.
    change (join (str ",") (map QuoteJSONString (k :: k' :: keys)))
      with (QuoteJSONString k ++ str ","
            ++ join (str ",") (map QuoteJSONString (k' :: keys))).
    rewrite <- !app_assoc. rewrite parse_elements_unfold, parse_value_quoted.
    change (str "," ++ ?x) with (44%N :: x).
    rewrite skip_ws_stops by reflexivity.
    rewrite IH by lia. reflexivity.
Qed.

Lemma length_quoted (keys : list JSString) :
  length keys
  <= length (join (str ",") (map QuoteJSONString keys)).
Proof.
  induction keys as [|k keys IH]; [done|].
  destruct keys as [|k' keys].
  - cbn [map join length]. unfold QuoteJSONString. cbn [length]. lia.
  - change (join (str ",") (map QuoteJSONString (k :: k' :: keys)))
      with (QuoteJSONString k ++ str ","
            ++ join (str ",") (map QuoteJSONString (k' :: keys))).
    rewrite !length_app. unfold QuoteJSONString at 1.
    cbn [length] in *. lia.
Qed.

(** Round trip: [JSON.parse] reads the array back from the text that
    [JSON.stringify] made of it, whatever the strings are. *)
Lemma parse_stringify (keys : list JSString) :
  Json.parse (stringify keys) = Some (Json.JArr (Json.JStr <$> keys)).
Proof.
  destruct keys as [|k keys]; [reflexivity|].
  unfold stringify, Json.parse.
  set (text := str "[" ++ _).
  assert (Hlen : length (k :: keys) + 2 <= length text).
  { subst text. change (str "[") with [91%N]. change (str "]") with [93%N].
    rewrite !length_app.
    pose proof (length_quoted (k :: keys)) as Hq. cbn [length] in *. lia. }
  destruct (2 * length text + 2) as [|[|fuel]] eqn:Efuel; [lia|lia|].
  subst text. change (str "[" ++ ?x) with (91%N :: x).
  change (str "]") with [93%N].
  cbn [Json.parse_value]. rewrite skip_ws_stops by reflexivity.
  assert (Hstart : exists r,
    Json.skip_ws (join (str ",") (map QuoteJSONString (k :: keys)) ++ [93%N])
    = 34%N :: r).
  { destruct keys; cbn [map join]; unfold QuoteJSONString at 1;
      cbn [app]; rewrite skip_ws_stops by reflexivity; eauto. }
  destruct Hstart as [r ->].
  destruct fuel as [|fuel]; [cbn [length] in *; lia|].
  rewrite parse_elements_quoted by (cbn [length] in *; lia).
  reflexivity.
Qed.

End JsonTextFacts.

(* ===================================================================== *)
(** ** Properties of the stored gallery order *)
(* ===================================================================== *)

Module DisplayOrderFacts.
Import AppControls.

Section Order.
Context `{Collaborators}.

(** What the map holds comes from the catalog, under its own key. *)
Lemma transformationMap_entry (k : JSString) (x : Transformation) :
  transformationMap !! k = Some x -> x ∈ TRANSFORMATIONS /\ key x = k.
Proof.
  unfold transformationMap. rewrite foldl_insert_lookup, lookup_empty.
  destruct (last (filter _ TRANSFORMATIONS)) as [y|] eqn:E; [|done].
  intros [= ->]. apply last_Some_elem_of in E.
  apply list_elem_of_filter in E as [Hk Hin]. done.
Qed.

Lemma unique_key (l : list Transformation) (x y : Transformation) :
  NoDup (key <$> l) -> x ∈ l -> y ∈ l -> key x = key y -> x = y.
Proof.
  induction l as [|z l IH]; intros Hnd Hx Hy Hk.
  { by apply elem_of_nil in Hx. }
  cbn [fmap list_fmap] in Hnd. apply NoDup_cons in Hnd as [Hz Hnd].
  apply elem_of_cons in Hx as [->|Hx]; apply elem_of_cons in Hy as [->|Hy].
  - done.
  - exfalso. apply Hz. rewrite Hk. apply list_elem_of_fmap. eauto.
  - exfalso. apply Hz. rewrite <- Hk. apply list_elem_of_fmap. eauto.
  - by apply IH.
Qed.

Lemma transformationMap_own_key (x : Transformation) :
  NoDup (key <$> TRANSFORMATIONS) -> x ∈ TRANSFORMATIONS ->
  transformationMap !! key x = Some x.
Proof.
  intros Hnd Hx.
  destruct (transformationMap_lookup (key x)) as [Hin _].
  destruct Hin as (y & Hy & Hk); [apply list_elem_of_fmap; eauto|].
  rewrite Hy. f_equal.
  apply transformationMap_entry in Hy as [Hy _].
  by apply (unique_key TRANSFORMATIONS).
Qed.

Lemma resolve_order_catalog (orderedKeys : list Json.value)
    (x : Transformation) :
  x ∈ resolve_order orderedKeys -> x ∈ TRANSFORMATIONS.
Proof.
  unfold resolve_order. intros Hx. apply elem_of_app in Hx as [Hx|Hx].
  - apply list_elem_of_omap in Hx as (v & _ & Hv).
    destruct v; try done. by apply transformationMap_entry in Hv as [? _].
  - by apply list_elem_of_filter in Hx as [_ Hx].
Qed.

Lemma resolve_order_complete (orderedKeys : list Json.value)
    (x : Transformation) :
  x ∈ TRANSFORMATIONS -> key x ∈ key <$> resolve_order orderedKeys.
Proof.
  intros Hx. unfold resolve_order. rewrite fmap_app. apply elem_of_app.
  destruct (decide (key x ∈ string_keys orderedKeys)) as [Hsaved|Hnew].
  - left. unfold string_keys in Hsaved.
    apply list_elem_of_omap in Hsaved as (v & Hv & Hs).
    destruct v as [| | |s| |]; try done. injection Hs as ->.
    destruct (transformationMap_lookup (key x)) as [Hin _].
    destruct Hin as (y & Hy & Hk); [apply list_elem_of_fmap; eauto|].
    apply list_elem_of_fmap. exists y. split; [done|].
    apply list_elem_of_omap. exists (Json.JStr (key x)). done.
  - right. apply list_elem_of_fmap. exists x. split; [done|].
    apply list_elem_of_filter. split; [|done].
    by rewrite elem_of_list_to_set.
Qed.

(** X12: whatever the browser has stored under [transformationOrder]
    (nothing, the empty string, text that is not JSON, JSON that is no
    array, an array with unknown keys, repeated keys or values that are no
    strings), the gallery shows only entries of the catalog and leaves no
    key of the catalog out. *)
Theorem initial_transformations_shows_the_catalog
    (savedOrder : option JSString) :
  (forall x, x ∈ initial_transformations savedOrder -> x ∈ TRANSFORMATIONS)
  /\ (forall x, x ∈ TRANSFORMATIONS ->
                key x ∈ key <$> initial_transformations savedOrder).
Proof.
  assert (Hall : forall x, x ∈ TRANSFORMATIONS ->
                           key x ∈ key <$> TRANSFORMATIONS).
  { intros x Hx. apply list_elem_of_fmap. eauto. }
  unfold initial_transformations.
  destruct savedOrder as [saved|]; [|done].
  destruct (truthy saved); [|done].
  destruct (Json.parse saved) as [[| | | |orderedKeys|]|]; try done.
  split.
  - apply resolve_order_catalog.
  - apply resolve_order_complete.
Qed.

Lemma saved_keys_resolved (ts : list Transformation) :
  NoDup (key <$> TRANSFORMATIONS) ->
  (forall x, x ∈ ts -> x ∈ TRANSFORMATIONS) ->
  omap (fun k => match k with
                 | Json.JStr s => transformationMap !! s
                 | _ => None
                 end) (Json.JStr <$> orderToSave ts) = ts.
Proof.
  intros Hnd. induction ts as [|x ts IH]; intros Hin; [done|].
  unfold orderToSave. cbn [map fmap list_fmap omap list_omap].
  rewrite transformationMap_own_key by (try done; apply Hin; left).
  f_equal. apply IH. intros y Hy. apply Hin. by right.
Qed.

(** X13: the order of the gallery survives a reload. When the keys of the
    catalog are distinct and the gallery shows the catalog in some order,
    the text that the effect stores is read back by the initializer of the
    next session as that same order, entry for entry. *)
Theorem saved_order_survives_reload (ts : list Transformation) :
  NoDup (key <$> TRANSFORMATIONS) ->
  ts ≡ₚ TRANSFORMATIONS ->
  Json.parse (saved_order ts) = Some (Json.JArr (Json.JStr <$> orderToSave ts))
  /\ initial_transformations (Some (saved_order ts)) = ts.
Proof.
  intros Hnd Hperm.
  pose proof (JsonTextFacts.parse_stringify (orderToSave ts)) as Hparse.
  split; [exact Hparse|].
  unfold initial_transformations, saved_order. rewrite Hparse.
  assert (Htext : truthy (JsonText.stringify (orderToSave ts)) = true).
  { unfold JsonText.stringify. by destruct (orderToSave ts). }
  rewrite Htext. unfold resolve_order.
  rewrite saved_keys_resolved; [|done|].
  2: { intros x Hx. by rewrite <- Hperm. }
  rewrite string_keys_strings.
  assert (Hnone : filter (fun x => key x ∉ (list_to_set (orderToSave ts)
                                             : gset JSString))
                         TRANSFORMATIONS = []).
  { destruct (filter _ TRANSFORMATIONS) as [|x l] eqn:E; [done|].
    assert (Hx : x ∈ x :: l) by left. rewrite <- E in Hx.
    apply list_elem_of_filter in Hx as [Hnot Hx]. exfalso.
    apply Hnot. rewrite elem_of_list_to_set. unfold orderToSave.
    change (map key ts) with (key <$> ts). apply list_elem_of_fmap.
    exists x. split; [done|]. by rewrite Hperm. }
  rewrite Hnone. apply app_nil_r.
Qed.

End Order.

Lemma saved_order_survives_reload_witness :
  let dragged := [Sample.entry "C"; Sample.entry "A"; Sample.entry "B"] in
  @saved_order dragged
  = str "[" ++ Sample.q "C" ++ str "," ++ Sample.q "A" ++ str ","
    ++ Sample.q "B" ++ str "]"
  /\ @initial_transformations Sample.studio (Some (saved_order dragged))
     = dragged.
Proof.
  intros dragged. split; [reflexivity|].
  apply (@saved_order_survives_reload Sample.studio dragged).
  - apply (bool_decide_unpack _). vm_compute. exact I.
  - change ([Sample.entry "C"; Sample.entry "A"; Sample.entry "B"]
            ≡ₚ [Sample.entry "A"; Sample.entry "B"; Sample.entry "C"]).
    etrans; [apply Permutation_swap|]. apply Permutation_skip.
    apply Permutation_swap.
Defined.

End DisplayOrderFacts.

(* ===================================================================== *)
(** ** Properties of data URLs *)
(* ===================================================================== *)

Module DataUrlFacts.
Import AppControls GeminiTerms.

Lemma split_whole (sep : CodeUnit) (s : JSString) :
  ~ In sep s -> split sep s = [s].
Proof.
  induction s as [|c s IH]; intros Hno; [done|]. cbn [split].
  destruct (N.eqb_spec c sep) as [->|Hne]; [exfalso; apply Hno; by left|].
  rewrite IH; [done|]. intros Hin. apply Hno. by right.
Qed.

Lemma split_at_first (sep : CodeUnit) (a b : JSString) :
  ~ In sep a -> split sep (a ++ sep :: b) = a :: split sep b.
Proof.
  induction a as [|c a IH]; intros Hno.
  - cbn [app split]. by rewrite N.eqb_refl.
  - cbn [app split].
    destruct (N.eqb_spec c sep) as [->|Hne]; [exfalso; apply Hno; by left|].
    rewrite IH; [done|]. intros Hin. apply Hno. by right.
Qed.

Lemma not_in_app (c : CodeUnit) (a b : JSString) :
  ~ In c a -> ~ In c b -> ~ In c (a ++ b).
Proof. intros Ha Hb Hin. apply in_app_or in Hin. tauto. Qed.

Lemma not_in_str (c : CodeUnit) (a : JSString) :
  forallb (fun x => negb (N.eqb x c)) a = true -> ~ In c a.
Proof.
  intros Hall Hin. rewrite forallb_forall in Hall.
  specialize (Hall _ Hin). rewrite N.eqb_refl in Hall. done.
Qed.

Lemma imagePart_of_data (mime data : JSString) :
  ~ In 44%N mime -> ~ In 59%N mime -> ~ In 58%N mime -> ~ In 44%N data ->
  imagePart_of (str "data:" ++ mime ++ str ";base64," ++ data)
  = {| base64 := Some data; mimeType := mime |}.
Proof.
  intros Hcomma Hsemi Hcolon Hdata. unfold imagePart_of. f_equal.
  - unfold base64_of.
    change (str "data:" ++ mime ++ str ";base64," ++ data)
      with ((str "data:" ++ mime) ++ str ";base64" ++ 44%N :: data).
    rewrite app_assoc, split_at_first.
    + by rewrite split_whole.
    + repeat apply not_in_app; try done; by apply not_in_str.
  - unfold mimeType_of.
    change (str "data:" ++ mime ++ str ";base64," ++ data)
      with ((str "data:" ++ mime) ++ 59%N :: str "base64," ++ data).
    rewrite split_at_first.
    + cbn [nth_error mbind option_bind].
      change (str "data:" ++ mime) with (str "data" ++ 58%N :: mime).
      rewrite split_at_first by (by apply not_in_str).
      by rewrite split_whole.
    + apply not_in_app; [by apply not_in_str | done].
Qed.

Section DataUrls.
Context `{Runtime}.

(** X14: the image that [editImage] returns can be sent back as it came.
    A data URL built from a MIME type without comma, semicolon or colon and
    from data without comma is split by the handlers into that MIME type
    and those data; so the part that the handlers make of the URL of an
    [editImage] result is the inline data that the model returned. *)
Theorem image_url_splits_into_its_parts (mime data : JSString) :
  ~ In 44%N mime -> ~ In 59%N mime -> ~ In 58%N mime -> ~ In 44%N data ->
  imagePart_of (str "data:" ++ mime ++ str ";base64," ++ data)
  = {| base64 := Some data; mimeType := mime |}
  /\ (forall response,
        last (images (response_parts response))
        = Some {| blob_mimeType := Some mime; blob_data := Some data |} ->
        exists r,
          editImage_result (Resolved response) = Resolved r
          /\ imagePart_of <$> imageUrl r
             = Some {| base64 := Some data; mimeType := mime |}).
Proof.
  intros Hcomma Hsemi Hcolon Hdata.
  pose proof (imagePart_of_data mime data Hcomma Hsemi Hcolon Hdata) as Hpart.
  split; [exact Hpart|]. intros response Hlast.
  unfold editImage_result. rewrite GeminiFacts.gathered. cbn [imageUrl].
  rewrite Hlast. cbn [fmap option_fmap option_map truthy_opt].
  eexists. split; [reflexivity|].
  cbn [imageUrl fmap option_fmap option_map]. f_equal. exact Hpart.
Qed.

End DataUrls.

Lemma split_pieces (sep : CodeUnit) (s : JSString) :
  exists ws, split sep s = text_before sep s :: ws
             /\ nth_error ws 0 = text_before sep <$> text_after sep s.
Proof.
  induction s as [|c s (ws & Hsplit & Hnext)].
  - by exists [].
  - cbn [split text_before text_after]. destruct (N.eqb c sep).
    + exists (split sep s). split; [done|]. by rewrite Hsplit.
    + rewrite Hsplit. by exists ws.
Qed.

Lemma split_first_piece (sep : CodeUnit) (s : JSString) :
  nth_error (split sep s) 0 = Some (text_before sep s).
Proof. by destruct (split_pieces sep s) as (ws & -> & _). Qed.

Lemma split_second_piece (sep : CodeUnit) (s : JSString) :
  nth_error (split sep s) 1 = text_before sep <$> text_after sep s.
Proof. by destruct (split_pieces sep s) as (ws & -> & Hnext). Qed.

(** X15: the name under which an entry of the history is downloaded is
    the kind of entry, a hyphen, the time, a dot and an extension. For a
    kind that mentions video the extension is [mp4] whatever the URL.
    Otherwise it is read from the part of the URL before its first
    semicolon (the whole URL when it has none): it is the text that
    follows the first slash of that part, up to the next slash or the end
    of the part; and it is [png] when that part has no slash or that text
    is empty. *)
Theorem download_name (now url type : JSString) :
  handleDownloadFromHistory now url type
  = (url,
     type ++ str "-" ++ now ++ str "."
     ++ (if includes type (str "video") then str "mp4"
         else
           match text_after 47%N (text_before 59%N url) with
           | Some text =>
               if truthy (text_before 47%N text) then text_before 47%N text
               else str "png"
           | None => str "png"
           end)).
Proof.
  unfold handleDownloadFromHistory, fileExtension. do 5 f_equal.
  destruct (includes type (str "video")); [done|].
  rewrite split_first_piece. cbn [mbind option_bind].
  rewrite split_second_piece.
  by destruct (text_after 47%N (text_before 59%N url)).
Qed.

Lemma image_url_splits_into_its_parts_witness :
  imagePart_of (str "data:image/jpeg;base64,/9j/4AAQSkZJRg==")
  = {| base64 := Some (str "/9j/4AAQSkZJRg==");
       mimeType := str "image/jpeg" |}.
Proof.
  apply (@image_url_splits_into_its_parts Sample.runtime
           (str "image/jpeg") (str "/9j/4AAQSkZJRg=="));
    apply not_in_str; reflexivity.
Defined.

Lemma download_name_witness :
  handleDownloadFromHistory (str "1730592000000")
    (str "data:image/jpeg;base64,/9j/4AAQSkZJRg==") (str "generated")
  = (str "data:image/jpeg;base64,/9j/4AAQSkZJRg==",
     str "generated-1730592000000.jpeg")
  /\ snd (handleDownloadFromHistory (str "1730592000000")
            (str "data:image/svg/xml;base64,PHN2Zz4=") (str "generated"))
     = str "generated-1730592000000.svg"
  /\ snd (handleDownloadFromHistory (str "1730592000000")
            (str "blob:https://studio.example/41") (str "original"))
     = str "original-1730592000000.png"
  /\ snd (handleDownloadFromHistory (str "1730592000000")
            (str "blob:https://studio.example/41") (str "generated-video"))
     = str "generated-video-1730592000000.mp4".
Proof.
  split; [|split; [|split]].
  - exact (eq_trans (download_name _ _ _) eq_refl).
  - exact (eq_trans (f_equal snd (download_name _ _ _)) eq_refl).
  - exact (eq_trans (f_equal snd (download_name _ _ _)) eq_refl).
  - exact (eq_trans (f_equal snd (download_name _ _ _)) eq_refl).
Defined.

End DataUrlFacts.

(* ===================================================================== *)
(** ** Invariants of handleGenerateImage *)
(* ===================================================================== *)

Module HandlerInvariants.
Import AppControls.

Lemma extends_refl (log : list GatewayCall) : extends log log.
Proof. exists []. by rewrite app_nil_r. Qed.

Lemma extends_trans (a b c : list GatewayCall) :
  extends a b -> extends b c -> extends a c.
Proof. intros [x ->] [y ->]. exists (x ++ y). by rewrite app_assoc. Qed.

Section Invariants.
Context `{Runtime} `{Collaborators}.

Lemma steady_ret {A} (a : A) : steady (mret a).
Proof. intros w. cbn. auto using extends_refl. Qed.

Lemma steady_throw {A} (e : Thrown) : steady (@throw A e).
Proof. intros w. cbn. auto using extends_refl. Qed.

Lemma steady_await {A} (p : Settled A) : steady (await p).
Proof. destruct p; [apply steady_ret | apply steady_throw]. Qed.

Lemma steady_update (f : AppState -> AppState) :
  (forall s, history (f s) = history s
             /\ generatedContent (f s) = generatedContent s
             /\ App.error (f s) = App.error s) ->
  steady (update f).
Proof.
  intros Hf w. rewrite run_update. cbn [fst snd].
  destruct (Hf (fst w)) as (? & ? & ?). auto using extends_refl.
Qed.

Lemma steady_bind {A B} (m : Handler A) (k : A -> Handler B) :
  steady m -> (forall a, steady (k a)) -> steady (m ≫= k).
Proof.
  intros Hm Hk w. rewrite run_bind. specialize (Hm w).
  destruct (run m w) as [[a|e] w']; cbn [fst snd] in *; [|done].
  destruct Hm as (Hlog & Hhist & Hgen & Herr).
  destruct (Hk a w') as (Hlog' & Hhist' & Hgen' & Herr').
  repeat split; [by eapply extends_trans|congruence..].
Qed.

Lemma steady_request {A}
    (call : list GatewayCall -> Settled A * list GatewayCall) :
  (forall log, extends log (snd (call log))) -> steady (request call).
Proof.
  intros Hcall w. unfold request. cbn [run]. specialize (Hcall (snd w)).
  destruct (call (snd w)) as [p log']. cbn [snd] in Hcall.
  destruct p; cbn; auto.
Qed.

Lemma steady_await_editImage gw prompt imageParts mask :
  steady (await_editImage gw prompt imageParts mask).
Proof.
  intros [cur log]. rewrite run_await_editImage. cbn [fst snd].
  repeat split. by eexists.
Qed.

Lemma generateLookbook_extends gw prompt imagePart n log :
  extends log (snd (generateLookbook gw prompt imagePart n log)).
Proof.
  unfold generateLookbook. rewrite push_editImage_calls_spec. by eexists.
Qed.

Lemma generateImageEditsBatch_extends gw prompt imageParts log :
  extends log (snd (generateImageEditsBatch gw prompt imageParts log)).
Proof.
  unfold generateImageEditsBatch. rewrite push_editImage_calls_spec.
  by eexists.
Qed.

Lemma generateImageFromText_extends gw prompt ratio log :
  extends log (snd (generateImageFromText gw prompt ratio log)).
Proof. unfold generateImageFromText. by eexists. Qed.

Lemma ends_steady (h : Handler unit) : steady h -> ends h.
Proof. intros Hh w. destruct (Hh w) as (? & ? & ? & ?). auto. Qed.

Lemma ends_bind {A} (m : Handler A) (k : A -> Handler unit) :
  steady m -> (forall a, ends (k a)) -> ends (m ≫= k).
Proof.
  intros Hm Hk w. rewrite run_bind. specialize (Hm w).
  destruct (run m w) as [[a|e] w']; cbn [fst snd] in *.
  - destruct Hm as (Hlog & Hhist & Hgen & Herr).
    destruct (Hk a w') as (Hlog' & Hcases).
    split; [by eapply extends_trans|].
    destruct Hcases as [[Hh Hg]|(Hret & He & r & Hg & Hh)].
    + left. split; congruence.
    + right. split; [done|]. split; [congruence|].
      exists r. split; congruence.
  - destruct Hm as (Hlog & Hhist & Hgen & Herr). auto.
Qed.

Lemma ends_refuse (k : JSString) : ends (refuse k).
Proof.
  intros w. unfold refuse. rewrite run_bind, !run_update. cbn [fst snd].
  split; [apply extends_refl|]. left. done.
Qed.

Lemma ends_publish (r : GeneratedContent) : ends (publish r).
Proof.
  intros w. unfold publish. rewrite run_bind, !run_update. cbn [fst snd].
  split; [apply extends_refl|]. right. split; [done|]. split; [done|].
  exists r. done.
Qed.

(** Closes a goal on a handler made of the steps above. *)
Ltac quiet :=
  repeat first
    [ apply steady_await_editImage
    | apply steady_await
    | apply steady_throw
    | apply steady_ret
    | apply steady_update; done
    | apply steady_request; intros;
        first [ apply generateLookbook_extends
              | apply generateImageEditsBatch_extends
              | apply generateImageFromText_extends ]
    | apply steady_bind; [|intros] ].

Ltac finish :=
  repeat first
    [ apply ends_refuse
    | apply ends_publish
    | match goal with
      | |- ends (if ?b then _ else _) => destruct b
      | |- ends (match ?x with _ => _ end) => destruct x
      end
    | apply ends_bind; [solve [quiet]|intros]
    | solve [apply ends_steady; quiet] ].

Lemma ends_outfitStylist gw s : ends (outfitStylist_branch gw s).
Proof.
  unfold outfitStylist_branch. repeat case_match; finish.
Qed.

Lemma ends_chibiQrCode gw s tr : ends (chibiQrCode_branch gw s tr).
Proof.
  unfold chibiQrCode_branch. repeat case_match; finish.
Qed.

Lemma ends_multiStepVideo gw s p : ends (multiStepVideo_branch gw s p).
Proof.
  unfold multiStepVideo_branch. repeat case_match; finish.
Qed.

Lemma ends_textToImage gw s p : ends (textToImage_branch gw s p).
Proof. unfold textToImage_branch. finish. Qed.

Lemma ends_maxImages gw s p : ends (maxImages_branch gw s p).
Proof. unfold maxImages_branch. repeat case_match; finish. Qed.

Lemma ends_twoStep gw s tr p : ends (twoStep_branch gw s tr p).
Proof.
  unfold twoStep_branch. repeat case_match; finish.
Qed.

Lemma ends_default gw s tr p mask : ends (default_branch gw s tr p mask).
Proof. unfold default_branch. repeat case_match; finish. Qed.

Lemma ends_generate_body gw s tr p : ends (generate_body gw s tr p).
Proof.
  unfold generate_body.
  repeat case_match;
    auto using ends_outfitStylist, ends_chibiQrCode, ends_multiStepVideo,
               ends_textToImage, ends_maxImages, ends_twoStep, ends_default.
Qed.

(** The run of [handleGenerateImage] in terms of the run of its [try]
    block. *)
Lemma handleGenerateImage_run gw s tr log :
  selectedTransformation s = Some tr ->
  let promptToUse :=
    if JS.eqb (prompt tr) (str "CUSTOM") then customPrompt s else prompt tr in
  let body := run (generate_body gw s tr promptToUse) (started s, log) in
  run (handleGenerateImage gw s) (s, log)
  = (Returned tt,
     (setLoadingMessage []
        (setIsLoading false
           (match fst body with
            | Returned _ => fst (snd body)
            | Threw err => setError (Some (error_text err)) (fst (snd body))
            end)),
      snd (snd body))).
Proof.
  intros Hsel promptToUse body. unfold handleGenerateImage. rewrite Hsel.
  fold promptToUse.
  repeat (rewrite run_bind, run_update; cbn [fst snd]).
  unfold finally. cbn [run]. unfold try_catch at 1. cbn [run].
  fold (started s). fold body.
  destruct body as [[[]|e] [cur log']];
    repeat (rewrite ?run_bind, ?run_update; cbn [fst snd]); reflexivity.
Qed.

(** X16: [handleGenerateImage] always comes to an end, whatever the
    service and the image utilities do: it never throws, the calls it made
    are added to the log, and it leaves the loading indicator off and the
    loading message empty. When it leaves a result on display, that
    result is the new first entry of the history and no error is shown;
    otherwise the history is as it was. *)
Theorem handleGenerateImage_settles gw s tr log :
  selectedTransformation s = Some tr ->
  exists s' calls,
    run (handleGenerateImage gw s) (s, log) = (Returned tt, (s', log ++ calls))
    /\ isLoading s' = false
    /\ loadingMessage s' = []
    /\ match generatedContent s' with
       | Some r => history s' = r :: history s /\ App.error s' = None
       | None => history s' = history s
       end.
Proof.
  intros Hsel. rewrite (handleGenerateImage_run gw s tr log Hsel). cbv zeta.
  set (promptToUse := if JS.eqb (prompt tr) (str "CUSTOM") then _ else _).
  destruct (ends_generate_body gw s tr promptToUse (started s, log))
    as ([calls Hlog] & Hcases).
  destruct (run (generate_body gw s tr promptToUse) (started s, log))
    as [o [cur log']].
  cbn [fst snd] in *. subst log'. eexists _, calls.
  split; [reflexivity|]. split; [done|]. split; [done|].
  destruct Hcases as [[Hh Hg]|(-> & He & r & Hg & Hh)].
  - destruct o as [[]|e]; cbn; rewrite Hg; cbn; done.
  - cbn. rewrite Hg. cbn in *. done.
Qed.

Lemma sends_after_update {A} (f : AppState -> AppState) (k : Handler A) :
  sends k -> sends (update f ;; k).
Proof.
  intros Hk w. rewrite run_bind, run_update.
  destruct (Hk (f (fst w), snd w)) as (call & calls & Hlog). eauto.
Qed.

Lemma sends_then {A} (m : Handler A) (k : A -> Handler unit) :
  sends m -> (forall a, ends (k a)) -> sends (m ≫= k).
Proof.
  intros Hm Hk w. rewrite run_bind. destruct (Hm w) as (call & calls & Hlog).
  destruct (run m w) as [[a|e] w']; cbn [fst snd] in *; [|eauto].
  destruct (Hk a w') as ([more Hmore] & _). rewrite Hmore, Hlog.
  exists call, (calls ++ more). by rewrite <- app_assoc.
Qed.

Lemma sends_await_editImage gw prompt imageParts mask :
  sends (await_editImage gw prompt imageParts mask).
Proof. intros [cur log]. rewrite run_await_editImage. cbn. eauto. Qed.

Lemma sends_generateLookbook gw prompt imagePart n :
  0 < n -> sends (request (generateLookbook gw prompt imagePart n)).
Proof.
  intros Hn w. unfold request. cbn [run].
  pose proof (push_editImage_calls_spec gw n prompt [imagePart] [] (snd w))
    as Hcalls.
  unfold generateLookbook. rewrite Hcalls.
  destruct n as [|n]; [lia|]. cbn [repeat].
  match goal with
  | |- context [run (await ?p) _] => destruct p; cbn; eauto
  end.
Qed.

(** The requests that make the button available are the ones that the
    handler accepts: the [try] block of a flow with one call. *)
Lemma enabled_body_sends gw s tr promptToUse :
  selectedTransformation s = Some tr ->
  isGenerateDisabled s = false ->
  key tr <> str "customPrompt" ->
  isVideo tr = false -> isMultiStepVideo tr = false -> isTwoStep tr = false ->
  0 < numImages s ->
  sends (generate_body gw s tr promptToUse).
Proof.
  intros Hsel Hen Hkey Hvid Hmsv Htwo Hn.
  unfold isGenerateDisabled in Hen. rewrite Hsel in Hen.
  unfold generate_body. unfold JS.eqb in *.
  rewrite (bool_decide_eq_false_2 (key tr = str "customPrompt")) in * by done.
  rewrite Hmsv, Htwo. cbn [andb].
  destruct (bool_decide (key tr = str "outfitStylist")) eqn:Eo.
  { apply bool_decide_eq_true_1 in Eo.
    assert (Hc : bool_decide (key tr = str "chibiQrCode") = false).
    { apply bool_decide_eq_false_2. by rewrite Eo. }
    rewrite Hc in Hen. unfold outfitStylist_branch.
    apply orb_false_iff in Hen as [Hen Hdesc].
    apply orb_false_iff in Hen as [_ Hprimary].
    apply negb_false_iff in Hdesc, Hprimary.
    destruct (primaryImageUrl s) as [[|c primary]|]; try done.
    cbn [truthy negb]. rewrite Hdesc. cbn [negb].
    apply sends_after_update. apply sends_then.
    - by apply sends_generateLookbook.
    - intros results. apply ends_steady, steady_update. done. }
  destruct (bool_decide (key tr = str "chibiQrCode")) eqn:Ec.
  { unfold chibiQrCode_branch.
    assert (Hready : chibiQrCode_ready s = true).
    { unfold chibiQrCode_ready.
      repeat (apply orb_false_iff in Hen as [Hen ?]).
      repeat match goal with
             | Hx : negb _ = false |- _ => apply negb_false_iff in Hx
             end.
      by repeat (apply andb_true_iff; split). }
    rewrite Hready. cbn [negb]. unfold chibiQrCode_ready in Hready.
    destruct (primaryImageUrl s) as [primary|]; [|done].
    destruct (secondaryImageUrl s) as [secondary|];
      [|cbn in Hready; by rewrite andb_false_r in Hready].
    apply sends_after_update. apply sends_then.
    - apply sends_await_editImage.
    - intros result. apply ends_publish. }
  rewrite Hvid in Hen.
  destruct (truthy_number (maxImages tr)) eqn:Emax.
  { unfold maxImages_branch. apply orb_false_iff in Hen as [_ Hlen].
    rewrite Hlen. apply sends_then.
    - apply sends_await_editImage.
    - intros result. apply ends_publish. }
  cbv zeta in Hen. apply orb_false_iff in Hen as [_ Hready].
  apply negb_false_iff in Hready. unfold default_branch.
  assert (Hprimary : truthy_opt (primaryImageUrl s) = true).
  { destruct (isMultiImage tr); [destruct (isSecondaryOptional tr)|];
      try done. by apply andb_true_iff in Hready as [? _]. }
  destruct (primaryImageUrl s) as [[|c primary]|]; try done.
  cbn [truthy negb].
  assert (Hboth : isMultiImage tr && negb (isSecondaryOptional tr)
                  && negb (truthy_opt (secondaryImageUrl s)) = false).
  { destruct (isMultiImage tr); [|done].
    destruct (isSecondaryOptional tr); [done|].
    apply andb_true_iff in Hready as [_ ->]. done. }
  rewrite Hboth. apply sends_after_update. apply sends_then.
  - apply sends_await_editImage.
  - intros result. apply ends_publish.
Qed.

(** X17: the Generate button and the handler agree. For a flow that
    makes its calls in one go (not the free prompt, not a video, not the
    variations for a video, not the two-step flow), whenever the button is
    available the handler accepts the request: it sends at least one call
    to the service. *)
Theorem enabled_button_sends_a_request gw s tr log :
  selectedTransformation s = Some tr ->
  isGenerateDisabled s = false ->
  key tr <> str "customPrompt" ->
  isVideo tr = false -> isMultiStepVideo tr = false -> isTwoStep tr = false ->
  0 < numImages s ->
  exists s' call calls,
    run (handleGenerateImage gw s) (s, log)
    = (Returned tt, (s', log ++ call :: calls)).
Proof.
  intros Hsel Hen Hkey Hvid Hmsv Htwo Hn.
  rewrite (handleGenerateImage_run gw s tr log Hsel). cbv zeta.
  set (promptToUse := if JS.eqb (prompt tr) (str "CUSTOM") then _ else _).
  destruct (enabled_body_sends gw s tr promptToUse Hsel Hen Hkey Hvid Hmsv
              Htwo Hn (started s, log)) as (call & calls & Hlog).
  rewrite Hlog. cbn [snd]. eauto.
Qed.

(** Without an image the [try] block is one of the refusals. *)
Lemma body_without_image gw s tr promptToUse :
  truthy_opt (primaryImageUrl s) = false ->
  multiImageUrls s = [] ->
  key tr <> str "customPrompt" ->
  exists k,
    k ∈ validation_errors /\ generate_body gw s tr promptToUse = refuse k.
Proof.
  intros Hprimary Hmulti Hkey. unfold generate_body, JS.eqb.
  rewrite (bool_decide_eq_false_2 (key tr = str "customPrompt")) by done.
  cbn [andb].
  unfold outfitStylist_branch, chibiQrCode_branch, multiStepVideo_branch,
    maxImages_branch, twoStep_branch, default_branch, chibiQrCode_ready.
  rewrite Hmulti. cbn [length Nat.eqb].
  destruct (primaryImageUrl s) as [[|c primary]|]; try done;
    cbn [truthy truthy_opt negb andb orb];
    repeat case_match;
    eexists; (split; [|reflexivity]); unfold validation_errors;
    set_solver.
Qed.

(** X18: without an image nothing is sent. When no primary image and no
    image of the multi-image uploader is there, [handleGenerateImage]
    (for any transformation but the free prompt, which then generates from
    text) makes no call of the service: it shows one of its validation
    messages, no result, and leaves the history as it was. *)
Theorem nothing_sent_without_image gw s tr log :
  selectedTransformation s = Some tr ->
  truthy_opt (primaryImageUrl s) = false ->
  multiImageUrls s = [] ->
  key tr <> str "customPrompt" ->
  exists s' k,
    run (handleGenerateImage gw s) (s, log) = (Returned tt, (s', log))
    /\ k ∈ validation_errors
    /\ App.error s' = Some (t k)
    /\ generatedContent s' = None
    /\ history s' = history s
    /\ isLoading s' = false.
Proof.
  intros Hsel Hprimary Hmulti Hkey.
  rewrite (handleGenerateImage_run gw s tr log Hsel). cbv zeta.
  set (promptToUse := if JS.eqb (prompt tr) (str "CUSTOM") then _ else _).
  destruct (body_without_image gw s tr promptToUse Hprimary Hmulti Hkey)
    as (k & Hk & ->).
  unfold refuse. rewrite run_bind, !run_update. cbn [fst snd].
  eexists _, k. split; [reflexivity|]. done.
Qed.

End Invariants.

Lemma handleGenerateImage_settles_witness :
  exists s' calls,
    run (@handleGenerateImage Sample.runtime Sample.studio Sample.generous
           Sample.chibi_session) (Sample.chibi_session, [])
    = (Returned tt, (s', [] ++ calls))
    /\ isLoading s' = false
    /\ loadingMessage s' = []
    /\ match generatedContent s' with
       | Some r => history s' = r :: history Sample.chibi_session
                   /\ App.error s' = None
       | None => history s' = history Sample.chibi_session
       end.
Proof.
  apply (@handleGenerateImage_settles Sample.runtime Sample.studio
           Sample.generous Sample.chibi_session Sample.chibiQrCode []).
  reflexivity.
Defined.

Lemma enabled_button_sends_a_request_witness :
  isGenerateDisabled Sample.chibi_session = false
  /\ exists s' call calls,
       run (@handleGenerateImage Sample.runtime Sample.studio Sample.generous
              Sample.chibi_session) (Sample.chibi_session, [])
       = (Returned tt, (s', [] ++ call :: calls)).
Proof.
  split; [reflexivity|].
  apply (@enabled_button_sends_a_request Sample.runtime Sample.studio
           Sample.generous Sample.chibi_session Sample.chibiQrCode []);
    first [ reflexivity | discriminate | vm_compute; lia ].
Defined.

Lemma nothing_sent_without_image_witness :
  exists s' k,
    run (@handleGenerateImage Sample.runtime Sample.studio Sample.generous
           (setSelectedTransformation (Some Sample.lineArtColor) Sample.fresh))
        (setSelectedTransformation (Some Sample.lineArtColor) Sample.fresh, [])
    = (Returned tt, (s', []))
    /\ k ∈ validation_errors
    /\ App.error s' = Some (@t Sample.studio k)
    /\ generatedContent s' = None
    /\ history s' = []
    /\ isLoading s' = false.
Proof.
  apply (@nothing_sent_without_image Sample.runtime Sample.studio
           Sample.generous
           (setSelectedTransformation (Some Sample.lineArtColor) Sample.fresh)
           Sample.lineArtColor []);
    first [ reflexivity | discriminate ].
Defined.

End HandlerInvariants.

(* ===================================================================== *)
(** ** Properties of the video tasks under interleaving *)
(* ===================================================================== *)

Module VideoTaskFacts.
Import AppControls.

Lemma keeps_history_same (step : AppState -> AppState) :
  (forall cur, history (step cur) = history cur) -> keeps_history step.
Proof. intros Hstep cur. exists []. apply Hstep. Qed.

Lemma act_keeps_history (a : UserAction) : keeps_history (act a).
Proof. destruct a; by apply keeps_history_same. Qed.

(** Steps that keep the history, under any schedule. *)
Lemma play_keeps_history (task : list (AppState -> AppState))
    (schedule : list Tick) (cur : AppState) :
  Forall keeps_history task ->
  exists added, history (play task schedule cur) = added ++ history cur.
Proof.
  revert task cur. induction schedule as [|[|a] schedule IH];
    intros task cur Htask.
  - by exists [].
  - cbn [play]. destruct task as [|step task]; [by apply IH|].
    apply Forall_cons in Htask as [Hstep Htask].
    destruct (IH task (step cur) Htask) as [added ->].
    destruct (Hstep cur) as [added' ->].
    exists (added ++ added'). by rewrite app_assoc.
  - cbn [play]. destruct (IH task (act a cur) Htask) as [added ->].
    destruct (act_keeps_history a cur) as [added' ->].
    exists (added ++ added'). by rewrite app_assoc.
Qed.

(** What the last step of a task establishes, and no handler of the user
    undoes, holds once the schedule has let the task take all its
    steps. *)
Lemma play_establishes (P : AppState -> Prop)
    (task : list (AppState -> AppState)) (final : AppState -> AppState)
    (schedule : list Tick) (cur : AppState) :
  (forall cur, P (final cur)) ->
  (forall a cur, P cur -> P (act a cur)) ->
  length (task ++ [final]) <= resumes schedule ->
  P (play (task ++ [final]) schedule cur).
Proof.
  intros Hfinal Hact.
  assert (Hdone : forall schedule cur, P cur -> P (play [] schedule cur)).
  { clear schedule cur. intros schedule.
    induction schedule as [|[|a] schedule IH]; intros cur Hcur; cbn [play];
      auto. }
  revert task cur.
  induction schedule as [|[|a] schedule IH]; intros task cur Hlen.
  - rewrite length_app in Hlen. cbn in Hlen. lia.
  - cbn [resumes] in Hlen. destruct task as [|step task].
    + cbn [app play]. apply Hdone, Hfinal.
    + cbn [app play]. apply IH. cbn [app length] in Hlen. lia.
  - cbn [play]. apply IH. exact Hlen.
Qed.

Lemma play_stops_loading (task : list (AppState -> AppState))
    (final : AppState -> AppState) (schedule : list Tick) (cur : AppState) :
  stops_loading final ->
  length (task ++ [final]) <= resumes schedule ->
  isLoading (play (task ++ [final]) schedule cur) = false
  /\ loadingMessage (play (task ++ [final]) schedule cur) = [].
Proof.
  intros Hfinal.
  apply (play_establishes
           (fun cur => isLoading cur = false /\ loadingMessage cur = []));
    [exact Hfinal|]. by intros [] ? [? ?].
Qed.

Section Tasks.
Context `{Runtime} `{Collaborators}.

Lemma on_video_event_history (e : VideoEvent) :
  keeps_history (on_video_event e).
Proof. apply keeps_history_same. intros cur. by destruct e. Qed.

Lemma events_keep_history (trace : list VideoEvent) :
  Forall keeps_history (map on_video_event trace).
Proof.
  induction trace; constructor; auto using on_video_event_history.
Qed.

Lemma after_generateVideo_history fetch s settled :
  Forall keeps_history (after_generateVideo fetch s settled).
Proof.
  unfold after_generateVideo.
  repeat case_match;
    repeat (constructor;
            [first [ by apply keeps_history_same
                   | intros cur; by eexists [_] ]|]);
    constructor.
Qed.

Lemma after_dynamic_video_history fetch chosen settled :
  Forall keeps_history (after_dynamic_video fetch chosen settled).
Proof.
  unfold after_dynamic_video.
  repeat case_match;
    repeat (constructor;
            [first [ by apply keeps_history_same
                   | intros cur; by eexists [_] ]|]);
    constructor.
Qed.

Lemma handleGenerateVideo_history job fetch s :
  Forall keeps_history (handleGenerateVideo job fetch s).
Proof.
  unfold handleGenerateVideo. repeat case_match;
    repeat first
      [ apply events_keep_history
      | apply after_generateVideo_history
      | apply Forall_app; split
      | constructor; [by apply keeps_history_same|]
      | constructor ].
Qed.

Lemma handleGenerateDynamicVideo_history job fetch s :
  Forall keeps_history (handleGenerateDynamicVideo job fetch s).
Proof.
  unfold handleGenerateDynamicVideo. cbv zeta. repeat case_match;
    repeat first
      [ apply events_keep_history
      | apply after_dynamic_video_history
      | apply Forall_app; split
      | constructor; [by apply keeps_history_same|]
      | constructor ].
Qed.

(** X19: no entry of the history is ever lost. Whatever the user does
    while a video task is pending (resets, returns to the selection) and
    however its steps are interleaved with that, and whether the job
    succeeds, fails or never ends, the history afterwards is the history
    before with at most new entries in front: for [handleGenerateVideo],
    for [handleGenerateDynamicVideo], and for the handlers of the user
    alone. *)
Theorem history_is_never_lost job fetch s (schedule : list Tick)
    (cur : AppState) :
  (exists added,
     history (play (handleGenerateVideo job fetch s) schedule cur)
     = added ++ history cur)
  /\ (exists added,
        history (play (handleGenerateDynamicVideo job fetch s) schedule cur)
        = added ++ history cur)
  /\ (exists added, history (play [] schedule cur) = added ++ history cur).
Proof.
  split; [|split]; apply play_keeps_history.
  - apply handleGenerateVideo_history.
  - apply handleGenerateDynamicVideo_history.
  - constructor.
Qed.

Lemma after_generateVideo_last fetch s settled :
  exists steps final,
    after_generateVideo fetch s settled = steps ++ [final]
    /\ stops_loading final.
Proof.
  unfold after_generateVideo. repeat case_match;
    first [ eexists [], _; split; [reflexivity|done]
          | eexists [_], _; split; [reflexivity|done]
          | eexists [_; _], _; split; [reflexivity|done] ].
Qed.

Lemma after_dynamic_video_last fetch chosen settled :
  exists steps final,
    after_dynamic_video fetch chosen settled = steps ++ [final]
    /\ stops_loading final
    /\ forall cur, selectedOption (final cur) = None.
Proof.
  unfold after_dynamic_video. repeat case_match;
    first [ eexists [], _; split; [reflexivity|done]
          | eexists [_], _; split; [reflexivity|done]
          | eexists [_; _], _; split; [reflexivity|done] ].
Qed.

(** X20: a video task that comes to its end stops the loading. When
    [handleGenerateVideo] has accepted the request (a transformation is
    selected and the prompt is not blank) and the job settles, then under
    every schedule that lets the task take all its steps, whatever the
    user does in between or afterwards, the loading indicator is off and
    the loading message is empty: after a success, a failed job, a failed
    download alike. *)
Theorem video_task_stops_loading job fetch s tr outcome
    (schedule : list Tick) (cur : AppState) :
  selectedTransformation s = Some tr ->
  trim (customPrompt s) <> [] ->
  snd (generateVideo job (customPrompt s)
         (match primaryImageUrl s with
          | Some u => if truthy u then Some (imagePart_of u) else None
          | None => None
          end) (aspectRatio s)) = Some outcome ->
  let task := handleGenerateVideo job fetch s in
  length task <= resumes schedule ->
  isLoading (play task schedule cur) = false
  /\ loadingMessage (play task schedule cur) = [].
Proof.
  intros Hsel Hprompt Hsettles task. subst task.
  unfold handleGenerateVideo. rewrite Hsel.
  destruct (trim (customPrompt s)) as [|c p]; [done|]. cbn [truthy negb].
  destruct (generateVideo _ _ _ _) as [trace settled].
  cbn [snd] in Hsettles. subst settled.
  destruct (after_generateVideo_last fetch s outcome)
    as (steps & final & -> & Hfinal).
  rewrite app_assoc, app_comm_cons. intros Hlen.
  by apply play_stops_loading.
Qed.

(** X21: [handleGenerateDynamicVideo] refuses to start without a
    selected option or without a video prompt: it only shows its message.
    Otherwise, when the job settles and the task has taken all its steps,
    the loading is stopped and the selection is cleared, whatever the
    outcome and whatever the user does in between. *)
Theorem handleGenerateDynamicVideo_ends job fetch s tr :
  selectedTransformation s = Some tr ->
  (truthy_opt (videoPrompt tr) && truthy_opt (selectedOption s) = false ->
   handleGenerateDynamicVideo job fetch s
   = [setError (Some (t (str "app.error.selectOneToAnimate")))])
  /\ (forall prompt chosen outcome schedule cur,
        videoPrompt tr = Some prompt -> prompt <> [] ->
        selectedOption s = Some chosen -> chosen <> [] ->
        snd (generateVideo job prompt (Some (imagePart_of chosen)) V9_16)
        = Some outcome ->
        let task := handleGenerateDynamicVideo job fetch s in
        length task <= resumes schedule ->
        isLoading (play task schedule cur) = false
        /\ loadingMessage (play task schedule cur) = []
        /\ selectedOption (play task schedule cur) = None).
Proof.
  intros Hsel. split.
  - intros Hnot. unfold handleGenerateDynamicVideo. rewrite Hsel. cbv zeta.
    destruct (videoPrompt tr) as [[|c p]|]; try done;
      destruct (selectedOption s) as [[|c' o]|]; done.
  - intros prompt chosen outcome schedule cur Hp Hpne Ho Hone Hsettles task.
    subst task. unfold handleGenerateDynamicVideo. rewrite Hsel, Hp, Ho.
    cbv zeta. destruct prompt as [|c p]; [done|].
    destruct chosen as [|c' o]; [done|]. cbn [truthy negb orb].
    destruct (generateVideo _ _ _ _) as [trace settled].
    cbn [snd] in Hsettles. subst settled.
    destruct (after_dynamic_video_last fetch (c' :: o) outcome)
      as (steps & final & -> & Hfinal & Hclears).
    rewrite app_assoc, app_comm_cons. intros Hlen.
    apply (play_establishes
             (fun cur => isLoading cur = false /\ loadingMessage cur = []
                         /\ selectedOption cur = None)); [| |exact Hlen].
    + intros cur'. destruct (Hfinal cur'). auto.
    + by intros [] ? (? & ? & ?).
Qed.

End Tasks.

Lemma video_task_stops_loading_witness :
  let task := @handleGenerateVideo Sample.runtime Sample.studio
                Sample.slow_job Sample.download Sample.video_session in
  let schedule :=
    Sample.reset_while_polling ++ [Resume; User BackToSelection] in
  isLoading (play task schedule Sample.video_session) = false
  /\ loadingMessage (play task schedule Sample.video_session) = [].
Proof.
  eapply (@video_task_stops_loading Sample.runtime Sample.studio
            Sample.slow_job Sample.download Sample.video_session
            Sample.videoGeneration);
    first [ reflexivity | discriminate | vm_compute; lia ].
Defined.

Lemma handleGenerateDynamicVideo_ends_witness :
  let animate :=
    {| key := str "figurine"; prompt := str "Make a figurine.";
       isMultiImage := false; isSecondaryOptional := false;
       maxImages := Some 4%N; isTwoStep := false; stepTwoPrompt := [];
       isMultiStepVideo := true; isVideo := false;
       videoPrompt := Some (str "Animate the figurine.") |} in
  let s :=
    setSelectedOption (Some (Sample.png "QUJD"))
      (setSelectedTransformation (Some animate) Sample.fresh) in
  let task := @handleGenerateDynamicVideo Sample.runtime Sample.studio
                Sample.failing_job Sample.download s in
  let schedule := repeat Resume 3 ++ [User ResetApp] ++ repeat Resume 4 in
  isLoading (play task schedule s) = false
  /\ loadingMessage (play task schedule s) = []
  /\ selectedOption (play task schedule s) = None.
Proof.
  intros animate s task schedule.
  eapply (proj2 (@handleGenerateDynamicVideo_ends Sample.runtime
                   Sample.studio Sample.failing_job Sample.download s
                   animate eq_refl));
    first [ reflexivity | discriminate | vm_compute; lia ].
Defined.

End VideoTaskFacts.

(* ===================================================================== *)
(** ** Uploads, selection and what Generate sends *)
(* ===================================================================== *)

Module SelectionFacts.
Import AppControls.

Section Selection.
Context `{Runtime} `{Collaborators}.

(** The run of [handleGenerateImage] when its [try] block is, after a
    state setter, one [editImage] call followed by the publication of its
    result. *)
Lemma one_call_run gw s tr log promptToUse imageParts mask original
    (f : AppState -> AppState) :
  selectedTransformation s = Some tr ->
  promptToUse
  = (if JS.eqb (prompt tr) (str "CUSTOM") then customPrompt s else prompt tr) ->
  (forall cur, generatedContent (f cur) = generatedContent cur
               /\ history (f cur) = history cur) ->
  (forall w,
     run (generate_body gw s tr promptToUse) w
     = run (update f ;;
            result ← await_editImage gw promptToUse imageParts mask ;
            publish (finalize result original)) w) ->
  exists s',
    run (handleGenerateImage gw s) (s, log)
    = (Returned tt,
       (s', log ++ [GenerateContent
                      (editImage_request promptToUse imageParts mask)]))
    /\ (forall r,
          snd (child gw log 0) = Resolved r ->
          generatedContent s' = Some (finalize r original)
          /\ history s' = finalize r original :: history s).
Proof.
  intros Hsel -> Hf Hbody.
  rewrite (HandlerInvariants.handleGenerateImage_run gw s tr log Hsel).
  cbv zeta. rewrite Hbody.
  rewrite run_bind, run_update. cbn [fst snd].
  rewrite run_bind, run_await_editImage.
  destruct (snd (child gw log 0)) as [r|e].
  - unfold publish. rewrite run_bind, !run_update. cbn [fst snd].
    eexists. split; [reflexivity|]. intros r' [= <-].
    destruct (Hf (started s)) as [_ Hh]. cbn. by rewrite Hh.
  - cbn [fst snd]. eexists. split; [reflexivity|]. done.
Qed.


(** X23: a result taken as the new input is sent alone. After
    [handleUseImageAsInput] has succeeded and an effect on one image has
    been chosen, Generate sends one request whose parts are that image and
    the prompt: neither the mask nor the secondary image that were there
    before go with it. *)
Theorem reused_image_is_sent_alone gw s0 newFile imageUrl tr log :
  imageUrl <> [] ->
  key tr <> str "outfitStylist" -> key tr <> str "chibiQrCode" ->
  isMultiStepVideo tr = false -> isTwoStep tr = false ->
  isMultiImage tr = false ->
  let s := handleSelectTransformation tr
             (handleUseImageAsInput (Resolved newFile) imageUrl s0) in
  let promptToUse :=
    if JS.eqb (prompt tr) (str "CUSTOM") then customPrompt s0 else prompt tr in
  exists s',
    run (handleGenerateImage gw s) (s, log)
    = (Returned tt,
       (s', log ++ [GenerateContent
                      {| model := str "gemini-2.5-flash-image";
                         parts := [inline (imagePart_of imageUrl);
                                   Text promptToUse];
                         responseModalities := [str "IMAGE"] |}])).
Proof.
  intros Hurl Hk1 Hk2 Hmsv Htwo Hmulti s promptToUse.
  assert (Hs : primaryImageUrl s = Some imageUrl
               /\ multiImageUrls s = [imageUrl]
               /\ maskDataUrl s = None /\ secondaryImageUrl s = None).
  { subst s. unfold handleUseImageAsInput. destruct imageUrl; [done|].
    cbn. by destruct (truthy_number (maxImages tr)). }
  destruct Hs as (Hprimary & Huploader & Hmask & Hsecondary).
  destruct (one_call_run gw s tr log promptToUse [imagePart_of imageUrl] None
              (Some imageUrl)
              (if truthy_number (maxImages tr) then fun cur => cur
               else setLoadingMessage (t (str "app.loading.default"))))
    as (s' & Hrun & _).
  - reflexivity.
  - change (customPrompt s)
      with (if negb (JS.eqb (prompt tr) (str "CUSTOM")) then []
            else customPrompt
                   (handleUseImageAsInput (Resolved newFile) imageUrl s0)).
    subst promptToUse. destruct (JS.eqb (prompt tr) (str "CUSTOM")); [|done].
    unfold handleUseImageAsInput. by destruct imageUrl.
  - by destruct (truthy_number (maxImages tr)).
  - intros [cur log']. unfold generate_body, JS.eqb.
    rewrite !bool_decide_eq_false_2 by done. rewrite Hmsv, Htwo, Hprimary.
    destruct imageUrl as [|c u]; [done|].
    cbn [truthy_opt truthy negb]. rewrite andb_false_r.
    destruct (truthy_number (maxImages tr)).
    + unfold maxImages_branch. rewrite Huploader. reflexivity.
    + unfold default_branch. rewrite Hprimary, Hmask, Hsecondary, Hmulti.
      reflexivity.
  - exists s'. exact Hrun.
Qed.

(** X24: clearing the primary image takes it out of everything that
    could be sent. After [handleClearPrimaryImage], for every selected
    effect but the free prompt, Generate sends nothing and shows a
    validation message; and unless the effect is a video the button is
    disabled. *)
Theorem cleared_image_is_not_sent gw s0 tr log :
  selectedTransformation s0 = Some tr ->
  key tr <> str "customPrompt" ->
  let s := handleClearPrimaryImage s0 in
  (exists s' k,
     run (handleGenerateImage gw s) (s, log) = (Returned tt, (s', log))
     /\ k ∈ validation_errors
     /\ App.error s' = Some (t k))
  /\ (isVideo tr = false -> isGenerateDisabled s = true).
Proof.
  intros Hsel Hkey s. split.
  - rewrite (HandlerInvariants.handleGenerateImage_run gw s tr log Hsel).
    cbv zeta.
    set (promptToUse := if JS.eqb (prompt tr) (str "CUSTOM") then _ else _).
    destruct (HandlerInvariants.body_without_image gw s tr promptToUse)
      as (k & Hk & ->); [reflexivity|reflexivity|done|].
    unfold refuse. rewrite run_bind, !run_update. cbn [fst snd].
    eexists _, k. split; [reflexivity|]. done.
  - intros Hvid. unfold isGenerateDisabled.
    change (selectedTransformation s) with (selectedTransformation s0).
    rewrite Hsel. unfold JS.eqb.
    rewrite (bool_decide_eq_false_2 (key tr = str "customPrompt")) by done.
    rewrite Hvid.
    change (primaryImageUrl s) with (@None JSString).
    change (multiImageUrls s) with (@nil JSString).
    cbn [truthy_opt negb length Nat.eqb andb].
    repeat case_match; rewrite ?orb_true_r; try done;
      by rewrite !orb_true_l.
Qed.

(** The mask that the default flow sends: the data of the mask drawn, if
    any. *)
Lemma default_body gw s tr promptToUse primary w :
  primaryImageUrl s = Some primary -> primary <> [] ->
  key tr <> str "outfitStylist" -> key tr <> str "chibiQrCode" ->
  isMultiStepVideo tr = false -> truthy_number (maxImages tr) = false ->
  isTwoStep tr = false ->
  run (generate_body gw s tr promptToUse) w
  = run (default_branch gw s tr promptToUse
           (match maskDataUrl s with
            | Some m => if truthy m then base64_of m else None
            | None => None
            end)) w.
Proof.
  intros Hprimary Hne Hk1 Hk2 Hmsv Hmax Htwo. unfold generate_body, JS.eqb.
  rewrite !bool_decide_eq_false_2 by done. rewrite Hmsv, Hmax, Htwo, Hprimary.
  destruct primary; [done|]. cbn [truthy_opt truthy negb].
  by rewrite andb_false_r.
Qed.

(** X25: the secondary image goes second, and only while it is there.
    In a plain two-image flow with a primary image, after
    [handleSecondaryImageSelect] Generate sends one request with the
    primary image, the mask data if a mask is drawn, and then the new
    secondary image; after [handleClearSecondaryImage] it sends the primary
    image alone when the secondary image is optional, and sends nothing
    but asks for both images when it is not. *)
Theorem secondary_image_goes_second gw s0 tr primary log :
  selectedTransformation s0 = Some tr ->
  primaryImageUrl s0 = Some primary -> primary <> [] ->
  key tr <> str "outfitStylist" -> key tr <> str "chibiQrCode" ->
  isMultiStepVideo tr = false -> truthy_number (maxImages tr) = false ->
  isTwoStep tr = false -> isMultiImage tr = true ->
  let promptToUse :=
    if JS.eqb (prompt tr) (str "CUSTOM") then customPrompt s0 else prompt tr in
  let mask :=
    match maskDataUrl s0 with
    | Some m => if truthy m then base64_of m else None
    | None => None
    end in
  (forall file dataUrl,
     dataUrl <> [] ->
     let s := handleSecondaryImageSelect file dataUrl s0 in
     exists s',
       run (handleGenerateImage gw s) (s, log)
       = (Returned tt,
          (s', log ++ [GenerateContent
                         (editImage_request promptToUse
                            [imagePart_of primary; imagePart_of dataUrl]
                            mask)])))
  /\ (isSecondaryOptional tr = true ->
      let s := handleClearSecondaryImage s0 in
      exists s',
        run (handleGenerateImage gw s) (s, log)
        = (Returned tt,
           (s', log ++ [GenerateContent
                          (editImage_request promptToUse
                             [imagePart_of primary] mask)])))
  /\ (isSecondaryOptional tr = false ->
      let s := handleClearSecondaryImage s0 in
      exists s',
        run (handleGenerateImage gw s) (s, log) = (Returned tt, (s', log))
        /\ App.error s' = Some (t (str "app.error.uploadBoth"))).
Proof.
  intros Hsel Hprimary Hne Hk1 Hk2 Hmsv Hmax Htwo Hmulti promptToUse mask.
  split; [|split].
  - intros file dataUrl Hdata s.
    destruct (one_call_run gw s tr log promptToUse
                [imagePart_of primary; imagePart_of dataUrl] mask
                (Some primary)
                (setLoadingMessage (t (str "app.loading.default"))))
      as (s' & Hrun & _); [done|reflexivity|done| |by exists s'].
    intros w.
    rewrite (default_body gw s tr promptToUse primary w) by done.
    unfold default_branch.
    change (primaryImageUrl s) with (primaryImageUrl s0).
    change (secondaryImageUrl s) with (Some dataUrl).
    change (maskDataUrl s) with (maskDataUrl s0). fold mask.
    rewrite Hprimary, Hmulti. destruct primary; [done|].
    destruct dataUrl; [done|]. cbn [truthy_opt truthy negb andb].
    rewrite andb_false_r. reflexivity.
  - intros Hopt s.
    destruct (one_call_run gw s tr log promptToUse
                [imagePart_of primary] mask (Some primary)
                (setLoadingMessage (t (str "app.loading.default"))))
      as (s' & Hrun & _); [done|reflexivity|done| |by exists s'].
    intros w.
    rewrite (default_body gw s tr promptToUse primary w) by done.
    unfold default_branch.
    change (primaryImageUrl s) with (primaryImageUrl s0).
    change (secondaryImageUrl s) with (@None JSString).
    change (maskDataUrl s) with (maskDataUrl s0). fold mask.
    rewrite Hprimary, Hmulti, Hopt. destruct primary; [done|].
    reflexivity.
  - intros Hopt s.
    rewrite (HandlerInvariants.handleGenerateImage_run gw s tr log Hsel).
    cbv zeta. change (customPrompt s) with (customPrompt s0).
    fold promptToUse.
    rewrite (default_body gw s tr promptToUse primary _) by done.
    unfold default_branch.
    change (primaryImageUrl s) with (primaryImageUrl s0).
    change (secondaryImageUrl s) with (@None JSString).
    rewrite Hprimary, Hmulti, Hopt. destruct primary; [done|].
    cbn [truthy_opt truthy negb andb].
    unfold refuse. rewrite run_bind, !run_update. cbn [fst snd].
    eexists. split; [reflexivity|]. done.
Qed.

End Selection.


Lemma reused_image_is_sent_alone_witness :
  let before :=
    Sample.session (Sample.entry "B") (Some (Sample.png "T0xE"))
      (Some (Sample.png "REVG")) (Some (Sample.png "TUFTSw")) [] [] [] [] [] in
  let s :=
    handleSelectTransformation (Sample.entry "A")
      (@handleUseImageAsInput Sample.studio
         (Resolved {| file_name := str "edited-1730592000000.png" |})
         (Sample.png "QUJD") before) in
  exists s',
    run (@handleGenerateImage Sample.runtime Sample.studio Sample.generous s)
        (s, [])
    = (Returned tt,
       (s', [GenerateContent
               {| model := str "gemini-2.5-flash-image";
                  parts := [InlineData (Some (str "QUJD")) (str "image/png");
                            Text (str "Restyle the image.")];
                  responseModalities := [str "IMAGE"] |}])).
Proof.
  intros before s.
  apply (@reused_image_is_sent_alone Sample.runtime Sample.studio
           Sample.generous before
           {| file_name := str "edited-1730592000000.png" |}
           (Sample.png "QUJD") (Sample.entry "A") []);
    first [ reflexivity | discriminate ].
Defined.

Lemma cleared_image_is_not_sent_witness :
  let s := handleClearPrimaryImage Sample.chibi_session in
  (exists s' k,
     run (@handleGenerateImage Sample.runtime Sample.studio Sample.generous s)
         (s, [])
     = (Returned tt, (s', []))
     /\ k ∈ validation_errors
     /\ App.error s' = Some (@t Sample.studio k))
  /\ isGenerateDisabled s = true.
Proof.
  intros s.
  destruct (@cleared_image_is_not_sent Sample.runtime Sample.studio
              Sample.generous Sample.chibi_session Sample.chibiQrCode []
              eq_refl ltac:(discriminate)) as [Hsent Hbutton].
  split; [exact Hsent | exact (Hbutton eq_refl)].
Defined.

Lemma secondary_image_goes_second_witness :
  let blend :=
    {| key := str "blend"; prompt := str "Blend the two images.";
       isMultiImage := true; isSecondaryOptional := true;
       maxImages := None; isTwoStep := false; stepTwoPrompt := [];
       isMultiStepVideo := false; isVideo := false; videoPrompt := None |} in
  let before :=
    Sample.session blend (Some (Sample.png "QUJD")) None
      (Some (Sample.png "TUFTSw")) [] [] [] [] [] in
  let s :=
    handleSecondaryImageSelect {| file_name := str "sky.png" |}
      (Sample.png "REVG") before in
  exists s',
    run (@handleGenerateImage Sample.runtime Sample.studio Sample.generous s)
        (s, [])
    = (Returned tt,
       (s', [GenerateContent
               {| model := str "gemini-2.5-flash-image";
                  parts := [InlineData (Some (str "QUJD")) (str "image/png");
                            InlineData (Some (str "TUFTSw")) (str "image/png");
                            InlineData (Some (str "REVG")) (str "image/png");
                            Text (masked_prompt (str "Blend the two images."))];
                  responseModalities := [str "IMAGE"] |}])).
Proof.
  intros blend before s.
  destruct (@secondary_image_goes_second Sample.runtime Sample.studio
              Sample.generous before blend (Sample.png "QUJD") [])
    as [Hselect _]; try first [ reflexivity | discriminate ].
  apply (Hselect {| file_name := str "sky.png" |} (Sample.png "REVG")).
  discriminate.
Defined.

End SelectionFacts.

(* ===================================================================== *)
(** ** The second step of the two-step flow *)
(* ===================================================================== *)

Module TwoStepFacts.
Import AppControls.

Section TwoStep.
Context `{Runtime} `{Collaborators}.

Lemma child_after_call gw log request :
  child gw (log ++ [GenerateContent request]) 0 = child gw log 1.
Proof.
  unfold child. change (log ++ [GenerateContent request])
    with (push log (GenerateContent request)).
  rewrite count_content_push.
  by replace (S (count_content log) + 0) with (count_content log + 1) by lia.
Qed.

Lemma twoStep_body gw s tr promptToUse primary w :
  primaryImageUrl s = Some primary -> primary <> [] ->
  key tr <> str "outfitStylist" -> key tr <> str "chibiQrCode" ->
  isMultiStepVideo tr = false -> truthy_number (maxImages tr) = false ->
  isTwoStep tr = true ->
  run (generate_body gw s tr promptToUse) w
  = run (twoStep_branch gw s tr promptToUse) w.
Proof.
  intros Hprimary Hne Hk1 Hk2 Hmsv Hmax Htwo. unfold generate_body, JS.eqb.
  rewrite !bool_decide_eq_false_2 by done. rewrite Hmsv, Hmax, Htwo, Hprimary.
  destruct primary; [done|]. cbn [truthy_opt truthy negb].
  by rewrite andb_false_r.
Qed.

(** X26: the two-step flow, after a first step that succeeds. The
    image of step one, watermarked, and the secondary image resized to the
    primary one are the two images of the second request, in that order,
    with the second prompt and no mask; the result on display names the
    primary image as its original and the image of step one as its
    secondary image. When the primary image cannot be loaded or the
    secondary image cannot be resized, the second request is not made
    and the failure is shown. *)
Theorem twoStep_second_step gw s tr primary secondary stepOne log :
  selectedTransformation s = Some tr ->
  key tr <> str "outfitStylist" -> key tr <> str "chibiQrCode" ->
  isMultiStepVideo tr = false -> truthy_number (maxImages tr) = false ->
  isTwoStep tr = true ->
  primaryImageUrl s = Some primary -> primary <> [] ->
  secondaryImageUrl s = Some secondary -> secondary <> [] ->
  snd (child gw log 0) = Resolved stepOne ->
  let promptToUse :=
    if JS.eqb (prompt tr) (str "CUSTOM") then customPrompt s else prompt tr in
  let first := GenerateContent
                 (editImage_request promptToUse [imagePart_of primary] None) in
  let stepOneImageUrl := default [] (applyWatermarks (imageUrl stepOne)) in
  (forall primaryImage resized,
     loadImage primary = Resolved primaryImage ->
     resizeImageToMatch secondary primaryImage = Resolved resized ->
     exists s',
       run (handleGenerateImage gw s) (s, log)
       = (Returned tt,
          (s', log ++ [first;
                       GenerateContent
                         (editImage_request (stepTwoPrompt tr)
                            [imagePart_of stepOneImageUrl;
                             imagePart_of resized] None)]))
       /\ (forall stepTwo,
             snd (child gw log 1) = Resolved stepTwo ->
             generatedContent s'
             = Some {| imageUrl := applyWatermarks (imageUrl stepTwo);
                       text := text stepTwo;
                       videoUrl := videoUrl stepTwo;
                       originalImageUrl := Some primary;
                       Gemini.secondaryImageUrl := Some stepOneImageUrl |}))
  /\ (forall failure,
        loadImage primary = Rejected failure
        \/ (exists primaryImage,
              loadImage primary = Resolved primaryImage
              /\ resizeImageToMatch secondary primaryImage = Rejected failure) ->
        exists s',
          run (handleGenerateImage gw s) (s, log)
          = (Returned tt, (s', log ++ [first]))
          /\ App.error s' = Some (error_text failure)
          /\ generatedContent s' = None).
Proof.
  intros Hsel Hk1 Hk2 Hmsv Hmax Htwo Hp Hpne Hs Hsne Hone
    promptToUse first stepOneImageUrl.
  pose proof (editImage_result_has_image _ _ Hone) as Himage.
  assert (Hstart : forall cur,
    run (twoStep_branch gw s tr promptToUse) (cur, log)
    = run (primaryImage ← await (loadImage primary) ;
           resizedSecondaryImageUrl ←
             await (resizeImageToMatch secondary primaryImage) ;
           stepTwoResult ←
             await_editImage gw (stepTwoPrompt tr)
               [imagePart_of stepOneImageUrl;
                imagePart_of resizedSecondaryImageUrl] None ;
           publish
             {| imageUrl := applyWatermarks (imageUrl stepTwoResult);
                text := text stepTwoResult;
                videoUrl := videoUrl stepTwoResult;
                originalImageUrl := primaryImageUrl s;
                Gemini.secondaryImageUrl := Some stepOneImageUrl |})
          (setLoadingMessage (t (str "app.loading.step2"))
             (setLoadingMessage (t (str "app.loading.step1")) cur),
           log ++ [first])).
  { intros cur. unfold twoStep_branch. rewrite Hp, Hs.
    destruct primary as [|c1 p1]; [done|].
    destruct secondary as [|c2 s2]; [done|]. cbn [truthy negb orb].
    rewrite run_bind, run_update, run_bind, run_await_editImage.
    cbn [fst snd]. rewrite Hone, Himage. cbn [negb].
    rewrite run_bind, run_update. reflexivity. }
  split.
  - intros primaryImage resized Hload Hresize.
    rewrite (HandlerInvariants.handleGenerateImage_run gw s tr log Hsel).
    cbv zeta. fold promptToUse.
    rewrite (twoStep_body gw s tr promptToUse primary _) by done.
    rewrite Hstart. rewrite run_bind, Hload. cbn [await run mret handler_ret].
    rewrite run_bind, Hresize. cbn [await run mret handler_ret].
    rewrite run_bind, run_await_editImage. subst first.
    rewrite (child_after_call gw log
               (editImage_request promptToUse [imagePart_of primary] None)).
    cbn [fst snd].
    rewrite <- app_assoc. cbn [app].
    destruct (snd (child gw log 1)) as [stepTwo|e].
    + unfold publish. rewrite run_bind, !run_update. cbn [fst snd].
      eexists. split; [reflexivity|]. intros r [= <-]. cbn. by rewrite Hp.
    + cbn [fst snd]. eexists. split; [reflexivity|]. done.
  - intros failure Hfail.
    rewrite (HandlerInvariants.handleGenerateImage_run gw s tr log Hsel).
    cbv zeta. fold promptToUse.
    rewrite (twoStep_body gw s tr promptToUse primary _) by done.
    rewrite Hstart.
    destruct Hfail as [Hload|(primaryImage & Hload & Hresize)].
    + rewrite run_bind, Hload. cbn [await run throw fst snd].
      eexists. split; [reflexivity|]. done.
    + rewrite run_bind, Hload. cbn [await run mret handler_ret].
      rewrite run_bind, Hresize. cbn [await run throw fst snd].
      eexists. split; [reflexivity|]. done.
Qed.

End TwoStep.

Lemma twoStep_second_step_witness :
  exists s',
    run (@handleGenerateImage Sample.runtime Sample.studio Sample.generous
           Sample.two_step_session) (Sample.two_step_session, [])
    = (Returned tt,
       (s', [GenerateContent
               (editImage_request (str "Turn the image into line art.")
                  [{| base64 := Some (str "QUJD");
                      mimeType := str "image/png" |}] None);
             GenerateContent
               (editImage_request
                  (str "Colour the line art with the palette of the second image.")
                  [{| base64 := Some (str "AAAA#invisible#visible");
                      mimeType := str "image/png" |};
                   {| base64 := Some (str "REVG");
                      mimeType := str "image/png" |}] None)])).
Proof.
  destruct (@twoStep_second_step Sample.runtime Sample.studio Sample.generous
              Sample.two_step_session Sample.lineArtColor
              (Sample.png "QUJD") (Sample.png "REVG")
              {| imageUrl := Some (Sample.png "AAAA"); text := None;
                 videoUrl := None; originalImageUrl := None;
                 Gemini.secondaryImageUrl := None |} [])
    as [Hsecond _]; try first [ reflexivity | discriminate ].
  destruct (Hsecond {| width := 4; height := 3 |} (Sample.png "REVG")
              eq_refl eq_refl) as (s' & Hrun & _).
  exists s'. exact Hrun.
Defined.

End TwoStepFacts.
